(** * Sparkbot real-time chat core: connection registry, broadcast, sessions

    A shallow embedding of [backend/app/api/routes/chat/websocket.py]
    (the [ConnectionManager] singleton, the token validator and the two
    WebSocket endpoints) together with the parts of [backend/app/crud.py]
    the endpoints call, followed by the properties of the specification.

    Conventions of the embedding.
    - Python dictionaries that are only looked up are [gmap]s; the inner
      dictionary [connections[room_id]], which [broadcast] iterates, is an
      insertion-ordered association list ([pydict]).  Python sets are [gset]s.
    - A raised exception is the [Raise] outcome of the [res] and [ST] monads;
      [try]/[except]/[finally] are the combinators [try_] and [try_finally].
    - Coroutines run to completion one after the other: the embedding is the
      sequential semantics of each [async def]; interleavings at [await]
      points are not represented.
    - Timestamps ([datetime.now]) are left out of the outbound events. *)

From Stdlib Require Import ZArith Ascii String.
From stdpp Require Import base strings gmap sets list.

Open Scope string_scope.
Open Scope list_scope.
Set Warnings "-clear-no-such-hyp".

(** ** Identifiers *)

(** [room_id] is annotated [str], but the generic endpoint passes whatever
    JSON value the client sent; hashable non-string values (numbers, [true])
    are legal dictionary keys.  [True] and [1] are the same key in Python. *)
Inductive rkey :=
| KStr (s : string)
| KInt (z : Z)
| KNone.

#[global] Instance rkey_eq_dec : EqDecision rkey.
Proof. solve_decision. Defined.

#[global] Instance rkey_countable : Countable rkey.
Proof.
  refine (inj_countable'
            (λ k, match k with
                  | KStr s => inl s | KInt z => inr (Some z) | KNone => inr None
                  end)
            (λ x, match x with
                  | inl s => KStr s | inr (Some z) => KInt z | inr None => KNone
                  end) _).
  by intros [].
Defined.

(** A WebSocket object, identified by its handle. *)
Definition conn := nat.

(** ** Exceptions and results *)

Inductive exn :=
| WebSocketDisconnect
| JSONDecodeError
| ValueError
| AttributeError
| TypeError
| KeyError
| MultipleResultsFound
| RuntimeError.

#[global] Instance exn_eq_dec : EqDecision exn.
Proof. solve_decision. Defined.

Inductive res (A : Type) :=
| Ok (a : A)
| Raise (e : exn).
Arguments Ok {A} a.
Arguments Raise {A} e.

#[global] Instance res_ret : MRet res := λ A a, Ok a.
#[global] Instance res_bind : MBind res := λ A B f r,
  match r with
  | Ok a => f a
  | Raise e => Raise e
  end.

(** [d[k]] on a dictionary that is only looked up. *)
Definition getitem {K V} `{Countable K} (d : gmap K V) (k : K) : res V :=
  match d !! k with
  | Some v => Ok v
  | None => Raise KeyError
  end.

(** ** State and exceptions

    A statement sequence over mutable state [S] that may raise: the state
    reached so far survives the exception, as it does in Python. *)

Definition ST (S A : Type) : Type := S → res A * S.

#[global] Instance ST_ret {S} : MRet (ST S) := λ A a s, (Ok a, s).
#[global] Instance ST_bind {S} : MBind (ST S) := λ A B f m s,
  match m s with
  | (Ok a, s') => f a s'
  | (Raise e, s') => (Raise e, s')
  end.

Definition get {S} : ST S S := λ s, (Ok s, s).
Definition gets {S A} (f : S → A) : ST S A := λ s, (Ok (f s), s).
Definition modify {S} (f : S → S) : ST S unit := λ s, (Ok tt, f s).
Definition raise {S A} (e : exn) : ST S A := λ s, (Raise e, s).
Definition lift {S A} (r : res A) : ST S A := λ s, (r, s).

(** [try: m except Exception as e: ...]: the outcome of [m] as a value. *)
Definition try_ {S A} (m : ST S A) : ST S (res A) := λ s,
  let '(r, s') := m s in (Ok r, s').

(** [for x in xs: body x] *)
Fixpoint for_each {S A} (xs : list A) (body : A → ST S unit) : ST S unit :=
  match xs with
  | [] => mret tt
  | x :: xs' => body x;; for_each xs' body
  end.

(** ** Insertion-ordered dictionaries *)

Section pydict.
Context {V : Type}.

(** [d.get(k)] *)
Fixpoint dget (k : string) (d : list (string * V)) : option V :=
  match d with
  | [] => None
  | (k', v) :: d' => if decide (k = k') then Some v else dget k d'
  end.

(** [d[k] = v]: an existing key keeps its position, a new key is appended. *)
Fixpoint dset (k : string) (v : V) (d : list (string * V)) : list (string * V) :=
  match d with
  | [] => [(k, v)]
  | (k', v') :: d' =>
      if decide (k = k') then (k, v) :: d' else (k', v') :: dset k v d'
  end.

(** [del d[k]] *)
Definition ddel (k : string) (d : list (string * V)) : list (string * V) :=
  filter (λ kv, kv.1 ≠ k) d.

(** [k in d] *)
Definition dmem (k : string) (d : list (string * V)) : bool :=
  bool_decide (is_Some (dget k d)).
End pydict.

(** ** The connection manager (registry) *)

Record ConnectionManager := {
  (** room_id -> {user_id -> WebSocket} *)
  connections : gmap rkey (list (string * conn));
  (** room_id -> set of user_ids *)
  room_users : gmap rkey (gset string);
  (** user_id -> set of room_ids *)
  user_rooms : gmap string (gset rkey);
}.

(** [ConnectionManager.__init__] *)
Definition init_manager : ConnectionManager :=
  {| connections := ∅; room_users := ∅; user_rooms := ∅ |}.

Definition set_connections
    (f : gmap rkey (list (string * conn)) → gmap rkey (list (string * conn)))
    (self : ConnectionManager) : ConnectionManager :=
  {| connections := f (connections self);
     room_users := room_users self;
     user_rooms := user_rooms self |}.

Definition set_room_users
    (f : gmap rkey (gset string) → gmap rkey (gset string))
    (self : ConnectionManager) : ConnectionManager :=
  {| connections := connections self;
     room_users := f (room_users self);
     user_rooms := user_rooms self |}.

Definition set_user_rooms
    (f : gmap string (gset rkey) → gmap string (gset rkey))
    (self : ConnectionManager) : ConnectionManager :=
  {| connections := connections self;
     room_users := room_users self;
     user_rooms := f (user_rooms self) |}.

(** [ConnectionManager.connect], the body under the lock. *)
Definition connect (websocket : conn) (room_id : rkey) (user_id : string)
    : ST ConnectionManager unit :=
  self ← get;
  (if decide (is_Some (connections self !! room_id)) then mret tt
   else modify (set_connections (insert room_id []));;
        modify (set_room_users (insert room_id ∅)));;
  (* self.connections[room_id][user_id] = websocket *)
  self ← get;
  d ← lift (getitem (connections self) room_id);
  modify (set_connections (insert room_id (dset user_id websocket d)));;
  (* self.room_users[room_id].add(user_id) *)
  self ← get;
  us ← lift (getitem (room_users self) room_id);
  modify (set_room_users (insert room_id (us ∪ {[user_id]})));;
  self ← get;
  (if decide (is_Some (user_rooms self !! user_id)) then mret tt
   else modify (set_user_rooms (insert user_id ∅)));;
  (* self.user_rooms[user_id].add(room_id) *)
  self ← get;
  rs ← lift (getitem (user_rooms self) user_id);
  modify (set_user_rooms (insert user_id (rs ∪ {[room_id]}))).

(** The first [if] of [disconnect]: the entry, when present. *)
Definition disconnect_entry (room_id : rkey) (user_id : string)
    : ST ConnectionManager unit :=
  self ← get;
  match connections self !! room_id with
  | Some d =>
      if dmem user_id d then
        (* del self.connections[room_id][user_id] *)
        modify (set_connections (insert room_id (ddel user_id d)));;
        (* self.room_users[room_id].discard(user_id) *)
        self ← get;
        us ← lift (getitem (room_users self) room_id);
        modify (set_room_users (insert room_id (us ∖ {[user_id]})));;
        match ddel user_id d with
        | [] =>
            modify (set_connections (delete room_id));;
            self ← get;
            _ ← lift (getitem (room_users self) room_id);
            modify (set_room_users (delete room_id))
        | _ :: _ => mret tt
        end
      else mret tt
  | None => mret tt
  end.

(** The second [if] of [disconnect]: the reverse index. *)
Definition disconnect_index (room_id : rkey) (user_id : string)
    : ST ConnectionManager unit :=
  self ← get;
  match user_rooms self !! user_id with
  | Some rs =>
      let rs' := rs ∖ {[room_id]} in
      if decide (rs' = ∅) then modify (set_user_rooms (delete user_id))
      else modify (set_user_rooms (insert user_id rs'))
  | None => mret tt
  end.

(** [ConnectionManager.disconnect], the body under the lock. *)
Definition disconnect (room_id : rkey) (user_id : string) : ST ConnectionManager unit :=
  disconnect_entry room_id user_id;;
  disconnect_index room_id user_id.

(** [ConnectionManager.get_online_users]; the order of a Python set is
    unspecified, [elements] fixes one. *)
Definition get_online_users (room_id : rkey) (self : ConnectionManager) : list string :=
  elements (default ∅ (room_users self !! room_id)).

(** Sequences of registry operations. *)
Inductive registry_op :=
| OpConnect (websocket : conn) (room_id : rkey) (user_id : string)
| OpDisconnect (room_id : rkey) (user_id : string).

Definition apply_op (op : registry_op) : ST ConnectionManager unit :=
  match op with
  | OpConnect ws r u => connect ws r u
  | OpDisconnect r u => disconnect r u
  end.

Definition run_ops (ops : list registry_op) : ST ConnectionManager unit :=
  for_each ops apply_op.

(** ** Decoded JSON values

    What [json.loads] hands to the endpoints.  Numbers are the integers;
    an object is the dictionary built from it. *)

#[warnings="-register-all"]
Inductive json :=
| JNull
| JBool (b : bool)
| JInt (z : Z)
| JStr (s : string)
| JArr (items : list json)
| JObj (fields : list (string * json)).

(** Python truth value. *)
Definition truthy (v : json) : bool :=
  match v with
  | JNull => false
  | JBool b => b
  | JInt z => negb (z =? 0)%Z
  | JStr s => negb (bool_decide (s = ""))
  | JArr items => negb (bool_decide (items = []))
  | JObj fields => negb (bool_decide (fields = []))
  end.

(** [v.get(k, dflt)]; only dictionaries have [get]. *)
Definition jget (k : string) (dflt : json) (v : json) : res json :=
  match v with
  | JObj fields => Ok (default dflt (dget k fields))
  | _ => Raise AttributeError
  end.

(** [v == "s"] *)
Definition jeq_str (v : json) (s : string) : bool :=
  match v with
  | JStr s' => bool_decide (s' = s)
  | _ => false
  end.

(** The dictionary key a JSON value is: lists and dictionaries are
    unhashable. *)
Definition as_key (v : json) : res rkey :=
  match v with
  | JNull => Ok KNone
  | JBool b => Ok (KInt (if b then 1 else 0))
  | JInt z => Ok (KInt z)
  | JStr s => Ok (KStr s)
  | JArr _ | JObj _ => Raise TypeError
  end.

Definition json_of_option (o : option string) : json :=
  match o with
  | Some s => JStr s
  | None => JNull
  end.

(** [str.isspace] on the code points below 256. *)
Definition py_isspace (a : ascii) : bool :=
  let n := nat_of_ascii a in
  bool_decide (9 ≤ n ≤ 13 ∨ 28 ≤ n ≤ 32 ∨ n = 133 ∨ n = 160)%nat.

Fixpoint lstrip_list (l : list ascii) : list ascii :=
  match l with
  | [] => []
  | a :: l' => if py_isspace a then lstrip_list l' else l
  end.

(** [s.strip()] *)
Definition strip (s : string) : string :=
  string_of_list_ascii
    (rev (lstrip_list (rev (lstrip_list (list_ascii_of_string s))))).

(** ** The database, as far as the endpoints use it *)

Definition UUID := N.
Bind Scope N_scope with UUID.

Module UserType.
Inductive t := HUMAN | BOT.
Definition value (x : t) : string :=
  match x with HUMAN => "HUMAN" | BOT => "BOT" end.
End UserType.

Module RoomRole.
Inductive t := OWNER | MOD | MEMBER | VIEWER | BOT.
#[global] Instance eq_dec : EqDecision t.
Proof. solve_decision. Defined.
End RoomRole.

Record ChatUser := {
  cu_id : UUID;
  username : string;
  is_active : bool;
  cu_type : UserType.t;
  bot_display_name : option string;
  bot_slug : option string;
}.

Record ChatRoom := {
  cr_id : UUID;
  cr_name : string;
}.

Record ChatRoomMember := {
  crm_room_id : UUID;
  crm_user_id : UUID;
  role : RoomRole.t;
}.

(** What [create_chat_message] is given as [reply_to_id]: a parsed UUID, or
    the value of the event left as it was ([ReplyRaw JNull] is [None]). *)
Inductive reply_ref :=
| ReplyUuid (u : UUID)
| ReplyRaw (v : json).

Record ChatMessage := {
  cm_id : UUID;
  cm_room_id : UUID;
  sender_id : UUID;
  sender_type : UserType.t;
  content : json;
  reply_to_id : reply_ref;
}.

(** The tables, each in insertion order; [next_uuid] stands for [uuid4]. *)
Record Db := {
  chat_users : list ChatUser;
  chat_rooms : list ChatRoom;
  chat_room_members : list ChatRoomMember;
  chat_messages : list ChatMessage;
  next_uuid : UUID;
}.

(** [Result.scalar_one_or_none] *)
Definition scalar_one_or_none {A} (rows : list A) : res (option A) :=
  match rows with
  | [] => Ok None
  | [x] => Ok (Some x)
  | _ :: _ :: _ => Raise MultipleResultsFound
  end.

Definition get_chat_user_by_id (session : Db) (user_id : UUID) : option ChatUser :=
  head (filter (λ u, cu_id u = user_id) (chat_users session)).

Definition get_chat_user_by_username (session : Db) (name : string)
    : res (option ChatUser) :=
  scalar_one_or_none (filter (λ u, username u = name) (chat_users session)).

Definition get_chat_user_by_slug (session : Db) (slug : string)
    : res (option ChatUser) :=
  scalar_one_or_none (filter (λ u, bot_slug u = Some slug) (chat_users session)).

Definition get_chat_room_by_id (session : Db) (room_id : UUID) : option ChatRoom :=
  head (filter (λ r, cr_id r = room_id) (chat_rooms session)).

Definition get_chat_room_member (session : Db) (room_id user_id : UUID)
    : res (option ChatRoomMember) :=
  scalar_one_or_none
    (filter (λ m, crm_room_id m = room_id ∧ crm_user_id m = user_id)
       (chat_room_members session)).

(** [create_chat_message]: the new row and the database holding it. *)
Definition create_chat_message (session : Db) (room_id sender : UUID)
    (text : json) (kind : UserType.t) (reply : reply_ref) : ChatMessage * Db :=
  let message :=
    {| cm_id := next_uuid session; cm_room_id := room_id; sender_id := sender;
       sender_type := kind; content := text; reply_to_id := reply |} in
  (message,
   {| chat_users := chat_users session;
      chat_rooms := chat_rooms session;
      chat_room_members := chat_room_members session;
      chat_messages := chat_messages session ++ [message];
      next_uuid := N.succ (next_uuid session) |}).

(** [get_chat_messages(session, room_id, limit=limit)]: the latest [limit]
    messages of the room, oldest first, the total and [has_more]. *)
Definition get_chat_messages (session : Db) (room_id : UUID) (limit : nat)
    : list ChatMessage * nat * bool :=
  let all := filter (λ m, cm_room_id m = room_id) (chat_messages session) in
  let newest_first := take (S limit) (rev all) in
  let has_more := bool_decide (limit < length newest_first) in
  (rev (take limit newest_first), length all, has_more).

(** ** Membership rows *)

(** [RoomRole(role)] on a string. *)
Definition RoomRole_of (role : string) : res RoomRole.t :=
  if bool_decide (role = "OWNER") then Ok RoomRole.OWNER
  else if bool_decide (role = "MOD") then Ok RoomRole.MOD
  else if bool_decide (role = "MEMBER") then Ok RoomRole.MEMBER
  else if bool_decide (role = "VIEWER") then Ok RoomRole.VIEWER
  else if bool_decide (role = "BOT") then Ok RoomRole.BOT
  else Raise ValueError.

Definition set_chat_room_members (f : list ChatRoomMember → list ChatRoomMember)
    (session : Db) : Db :=
  {| chat_users := chat_users session;
     chat_rooms := chat_rooms session;
     chat_room_members := f (chat_room_members session);
     chat_messages := chat_messages session;
     next_uuid := next_uuid session |}.

(** [add_chat_room_member]: an existing row is returned as it is, before
    the role is looked at. *)
Definition add_chat_room_member (room_id user_id : UUID) (role : string)
    : ST Db ChatRoomMember :=
  session ← get;
  existing ← lift (get_chat_room_member session room_id user_id);
  match existing with
  | Some existing => mret existing
  | None =>
      role ← lift (RoomRole_of role);
      let member :=
        {| crm_room_id := room_id; crm_user_id := user_id; role := role |} in
      modify (set_chat_room_members (λ rows, rows ++ [member]));;
      mret member
  end.

(** [remove_chat_room_member]: [True] when a row was deleted. *)
Definition remove_chat_room_member (room_id user_id : UUID) : ST Db bool :=
  session ← get;
  member ← lift (scalar_one_or_none
                   (filter (λ m, crm_room_id m = room_id ∧ crm_user_id m = user_id)
                      (chat_room_members session)));
  match member with
  | Some member =>
      modify (set_chat_room_members
                (filter (λ m, ¬ (crm_room_id m = room_id ∧ crm_user_id m = user_id))));;
      mret true
  | None => mret false
  end.

(** ** Library functions the module calls *)

Record Runtime := {
  (** [uuid.UUID(s)] on a string; [None] when it raises [ValueError] *)
  uuid_of_str : string → option UUID;
  (** [str(u)] *)
  uuid_str : UUID → string;
  (** [jwt.decode] with the server key; [None] when it raises *)
  jwt_decode : string → option json;
  (** a value formatted inside an f-string *)
  py_str : json → string;
  (** [str(e)[:200]] *)
  exn_str : exn → string;
}.

(** ** The world the endpoints act on *)

Inductive SendOutcome :=
| Sent
| SendRaises (e : exn).

(** How a WebSocket currently behaves: [client_state == CONNECTED], and what
    [send_json] does. *)
Record ConnStatus := {
  client_connected : bool;
  on_send : SendOutcome;
}.

Inductive Effect :=
| EAccept (websocket : conn)
| EClose (websocket : conn) (code : Z) (reason : string)
| ESend (websocket : conn) (message : json) (outcome : SendOutcome)
| EDbClose.

Record World := {
  manager : ConnectionManager;
  store : Db;
  net : conn → ConnStatus;
  trace : list Effect;
}.

Definition set_manager (f : ConnectionManager → ConnectionManager) (w : World) : World :=
  {| manager := f (manager w); store := store w; net := net w; trace := trace w |}.

Definition set_store (f : Db → Db) (w : World) : World :=
  {| manager := manager w; store := f (store w); net := net w; trace := trace w |}.

Definition set_net (websocket : conn) (st : ConnStatus) (w : World) : World :=
  {| manager := manager w; store := store w;
     net := λ c, if decide (c = websocket) then st else net w c;
     trace := trace w |}.

Definition emit (e : Effect) (w : World) : World :=
  {| manager := manager w; store := store w; net := net w;
     trace := trace w ++ [e] |}.

(** A registry method called on the singleton [ws_manager]. *)
Definition on_manager {A} (m : ST ConnectionManager A) : ST World A := λ w,
  let '(r, self) := m (manager w) in (r, set_manager (λ _, self) w).

Definition accept (websocket : conn) : ST World unit :=
  modify (emit (EAccept websocket)).

Definition close (websocket : conn) (code : Z) (reason : string) : ST World unit :=
  modify (emit (EClose websocket code reason)).

Definition send_json (websocket : conn) (message : json) : ST World unit := λ w,
  let o := on_send (net w websocket) in
  (match o with Sent => Ok tt | SendRaises e => Raise e end,
   emit (ESend websocket message o) w).

(** What the client and the network do between two steps of a session:
    the outcome of the next [receive_json], or a change of a connection. *)
Inductive RecvResult :=
| Recv (data : json)
| RecvRaises (e : exn).

Inductive Env :=
| EnvRecv (r : RecvResult)
| EnvNet (websocket : conn) (st : ConnStatus).

Inductive LoopStep := Continue | Break.

(** How a receive loop stands when the script is used up: left by [break],
    or still waiting in [receive_json]. *)
Inductive LoopEnd := Broke | Pending.

Inductive SessionEnd :=
| Rejected   (* closed before [accept] *)
| Open       (* still waiting for the next event *)
| Closed.    (* the handler returned *)

(** [try: body finally: fin] around a receive loop.  A pending loop has
    not left the [try]. *)
Definition try_finally (body : ST World LoopEnd) (fin : ST World unit)
    : ST World SessionEnd := λ w,
  match body w with
  | (Ok Pending, w') => (Ok Open, w')
  | (Ok Broke, w') =>
      match fin w' with
      | (Ok _, w'') => (Ok Closed, w'')
      | (Raise e, w'') => (Raise e, w'')
      end
  | (Raise e, w') =>
      match fin w' with
      | (Ok _, w'') => (Raise e, w'')
      | (Raise e', w'') => (Raise e', w'')
      end
  end.

(** ** [websocket.py] *)

Section Endpoints.
Variable rt : Runtime.

(** [UUID(v)]: a string is parsed, anything else has no [replace]. *)
Definition UUID_of (v : json) : res UUID :=
  match v with
  | JStr s =>
      match uuid_of_str rt s with
      | Some u => Ok u
      | None => Raise ValueError
      end
  | JNull => Raise TypeError
  | _ => Raise AttributeError
  end.

(** [decode_token]: every exception of [jwt.decode] becomes [None]. *)
Definition decode_token (token : string) : option json := jwt_decode rt token.

Definition active (user : option ChatUser) : option ChatUser :=
  match user with
  | Some u => if is_active u then Some u else None
  | None => None
  end.

(** The [try] block of [get_current_chat_user_from_token]. *)
Definition token_lookup (token : string) (db : Db) : res (option ChatUser) :=
  match decode_token token with
  | None => Ok None
  | Some payload =>
      user_id ← jget "sub" JNull payload;
      if negb (truthy user_id) then Ok None
      else
        (* try: UUID(user_id) ... except ValueError: pass *)
        by_id ← match UUID_of user_id with
                | Ok user_uuid => Ok (active (get_chat_user_by_id db user_uuid))
                | Raise ValueError => Ok None
                | Raise e => Raise e
                end;
        match by_id, user_id with
        | Some user, _ => Ok (Some user)
        | None, JStr name =>
            user ← get_chat_user_by_username db name;
            match active user with
            | Some user => Ok (Some user)
            | None =>
                user ← get_chat_user_by_slug db name;
                Ok (active user)
            end
        | None, _ => Raise AttributeError
        end
  end.

(** [get_current_chat_user_from_token]: [except Exception: return None]. *)
Definition get_current_chat_user_from_token (token : string) (db : Db)
    : option ChatUser :=
  match token_lookup token db with
  | Ok user => user
  | Raise _ => None
  end.

(** *** [ConnectionManager.broadcast] *)

Definition excluded (exclude_user : option string) (user_id : string) : bool :=
  match exclude_user with
  | Some x => negb (bool_decide (x = "")) && bool_decide (user_id = x)
  | None => false
  end.

(** One turn of the [for] loop over the snapshot: the guarded send. *)
Definition guarded_send (websocket : conn) (message : json) : ST World unit :=
  w ← get;
  if client_connected (net w websocket) then send_json websocket message
  else mret tt.

Fixpoint broadcast_sweep (items : list (string * conn)) (message : json)
    (exclude_user : option string) (disconnected : list string)
    : ST World (list string) :=
  match items with
  | [] => mret disconnected
  | (user_id, websocket) :: items' =>
      if excluded exclude_user user_id then
        broadcast_sweep items' message exclude_user disconnected
      else
        r ← try_ (guarded_send websocket message);
        match r with
        | Ok _ => broadcast_sweep items' message exclude_user disconnected
        | Raise _ =>
            broadcast_sweep items' message exclude_user (disconnected ++ [user_id])
        end
  end.

Definition broadcast (room_id : rkey) (message : json) (exclude_user : option string)
    : ST World unit :=
  self ← gets manager;
  match connections self !! room_id with
  | None => mret tt
  | Some d =>
      (* list(self.connections[room_id].items()) is the snapshot [d] *)
      disconnected ← broadcast_sweep d message exclude_user [];
      for_each disconnected (λ user_id, on_manager (disconnect room_id user_id))
  end.

Definition join_room (websocket : conn) (room_id : rkey) (user_id : string)
    : ST World unit :=
  on_manager (connect websocket room_id user_id).

Definition leave_room (websocket : conn) (room_id : rkey) (user_id : string)
    : ST World unit :=
  on_manager (disconnect room_id user_id).

(** [ConnectionManager.send_message] *)
Definition send_message (room_id : json) (user_id : string) (text : json)
    (kind : UserType.t) : ST World ChatMessage :=
  room_uuid ← lift (UUID_of room_id);
  sender ← lift (UUID_of (JStr user_id));
  db ← gets store;
  let '(message, db') := create_chat_message db room_uuid sender text kind (ReplyRaw JNull) in
  modify (set_store (λ _, db'));;
  let msg_dict :=
    JObj [("type", JStr "message");
          ("message", JObj [("id", JStr (uuid_str rt (cm_id message)));
                            ("room_id", room_id);
                            ("sender_id", JStr user_id);
                            ("content", text)])] in
  key ← lift (as_key room_id);
  broadcast key msg_dict None;;
  mret message.

(** [ConnectionManager.send_typing] *)
Definition send_typing (room_id : json) (user_id name : string) (is_typing : json)
    : ST World unit :=
  key ← lift (as_key room_id);
  broadcast key
    (JObj [("type", JStr "typing");
           ("payload", JObj [("room_id", room_id);
                             ("user_id", JStr user_id);
                             ("username", JStr name);
                             ("is_typing", is_typing)])])
    None.

(** *** The generic endpoint [/ws] *)

Definition user_key (user : ChatUser) : string := uuid_str rt (cu_id user).

(** One turn of the [while True] of [websocket_main], after
    [receive_json] returned [data]. *)
Definition main_handle (websocket : conn) (user : ChatUser) (data : json)
    : ST World unit :=
  msg_type ← lift (jget "type" JNull data);
  if jeq_str msg_type "join_room" then
    payload ← lift (jget "payload" (JObj []) data);
    room_id ← lift (jget "room_id" JNull payload);
    if truthy room_id then
      key ← lift (as_key room_id);
      join_room websocket key (user_key user)
    else mret tt
  else if jeq_str msg_type "leave_room" then
    payload ← lift (jget "payload" (JObj []) data);
    room_id ← lift (jget "room_id" JNull payload);
    if truthy room_id then
      key ← lift (as_key room_id);
      leave_room websocket key (user_key user)
    else mret tt
  else if jeq_str msg_type "message" then
    payload ← lift (jget "payload" (JObj []) data);
    room_id ← lift (jget "room_id" JNull payload);
    text ← lift (jget "content" JNull payload);
    if truthy room_id && truthy text then
      _ ← send_message room_id (user_key user) text UserType.HUMAN;
      mret tt
    else mret tt
  else if jeq_str msg_type "typing" then
    payload ← lift (jget "payload" (JObj []) data);
    room_id ← lift (jget "room_id" JNull payload);
    is_typing ← lift (jget "is_typing" (JBool false) payload);
    if truthy room_id then
      (* user.username or user.bot_name or "Unknown": ChatUser has no
         attribute bot_name *)
      name ← (if bool_decide (username user = "") then raise AttributeError
              else mret (username user));
      send_typing room_id (user_key user) name is_typing
    else mret tt
  else if jeq_str msg_type "ping" then
    send_json websocket (JObj [("type", JStr "pong")])
  else mret tt.

(** The [while True] loop of [websocket_main]; no exception is handled
    inside it. *)
Fixpoint main_loop (websocket : conn) (user : ChatUser) (script : list Env)
    : ST World LoopEnd :=
  match script with
  | [] => mret Pending
  | EnvNet c st :: script' =>
      modify (set_net c st);; main_loop websocket user script'
  | EnvRecv (RecvRaises e) :: _ => raise e
  | EnvRecv (Recv data) :: script' =>
      main_handle websocket user data;; main_loop websocket user script'
  end.

(** [try: ... except WebSocketDisconnect: pass] *)
Definition main_body (websocket : conn) (user : ChatUser) (script : list Env)
    : ST World LoopEnd :=
  r ← try_ (main_loop websocket user script);
  match r with
  | Ok e => mret e
  | Raise WebSocketDisconnect => mret Broke
  | Raise e => raise e
  end.

(** The [finally] block of [websocket_main]. *)
Definition main_finally (websocket : conn) (user : ChatUser) : ST World unit :=
  self ← gets manager;
  for_each (elements (default ∅ (user_rooms self !! user_key user)))
    (λ room_id, leave_room websocket room_id (user_key user)).

Definition main_session (websocket : conn) (user : ChatUser) (script : list Env)
    : ST World SessionEnd :=
  try_finally (main_body websocket user script) (main_finally websocket user).

Definition websocket_main (websocket : conn) (token : string) (script : list Env)
    : ST World SessionEnd :=
  db ← gets store;
  match get_current_chat_user_from_token token db with
  | None =>
      close websocket 4001 "Invalid or expired token";;
      mret Rejected
  | Some user =>
      accept websocket;;
      main_session websocket user script
  end.

(** *** The per-room endpoint [/ws/rooms/{room_id}] *)

(** [chat_message_to_dict] *)
Definition chat_message_to_dict (message : ChatMessage) (db : Db) : json :=
  let sender := get_chat_user_by_id db (sender_id message) in
  JObj [("id", JStr (uuid_str rt (cm_id message)));
        ("room_id", JStr (uuid_str rt (cm_room_id message)));
        ("sender_id", JStr (uuid_str rt (sender_id message)));
        ("sender_type", JStr (UserType.value (sender_type message)));
        ("sender_username",
          JStr (match sender with Some s => username s | None => "unknown" end));
        ("sender_display_name",
          match sender with
          | Some s => json_of_option (bot_display_name s)
          | None => JNull
          end);
        ("content", content message);
        ("meta", JNull);
        ("reply_to_id",
          match reply_to_id message with
          | ReplyUuid u => JStr (uuid_str rt u)
          | ReplyRaw _ => JNull
          end)].

Definition user_dict (u : ChatUser) : json :=
  JObj [("user_id", JStr (uuid_str rt (cu_id u)));
        ("username", JStr (username u));
        ("type", JStr (UserType.value (cu_type u)));
        ("display_name", json_of_option (bot_display_name u))].

(** The loop building [online_users] from [get_online_users(room_id)]. *)
Fixpoint online_users_of (uids : list string) (db : Db) (acc : list json)
    : res (list json) :=
  match uids with
  | [] => Ok acc
  | uid :: uids' =>
      user_uuid ← UUID_of (JStr uid);
      match get_chat_user_by_id db user_uuid with
      | Some u => online_users_of uids' db (acc ++ [user_dict u])
      | None => online_users_of uids' db acc
      end
  end.

Definition online_users (room_id : string) : ST World (list json) :=
  w ← get;
  lift (online_users_of (get_online_users (KStr room_id) (manager w)) (store w) []).

Definition presence (action : string) (user : ChatUser) (users : list json) : json :=
  JObj [("type", JStr "presence");
        ("action", JStr action);
        ("user", user_dict user);
        ("online_users", JArr users)].

Definition error_event (text : string) : json :=
  JObj [("type", JStr "error"); ("message", JStr text)].

(** [can_send = membership.role not in [RoomRole.VIEWER]] *)
Definition can_send_of (membership : ChatRoomMember) : bool :=
  negb (bool_decide (role membership = RoomRole.VIEWER)).

(** What a joined session of [websocket_chat] carries along. *)
Record Joined := {
  j_websocket : conn;
  j_room_id : string;
  j_room_uuid : UUID;
  j_room : ChatRoom;
  j_user : ChatUser;
  j_can_send : bool;
}.

(** The statements of the outer [try] before the loop. *)
Definition chat_greet (s : Joined) : ST World unit :=
  db ← gets store;
  let '(messages, total, _) := get_chat_messages db (j_room_uuid s) 50 in
  users ← online_users (j_room_id s);
  send_json (j_websocket s)
    (JObj [("type", JStr "connected");
           ("room_id", JStr (j_room_id s));
           ("room_name", JStr (cr_name (j_room s)));
           ("messages", JArr (map (λ m, chat_message_to_dict m db) messages));
           ("total_messages", JInt (Z.of_nat total));
           ("online_users", JArr users);
           ("can_send", JBool (j_can_send s))]);;
  broadcast (KStr (j_room_id s)) (presence "joined" (j_user s) users) None.

(** The [ack] event and the [message] event of an accepted message. *)
Definition ack_event (client_msg_id : json) (message : ChatMessage) : json :=
  JObj [("type", JStr "ack");
        ("client_msg_id", client_msg_id);
        ("message_id", JStr (uuid_str rt (cm_id message)))].

Definition message_copy (message : ChatMessage) (db : Db) : json :=
  JObj [("type", JStr "message");
        ("message", chat_message_to_dict message db)].

(** [if reply_to_id: try: reply_to_id = UUID(reply_to_id)
    except ValueError: reply_to_id = None] *)
Definition resolve_reply (reply : json) : res reply_ref :=
  if truthy reply then
    match UUID_of reply with
    | Ok u => Ok (ReplyUuid u)
    | Raise ValueError => Ok (ReplyRaw JNull)
    | Raise e => Raise e
    end
  else Ok (ReplyRaw reply).

(** The [message] branch after the two guards. *)
Definition chat_accept_message (s : Joined) (data : json) (text : string)
    : ST World unit :=
  client_msg_id ← lift (jget "client_msg_id" JNull data);
  reply ← lift (jget "reply_to_id" JNull data);
  reply ← lift (resolve_reply reply);
  db ← gets store;
  let '(message, db') :=
    create_chat_message db (j_room_uuid s) (cu_id (j_user s)) (JStr text)
      (cu_type (j_user s)) reply in
  modify (set_store (λ _, db'));;
  send_json (j_websocket s) (ack_event client_msg_id message);;
  db ← gets store;
  broadcast (KStr (j_room_id s)) (message_copy message db) None.

(** The inner [try] body after [receive_json] returned [data]. *)
Definition chat_handle (s : Joined) (data : json) : ST World unit :=
  msg_type ← lift (jget "type" (JStr "") data);
  if jeq_str msg_type "ping" then
    send_json (j_websocket s) (JObj [("type", JStr "pong")])
  else if jeq_str msg_type "message" then
    if negb (j_can_send s) then
      send_json (j_websocket s) (error_event "VIEWERs cannot send messages")
    else
      raw ← lift (jget "content" (JStr "") data);
      text ← lift (match raw with
                   | JStr c => Ok (strip c)
                   | _ => Raise AttributeError
                   end);
      if bool_decide (text = "") then
        send_json (j_websocket s) (error_event "Message content cannot be empty")
      else chat_accept_message s data text
  else
    send_json (j_websocket s)
      (error_event ("Unknown message type: " +:+ py_str rt msg_type)).

(** The three [except] clauses of the inner [try], for the exception [e]. *)
Definition chat_except (s : Joined) (e : exn) : ST World LoopStep :=
  match e with
  | WebSocketDisconnect => mret Break
  | JSONDecodeError =>
      send_json (j_websocket s) (error_event "Invalid JSON");;
      mret Continue
  | _ =>
      again ← try_ (send_json (j_websocket s) (error_event (exn_str rt e)));
      match again with
      | Ok _ => mret Continue
      | Raise _ => mret Break
      end
  end.

(** One turn of the [while True] of [websocket_chat]. *)
Definition chat_turn (s : Joined) (r : RecvResult) : ST World LoopStep :=
  out ← try_ (match r with
              | Recv data => chat_handle s data
              | RecvRaises e => raise e
              end);
  match out with
  | Ok _ => mret Continue
  | Raise e => chat_except s e
  end.

Fixpoint chat_loop (s : Joined) (script : list Env) : ST World LoopEnd :=
  match script with
  | [] => mret Pending
  | EnvNet c st :: script' => modify (set_net c st);; chat_loop s script'
  | EnvRecv r :: script' =>
      step ← chat_turn s r;
      match step with
      | Break => mret Broke
      | Continue => chat_loop s script'
      end
  end.

(** The [finally] block of [websocket_chat]. *)
Definition chat_finally (s : Joined) : ST World unit :=
  on_manager (disconnect (KStr (j_room_id s)) (user_key (j_user s)));;
  users ← online_users (j_room_id s);
  broadcast (KStr (j_room_id s)) (presence "left" (j_user s) users) None;;
  modify (emit EDbClose).

(** The outer [try] block. *)
Definition chat_body (s : Joined) (script : list Env) : ST World LoopEnd :=
  chat_greet s;; chat_loop s script.

(** A session from the registration on: the [try]/[finally]. *)
Definition chat_session (s : Joined) (script : list Env) : ST World SessionEnd :=
  try_finally (chat_body s script) (chat_finally s).

Definition websocket_chat (websocket : conn) (room_id token : string)
    (script : list Env) : ST World SessionEnd :=
  match uuid_of_str rt room_id with
  | None =>
      close websocket 4000 "Invalid room ID format";;
      mret Rejected
  | Some room_uuid =>
      db ← gets store;
      match get_chat_room_by_id db room_uuid with
      | None =>
          close websocket 4004 "Room not found";;
          mret Rejected
      | Some room =>
          match get_current_chat_user_from_token token db with
          | None =>
              close websocket 4001 "Invalid or expired token";;
              mret Rejected
          | Some user =>
              membership ← lift (get_chat_room_member db room_uuid (cu_id user));
              match membership with
              | None =>
                  close websocket 4003 "Not a member of this room";;
                  mret Rejected
              | Some membership =>
                  let s := {| j_websocket := websocket; j_room_id := room_id;
                              j_room_uuid := room_uuid; j_room := room;
                              j_user := user;
                              j_can_send := can_send_of membership |} in
                  accept websocket;;
                  on_manager (connect websocket (KStr room_id) (user_key user));;
                  chat_session s script
              end
          end
      end
  end.
End Endpoints.

(** ** Views of the registry and its invariant *)

(** The connection registered for a pair, [connections[room_id].get(user_id)]. *)
Definition conn_of (self : ConnectionManager) (room_id : rkey) (user_id : string)
    : option conn :=
  connections self !! room_id ≫= dget user_id.

(** The entries of [connections[room_id]] under the key [user_id]. *)
Definition entries (self : ConnectionManager) (room_id : rkey) (user_id : string)
    : list conn :=
  (filter (λ kv, kv.1 = user_id) (default [] (connections self !! room_id))).*2.

Definition in_room_users (self : ConnectionManager) (room_id : rkey) (user_id : string)
    : Prop :=
  ∃ us, room_users self !! room_id = Some us ∧ user_id ∈ us.

Definition in_user_rooms (self : ConnectionManager) (user_id : string) (room_id : rkey)
    : Prop :=
  ∃ rs, user_rooms self !! user_id = Some rs ∧ room_id ∈ rs.

Definition key_of_room (self : ConnectionManager) (room_id : rkey) (user_id : string)
    : Prop :=
  ∃ d, connections self !! room_id = Some d ∧ user_id ∈ d.*1.

(** The three views agree, and a registered pair has exactly one entry. *)
Definition consistent (self : ConnectionManager) : Prop :=
  ∀ room_id user_id,
    (in_user_rooms self user_id room_id ↔ key_of_room self room_id user_id) ∧
    (key_of_room self room_id user_id ↔ in_room_users self room_id user_id) ∧
    (in_user_rooms self user_id room_id →
       ∃ websocket, entries self room_id user_id = [websocket]).

(** No dictionary of the registry holds an empty container. *)
Definition no_empty (self : ConnectionManager) : Prop :=
  (∀ room_id d, connections self !! room_id = Some d → d ≠ []) ∧
  (∀ room_id us, room_users self !! room_id = Some us → us ≠ ∅) ∧
  (∀ user_id rs, user_rooms self !! user_id = Some rs → rs ≠ ∅).

(** The invariant the operations maintain. *)
Record wf (self : ConnectionManager) : Prop := {
  wf_dict : ∀ r d, connections self !! r = Some d → NoDup d.*1 ∧ d ≠ [];
  wf_users : ∀ r,
    room_users self !! r = (λ d, list_to_set d.*1) <$> connections self !! r;
  wf_rooms : ∀ u r,
    r ∈ default ∅ (user_rooms self !! u) ↔ is_Some (conn_of self r u);
  wf_rooms_ne : ∀ u, user_rooms self !! u ≠ Some ∅;
}.

(** What [connect] and [disconnect] leave behind on a registry that
    satisfies the invariant. *)
Definition connected (websocket : conn) (room_id : rkey) (user_id : string)
    (self : ConnectionManager) : ConnectionManager :=
  {| connections :=
       <[room_id := dset user_id websocket (default [] (connections self !! room_id))]>
         (connections self);
     room_users :=
       <[room_id := default ∅ (room_users self !! room_id) ∪ {[user_id]}]>
         (room_users self);
     user_rooms :=
       <[user_id := default ∅ (user_rooms self !! user_id) ∪ {[room_id]}]>
         (user_rooms self) |}.

Definition drop_entry (room_id : rkey) (user_id : string)
    (self : ConnectionManager) : ConnectionManager :=
  match connections self !! room_id with
  | Some d =>
      if dmem user_id d then
        match ddel user_id d with
        | [] =>
            {| connections := delete room_id (connections self);
               room_users := delete room_id (room_users self);
               user_rooms := user_rooms self |}
        | d' =>
            {| connections := <[room_id := d']> (connections self);
               room_users :=
                 <[room_id := default ∅ (room_users self !! room_id) ∖ {[user_id]}]>
                   (room_users self);
               user_rooms := user_rooms self |}
        end
      else self
  | None => self
  end.

Definition drop_index (room_id : rkey) (user_id : string)
    (self : ConnectionManager) : ConnectionManager :=
  match user_rooms self !! user_id with
  | Some rs =>
      if decide (rs ∖ {[room_id]} = ∅)
      then set_user_rooms (delete user_id) self
      else set_user_rooms (insert user_id (rs ∖ {[room_id]})) self
  | None => self
  end.

Definition disconnected (room_id : rkey) (user_id : string)
    (self : ConnectionManager) : ConnectionManager :=
  drop_index room_id user_id (drop_entry room_id user_id self).

(** ** The effect of a broadcast *)

(** What one sweep of [broadcast] sends, and whom it marks as failed. *)
Definition sweep_sends (items : list (string * conn)) (message : json)
    (exclude_user : option string) (net : conn → ConnStatus) : list Effect :=
  '(user_id, websocket) ← items;
  if excluded exclude_user user_id then []
  else if client_connected (net websocket)
       then [ESend websocket message (on_send (net websocket))]
       else [].

Definition send_fails (net : conn → ConnStatus) (websocket : conn) : bool :=
  client_connected (net websocket) &&
  match on_send (net websocket) with Sent => false | SendRaises _ => true end.

Definition sweep_failed (items : list (string * conn))
    (exclude_user : option string) (net : conn → ConnStatus) : list string :=
  '(user_id, websocket) ← items;
  if negb (excluded exclude_user user_id) && send_fails net websocket
  then [user_id] else [].

Definition evict (room_id : rkey) (users : list string) (self : ConnectionManager)
    : ConnectionManager :=
  foldl (λ self user_id, disconnected room_id user_id self) self users.

Definition emits (es : list Effect) (w : World) : World :=
  {| manager := manager w; store := store w; net := net w; trace := trace w ++ es |}.

(** ** Vocabulary of the claims *)

(** What happened on the wire between the worlds [w] and [w']. *)
Definition since (w w' : World) : list Effect :=
  drop (length (trace w)) (trace w').

Definition whitespace_only (c : string) : Prop :=
  Forall (λ a, py_isspace a = true) (list_ascii_of_string c).

(** [data] is a JSON object whose ["type"] is ["message"]. *)
Definition message_event (data : json) : Prop :=
  ∃ t, jget "type" (JStr "") data = Ok t ∧ jeq_str t "message" = true.

(** What a client reads off an error event that carries [text]. *)
Definition error_fields (ev : json) (text : string) : Prop :=
  jget "type" JNull ev = Ok (JStr "error") ∧
  jget "message" JNull ev = Ok (JStr text).

(** What a client reads off a presence event: the action, the user it is
    about, and the online list. *)
Definition presence_fields (rt : Runtime) (ev : json) (action : string)
    (user : ChatUser) (users : list json) : Prop :=
  jget "type" JNull ev = Ok (JStr "presence") ∧
  jget "action" JNull ev = Ok (JStr action) ∧
  jget "online_users" JNull ev = Ok (JArr users) ∧
  ∃ u, jget "user" JNull ev = Ok u ∧
       jget "user_id" JNull u = Ok (JStr (uuid_str rt (cu_id user))) ∧
       jget "username" JNull u = Ok (JStr (username user)).

(** What the sender reads off the ack of the stored [message]: the
    correlation id of the [event] it answers, and the id of the message. *)
Definition ack_fields (rt : Runtime) (ack event : json) (message : ChatMessage)
    : Prop :=
  jget "type" JNull ack = Ok (JStr "ack") ∧
  jget "client_msg_id" JNull ack = jget "client_msg_id" JNull event ∧
  jget "message_id" JNull ack = Ok (JStr (uuid_str rt (cm_id message))).

(** What a client reads off the broadcast copy of the stored [message]:
    its id, room, sender and content. *)
Definition copy_fields (rt : Runtime) (copy : json) (message : ChatMessage) : Prop :=
  jget "type" JNull copy = Ok (JStr "message") ∧
  ∃ m, jget "message" JNull copy = Ok m ∧
       jget "id" JNull m = Ok (JStr (uuid_str rt (cm_id message))) ∧
       jget "room_id" JNull m = Ok (JStr (uuid_str rt (cm_room_id message))) ∧
       jget "sender_id" JNull m = Ok (JStr (uuid_str rt (sender_id message))) ∧
       jget "content" JNull m = Ok (content message).

(** An error event sent to the client of the session. *)
Definition error_reply (websocket : conn) (e : Effect) : Prop :=
  ∃ text o, e = ESend websocket (error_event text) o.

(** A record one of the three lookups of the validator finds for the
    subject [sub]. *)
Definition resolves_to (rt : Runtime) (sub : string) (db : Db) (u : ChatUser) : Prop :=
  u ∈ chat_users db ∧
  (uuid_of_str rt sub = Some (cu_id u) ∨ username u = sub ∨ bot_slug u = Some sub).

(** The uniqueness the schema declares for the users table: no two rows
    share the primary key, the [username] or the [bot_slug]. *)
Definition unique_users (db : Db) : Prop :=
  (∀ user_id, (length (filter (λ u, cu_id u = user_id) (chat_users db)) ≤ 1)%nat) ∧
  (∀ name, (length (filter (λ u, username u = name) (chat_users db)) ≤ 1)%nat) ∧
  (∀ slug, (length (filter (λ u, bot_slug u = Some slug) (chat_users db)) ≤ 1)%nat).

(** The registry only lost entries. *)
Definition shrinks (self self' : ConnectionManager) : Prop :=
  ∀ r u ws, conn_of self' r u = Some ws → conn_of self r u = Some ws.

Definition anyhow : relation ConnectionManager := λ _ _, True.

(** A computation keeps the registry invariant and moves the registry
    along [R]. *)
Definition keeps (R : relation ConnectionManager) {A} (c : ST World A) : Prop :=
  ∀ w r w', wf (manager w) → c w = (r, w') →
            wf (manager w') ∧ R (manager w) (manager w').

(** Every registered user id parses as a UUID (they are all [str(user.id)]). *)
Definition users_parse (rt : Runtime) (self : ConnectionManager) : Prop :=
  ∀ r u, is_Some (conn_of self r u) → is_Some (uuid_of_str rt u).

(** The [online_users] list the endpoints build from the ids [uids]. *)
Definition online_list (rt : Runtime) (db : Db) (uids : list string) : list json :=
  omap (λ uid, user_uuid ← uuid_of_str rt uid;
               user_dict rt <$> get_chat_user_by_id db user_uuid) uids.

(** The registry after [user_id] left each of [rooms]. *)
Definition leave_all (rooms : list rkey) (user_id : string)
    (self : ConnectionManager) : ConnectionManager :=
  foldl (λ self room_id, disconnected room_id user_id self) self rooms.

(** How a [try]/[finally] session ends when its body ended as [rb]. *)
Definition ended (rb : res LoopEnd) : res SessionEnd :=
  match rb with
  | Ok _ => Ok Closed
  | Raise e => Raise e
  end.

(** The broadcast of [message] to the snapshot [d] of [room_id] reached
    every entry but [bad], swept the whole snapshot with the registry
    untouched, and only then evicted [bad]. *)
Definition isolates_failure (w : World) (room_id : rkey) (message : json)
    (d : list (string * conn)) (bad : string) : Prop :=
  ∃ w1 w',
    broadcast_sweep d message None [] w = (Ok [bad], w1) ∧
    manager w1 = manager w ∧
    trace w1 = trace w ++ map (λ '(u, ws), ESend ws message (on_send (net w ws))) d ∧
    (∀ u ws, (u, ws) ∈ d → u ≠ bad → ESend ws message Sent ∈ since w w1) ∧
    broadcast room_id message None w = (Ok tt, w') ∧
    trace w' = trace w1 ∧
    store w' = store w ∧
    manager w' = disconnected room_id bad (manager w) ∧
    (∀ r u, conn_of (manager w') r u
            = if decide (r = room_id ∧ u = bad) then None else conn_of (manager w) r u) ∧
    consistent (manager w').

(** Registering [ws1] and then [ws2] for the pair leaves the one entry
    [ws2], and the next broadcast to the room never sends to [ws1]. *)
Definition replaced_by (self : ConnectionManager) (room_id : rkey) (user_id : string)
    (ws1 ws2 : conn) : Prop :=
  ∃ self2,
    (connect ws1 room_id user_id;; connect ws2 room_id user_id) self = (Ok tt, self2) ∧
    entries self2 room_id user_id = [ws2] ∧
    conn_of self2 room_id user_id = Some ws2 ∧
    consistent self2 ∧
    ∀ (w : World) (message : json) (exclude_user : option string),
      manager w = self2 →
      ∃ w',
        broadcast room_id message exclude_user w = (Ok tt, w') ∧
        (∀ m o, ESend ws1 m o ∉ since w w') ∧
        (client_connected (net w ws2) = true →
         excluded exclude_user user_id = false →
         ESend ws2 message (on_send (net w ws2)) ∈ since w w').

(** The turn for [data] only answered the client with the error [text]:
    registry and store are as before, nothing went to anyone else, and
    the event sent has the type [error] and [text] as its message. *)
Definition answered_error_only (rt : Runtime) (s : Joined) (data : json)
    (text : string) (w : World) : Prop :=
  ∃ r w' rest,
    chat_turn rt s (Recv data) w = (r, w') ∧
    manager w' = manager w ∧
    store w' = store w ∧
    trace w' = trace w ++
      ESend (j_websocket s) (error_event text) (on_send (net w (j_websocket s)))
      :: rest ∧
    error_fields (error_event text) text ∧
    Forall (error_reply (j_websocket s)) rest ∧
    (on_send (net w (j_websocket s)) = Sent → r = Ok Continue ∧ rest = []).

(** The turn for the message event [fields] stored the message; the ack
    echoes the [client_msg_id] of the event and carries the id of the
    stored message, and the broadcast copy is of that same message;
    whenever the copy is sent to the sender, the ack was delivered first;
    and a registered, healthy sender does get the copy. *)
Definition ack_first (rt : Runtime) (s : Joined) (fields : list (string * json))
    (text : string) (ref : reply_ref) (w : World) : Prop :=
  let ws := j_websocket s in
  let stored :=
    create_chat_message (store w) (j_room_uuid s) (cu_id (j_user s)) (JStr text)
      (cu_type (j_user s)) ref in
  let ack := ack_event rt (default JNull (dget "client_msg_id" fields)) stored.1 in
  let copy := message_copy rt stored.1 stored.2 in
  ∃ r w',
    chat_turn rt s (Recv (JObj fields)) w = (r, w') ∧
    store w' = stored.2 ∧
    chat_messages (store w') = chat_messages (store w) ++ [stored.1] ∧
    content stored.1 = JStr text ∧
    ack_fields rt ack (JObj fields) stored.1 ∧
    copy_fields rt copy stored.1 ∧
    (∀ i o, since w w' !! i = Some (ESend ws copy o) →
            since w w' !! 0 = Some (ESend ws ack Sent) ∧ 0 < i) ∧
    (on_send (net w ws) = Sent →
     client_connected (net w ws) = true →
     conn_of (manager w) (KStr (j_room_id s)) (user_key rt (j_user s)) = Some ws →
     r = Ok Continue ∧
     ∃ i, 0 < i ∧ since w w' !! i = Some (ESend ws copy Sent)).

(** The per-room session that ended as [r] in [w'] left its [try] block
    and ran its [finally]: the pair is unregistered, no other room of the
    user is touched, and the presence event, with the action [left], the
    user and the refreshed list, went to every connection still
    registered in the room whose socket is in the connected state. *)
Definition chat_torn_down (rt : Runtime) (s : Joined) (script : list Env)
    (w : World) (r : res SessionEnd) (w' : World) : Prop :=
  ∃ rb w1,
    chat_body rt s script w = (rb, w1) ∧
    rb ≠ Ok Pending ∧
    r = ended rb ∧
    let room := KStr (j_room_id s) in
    let ukey := user_key rt (j_user s) in
    let self1 := disconnected room ukey (manager w1) in
    let users := online_list rt (store w1) (get_online_users room self1) in
    let event := presence rt "left" (j_user s) users in
    conn_of (manager w') room ukey = None ∧
    (¬ in_user_rooms (manager w') ukey room) ∧
    (∀ r', r' ≠ room → conn_of (manager w') r' ukey = conn_of (manager w1) r' ukey) ∧
    (ukey ∉ get_online_users room self1) ∧
    presence_fields rt event "left" (j_user s) users ∧
    since w1 w'
    = sweep_sends (default [] (connections self1 !! room)) event None (net w1)
      ++ [EDbClose] ∧
    (∀ v ws, conn_of self1 room v = Some ws →
             client_connected (net w1 ws) = true →
             ESend ws event (on_send (net w1 ws)) ∈ since w1 w') ∧
    consistent (manager w').

(** The generic session that ended as [r] in [w'] left its [try] block
    and ran its [finally]: the user is registered in no room any more,
    nobody else's entry changed, and nothing was sent. *)
Definition main_torn_down (rt : Runtime) (websocket : conn) (user : ChatUser)
    (script : list Env) (w : World) (r : res SessionEnd) (w' : World) : Prop :=
  ∃ rb w1,
    main_body rt websocket user script w = (rb, w1) ∧
    rb ≠ Ok Pending ∧
    r = ended rb ∧
    let ukey := user_key rt user in
    (∀ r', conn_of (manager w') r' ukey = None) ∧
    user_rooms (manager w') !! ukey = None ∧
    (∀ r' v, v ≠ ukey → conn_of (manager w') r' v = conn_of (manager w1) r' v) ∧
    trace w' = trace w1 ∧
    store w' = store w1 ∧
    consistent (manager w').

(** ** Vocabulary of the further properties *)

(** The registry operation [op] on the pair (room, user) does not raise,
    leaves the pair registered as [now], and leaves every other pair and
    the online list of every other room as they were. *)
Definition touches_only (op : ST ConnectionManager unit) (room_id : rkey)
    (user_id : string) (now : option conn) (self : ConnectionManager) : Prop :=
  ∃ self',
    op self = (Ok tt, self') ∧
    conn_of self' room_id user_id = now ∧
    (∀ r u, (r, u) ≠ (room_id, user_id) → conn_of self' r u = conn_of self r u) ∧
    (∀ r, r ≠ room_id → get_online_users r self' = get_online_users r self).

(** The broadcast of [message] to [room_id] does not raise; what it sends
    are the sends to the connected entries of the room that are not
    excluded, and it unregisters exactly those of them whose send raised. *)
Definition evicts_exactly_failed (w : World) (room_id : rkey) (message : json)
    (exclude_user : option string) : Prop :=
  ∃ w',
    broadcast room_id message exclude_user w = (Ok tt, w') ∧
    store w' = store w ∧
    net w' = net w ∧
    wf (manager w') ∧
    (∀ e, e ∈ since w w' ↔
          ∃ u ws, conn_of (manager w) room_id u = Some ws ∧
                  excluded exclude_user u = false ∧
                  client_connected (net w ws) = true ∧
                  e = ESend ws message (on_send (net w ws))) ∧
    (∀ r u ws,
       conn_of (manager w') r u = Some ws ↔
       conn_of (manager w) r u = Some ws ∧
       ¬ (r = room_id ∧ excluded exclude_user u = false ∧
          send_fails (net w) ws = true)).

(** The broadcast passes over the entry of [user_id]: it stays registered
    and its connection is sent nothing. *)
Definition passes_over (w : World) (room_id : rkey) (message : json)
    (exclude_user : option string) (user_id : string) (websocket : conn) : Prop :=
  ∃ w',
    broadcast room_id message exclude_user w = (Ok tt, w') ∧
    conn_of (manager w') room_id user_id = Some websocket ∧
    ∀ m o, ESend websocket m o ∉ since w w'.

(** The registry satisfies its invariant and the socket [websocket] takes
    what is sent to it. *)
Definition healthy_for (websocket : conn) (w : World) : Prop :=
  wf (manager w) ∧ on_send (net w websocket) = Sent.

(** From a world where [websocket] is healthy, [c] ends in such a world,
    and raises nothing but exceptions in [Q]. *)
Definition raises_only (websocket : conn) (Q : exn → Prop) {A} (c : ST World A)
    : Prop :=
  ∀ w r w', healthy_for websocket w → c w = (r, w') →
            healthy_for websocket w' ∧ ∀ e, r = Raise e → Q e.

(** The exceptions the handler of a per-room event raises by itself. *)
Definition handler_exn (e : exn) : Prop := e = AttributeError.

(** After the events [inputs] the receive loop of the session is still
    waiting, and a client disconnect that comes next ends it there,
    whatever would have followed. *)
Definition ends_on_disconnect (rt : Runtime) (s : Joined) (inputs : list RecvResult)
    (w : World) : Prop :=
  ∃ w',
    chat_loop rt s (EnvRecv <$> inputs) w = (Ok Pending, w') ∧
    healthy_for (j_websocket s) w' ∧
    ∀ rest,
      chat_loop rt s
        ((EnvRecv <$> inputs) ++ EnvRecv (RecvRaises WebSocketDisconnect) :: rest) w
      = (Ok Broke, w').

(** An input that a per-room session only answers, and the event it
    answers with. *)
Inductive recoverable (rt : Runtime) (s : Joined) : RecvResult → json → Prop :=
| rec_ping data t :
    jget "type" (JStr "") data = Ok t → jeq_str t "ping" = true →
    recoverable rt s (Recv data) (JObj [("type", JStr "pong")])
| rec_unknown data t :
    jget "type" (JStr "") data = Ok t →
    jeq_str t "ping" = false → jeq_str t "message" = false →
    recoverable rt s (Recv data)
      (error_event ("Unknown message type: " +:+ py_str rt t))
| rec_not_object data e :
    jget "type" (JStr "") data = Raise e →
    recoverable rt s (Recv data) (error_event (exn_str rt AttributeError))
| rec_viewer data :
    message_event data → j_can_send s = false →
    recoverable rt s (Recv data) (error_event "VIEWERs cannot send messages")
| rec_blank data c :
    message_event data → j_can_send s = true →
    jget "content" (JStr "") data = Ok (JStr c) → whitespace_only c →
    recoverable rt s (Recv data) (error_event "Message content cannot be empty")
| rec_content data v :
    message_event data → j_can_send s = true →
    jget "content" (JStr "") data = Ok v → (∀ c, v ≠ JStr c) →
    recoverable rt s (Recv data) (error_event (exn_str rt AttributeError))
| rec_reply data c v e :
    message_event data → j_can_send s = true →
    jget "content" (JStr "") data = Ok (JStr c) → strip c ≠ "" →
    jget "reply_to_id" JNull data = Ok v → resolve_reply rt v = Raise e →
    recoverable rt s (Recv data) (error_event (exn_str rt AttributeError))
| rec_invalid_json :
    recoverable rt s (RecvRaises JSONDecodeError) (error_event "Invalid JSON")
| rec_exception e :
    e ≠ WebSocketDisconnect → e ≠ JSONDecodeError →
    recoverable rt s (RecvRaises e) (error_event (exn_str rt e)).

(** The turn for the message event [fields] stored the message with the
    stripped content [text], left the registry alone, and all it did on
    the wire were sends to the sender's own connection that raised [e]. *)
Definition stored_unannounced (rt : Runtime) (s : Joined)
    (fields : list (string * json)) (text : string) (e : exn) (w : World) : Prop :=
  ∃ r w' message,
    chat_turn rt s (Recv (JObj fields)) w = (r, w') ∧
    chat_messages (store w') = chat_messages (store w) ++ [message] ∧
    content message = JStr text ∧
    manager w' = manager w ∧
    ∀ ef, ef ∈ since w w' → ∃ m, ef = ESend (j_websocket s) m (SendRaises e).

(** What the statements of [websocket_chat] between the registration and
    the loop do: the [connected] event goes to the new connection first,
    with the latest page of the room and the online list; if that send
    succeeds the presence event, with the action [joined], the user and
    the same list, goes to every connected entry of the room, if it
    raises nothing else is sent. *)
Definition greeted (rt : Runtime) (s : Joined) (w : World) : Prop :=
  let room := KStr (j_room_id s) in
  let ws := j_websocket s in
  let page := get_chat_messages (store w) (j_room_uuid s) 50 in
  let users := online_list rt (store w) (get_online_users room (manager w)) in
  let joined := presence rt "joined" (j_user s) users in
  ∃ r w' hello,
    chat_greet rt s w = (r, w') ∧
    since w w' !! 0%nat = Some (ESend ws hello (on_send (net w ws))) ∧
    jget "type" JNull hello = Ok (JStr "connected") ∧
    jget "messages" JNull hello
    = Ok (JArr (map (λ m, chat_message_to_dict rt m (store w)) page.1.1)) ∧
    jget "total_messages" JNull hello = Ok (JInt (Z.of_nat page.1.2)) ∧
    jget "online_users" JNull hello = Ok (JArr users) ∧
    store w' = store w ∧
    presence_fields rt joined "joined" (j_user s) users ∧
    match on_send (net w ws) with
    | Sent =>
        r = Ok tt ∧
        ∀ u ws2, conn_of (manager w) room u = Some ws2 →
                 client_connected (net w ws2) = true →
                 ESend ws2 joined (on_send (net w ws2)) ∈ since w w'
    | SendRaises e =>
        r = Raise e ∧ manager w' = manager w ∧
        since w w' = [ESend ws hello (SendRaises e)]
    end.

(** The checks of [websocket_chat] before [accept] all pass: the room id
    parses, the room exists, the token names a user, and the user has
    exactly one membership row for the room. *)
Definition admitted (rt : Runtime) (room_id token : string) (db : Db)
    (room : ChatRoom) (user : ChatUser) (membership : ChatRoomMember) : Prop :=
  ∃ room_uuid,
    uuid_of_str rt room_id = Some room_uuid ∧
    get_chat_room_by_id db room_uuid = Some room ∧
    get_current_chat_user_from_token rt token db = Some user ∧
    get_chat_room_member db room_uuid (cu_id user) = Ok (Some membership).

(** The per-room endpoint turned the connection away: it was closed with
    one of the four codes, or the membership lookup raised; nothing was
    registered, stored or sent. *)
Definition turned_away (websocket : conn) (w : World) (r : res SessionEnd)
    (w' : World) : Prop :=
  manager w' = manager w ∧ store w' = store w ∧
  ((r = Raise MultipleResultsFound ∧ since w w' = []) ∨
   (r = Ok Rejected ∧
    ∃ code reason, since w w' = [EClose websocket code reason] ∧
                   code ∈ [4000; 4004; 4001; 4003]%Z)).

(** [data] is an event of the generic endpoint: its ["type"] is [kind],
    its ["payload"] is a dictionary whose ["room_id"] is [room_id]. *)
Definition room_event (kind : string) (room_id : json) (payload data : json) : Prop :=
  jget "type" JNull data = Ok (JStr kind) ∧
  jget "payload" (JObj []) data = Ok payload ∧
  jget "room_id" JNull payload = Ok room_id.

(** The generic endpoint handled [data] by sending [event] to every
    connected entry of the room [key]; the registry still satisfies its
    invariant. *)
Definition reaches_room (rt : Runtime) (websocket : conn) (user : ChatUser)
    (data : json) (key : rkey) (w w' : World) (event : json) : Prop :=
  main_handle rt websocket user data w = (Ok tt, w') ∧
  wf (manager w') ∧
  ∀ u ws, conn_of (manager w) key u = Some ws →
          client_connected (net w ws) = true →
          ESend ws event (on_send (net w ws)) ∈ since w w'.

(** ** Concrete data for the examples *)

Module Demo.
Definition hex_digit (n : N) : ascii :=
  match n with
  | 0 => "0" | 1 => "1" | 2 => "2" | 3 => "3" | 4 => "4" | 5 => "5"
  | 6 => "6" | 7 => "7" | 8 => "8" | 9 => "9" | 10 => "a" | 11 => "b"
  | 12 => "c" | 13 => "d" | 14 => "e" | _ => "f"
  end%N%char.

Fixpoint hex_digits (k : nat) (n : N) (acc : list ascii) : list ascii :=
  match k with
  | O => acc
  | S k' => hex_digits k' (n / 16)%N (hex_digit (n mod 16)%N :: acc)
  end.

(** [str(u)]: 32 hexadecimal digits in groups of 8-4-4-4-12. *)
Definition uuid_text (u : UUID) : string :=
  let h := hex_digits 32 u [] in
  let dash := "-"%char in
  string_of_list_ascii
    (take 8 h ++ dash :: take 4 (drop 8 h) ++ dash :: take 4 (drop 12 h)
     ++ dash :: take 4 (drop 16 h) ++ dash :: drop 20 h).

(** [UUID(s)] for the identifiers below 64 in their canonical form. *)
Definition uuid_parse (s : string) : option UUID :=
  head (filter (λ u, uuid_text u = s) (N.of_nat <$> seq 0 64)).

Definition exn_name (e : exn) : string :=
  match e with
  | WebSocketDisconnect => "WebSocketDisconnect"
  | JSONDecodeError => "JSONDecodeError"
  | ValueError => "ValueError"
  | AttributeError => "AttributeError"
  | TypeError => "TypeError"
  | KeyError => "KeyError"
  | MultipleResultsFound => "MultipleResultsFound"
  | RuntimeError => "RuntimeError"
  end.

(** Tokens here carry their subject in clear. *)
Definition rt : Runtime :=
  {| uuid_of_str := uuid_parse;
     uuid_str := uuid_text;
     jwt_decode := λ token, Some (JObj [("sub", JStr token)]);
     py_str := λ v, match v with JStr s => s | _ => "?" end;
     exn_str := exn_name |}.

Definition human (n : UUID) (name : string) (act : bool) : ChatUser :=
  {| cu_id := n; username := name; is_active := act; cu_type := UserType.HUMAN;
     bot_display_name := None; bot_slug := None |}.

Definition alice := human 1%N "alice" true.
Definition bob := human 2%N "bob" true.
Definition vera := human 3%N "vera" true.
(** A deactivated account whose name is also the slug of a live bot. *)
Definition old_helper := human 4%N "helper" false.
Definition helper_bot : ChatUser :=
  {| cu_id := 5%N; username := "helper-bot"; is_active := true;
     cu_type := UserType.BOT; bot_display_name := Some "Helper";
     bot_slug := Some "helper" |}.

Definition general : ChatRoom := {| cr_id := 16%N; cr_name := "general" |}.
Definition room_id : string := uuid_text 16%N.
Definition room : rkey := KStr room_id.

Definition member (u : ChatUser) (r : RoomRole.t) : ChatRoomMember :=
  {| crm_room_id := 16%N; crm_user_id := cu_id u; role := r |}.

Definition db : Db :=
  {| chat_users := [alice; bob; vera; old_helper; helper_bot];
     chat_rooms := [general];
     chat_room_members :=
       [member alice RoomRole.OWNER; member bob RoomRole.MEMBER;
        member vera RoomRole.VIEWER];
     chat_messages := [];
     next_uuid := 32%N |}.

Definition key (u : ChatUser) : string := uuid_text (cu_id u).

Definition healthy : ConnStatus := {| client_connected := true; on_send := Sent |}.
Definition broken : ConnStatus :=
  {| client_connected := true; on_send := SendRaises RuntimeError |}.

Definition world (self : ConnectionManager) (status : conn → ConnStatus) : World :=
  {| manager := self; store := db; net := status; trace := [] |}.

(** Bob is connected to the room as connection 2. *)
Definition bob_online : World :=
  world (connected 2 room (key bob) init_manager) (λ _, healthy).

(** Alice (1) and Bob (2) are connected to the room. *)
Definition both_online : World :=
  world (connected 2 room (key bob) (connected 1 room (key alice) init_manager))
    (λ _, healthy).

(** Alice (1), Bob (2) and Vera (3) are connected; Vera's socket is dead. *)
Definition one_dead : World :=
  world (connected 3 room (key vera)
           (connected 2 room (key bob) (connected 1 room (key alice) init_manager)))
    (λ c, if decide (c = 3) then broken else healthy).

Definition session (websocket : conn) (u : ChatUser) (can_send : bool) : Joined :=
  {| j_websocket := websocket; j_room_id := room_id; j_room_uuid := 16%N;
     j_room := general; j_user := u; j_can_send := can_send |}.

Definition message_to_room (text : json) : json :=
  JObj [("type", JStr "message");
        ("payload", JObj [("room_id", JStr room_id); ("content", text)])].

Definition join : json :=
  JObj [("type", JStr "join_room"); ("payload", JObj [("room_id", JStr room_id)])].
End Demo.

(** Alice (1) and Bob (2) are connected to the room; Alice's socket raises. *)
Definition alice_broken : World :=
  Demo.world (manager Demo.both_online)
    (λ c, if decide (c = 1) then Demo.broken else Demo.healthy).

(** Alice (1) and Bob (2) are registered; Bob's socket is no longer in the
    connected state. *)
Definition bob_stale : World :=
  Demo.world (manager Demo.both_online)
    (λ c, if decide (c = 2)
          then {| client_connected := false; on_send := Sent |}
          else Demo.healthy).

(** * Properties *)

Ltac st_unfold :=
  unfold mbind, mret, ST_bind, ST_ret, res_bind, res_ret,
    get, gets, modify, lift, raise, try_, on_manager in *.

(** ** Insertion-ordered dictionaries *)

Section pydict_facts.
Context {V : Type}.
Implicit Types (d : list (string * V)) (k : string) (v : V).

Lemma dget_Some_elem d k v : dget k d = Some v → (k, v) ∈ d.
Proof.
  induction d as [|[k' v'] d IH]; simpl; [done|].
  case_decide; intros; simplify_eq; [left | right; auto].
Qed.

Lemma dget_is_Some d k : is_Some (dget k d) ↔ k ∈ d.*1.
Proof.
  induction d as [|[k' v'] d IH]; simpl.
  - split; [intros [? ?]; done | intros ?%elem_of_nil; done].
  - case_decide; subst.
    + split; [intros _; left | eauto].
    + rewrite IH, elem_of_cons. naive_solver.
Qed.

Lemma dget_None d k : dget k d = None ↔ k ∉ d.*1.
Proof. rewrite <- dget_is_Some, eq_None_not_Some. done. Qed.

Lemma dmem_true d k : dmem k d = true ↔ k ∈ d.*1.
Proof. unfold dmem. rewrite bool_decide_eq_true. apply dget_is_Some. Qed.

Lemma dget_dset d k k' v :
  dget k' (dset k v d) = if decide (k' = k) then Some v else dget k' d.
Proof.
  induction d as [|[k0 v0] d IH]; simpl.
  - repeat case_decide; congruence.
  - repeat (case_decide; simpl); try congruence.
Qed.

Lemma dget_ddel d k k' :
  dget k' (ddel k d) = if decide (k' = k) then None else dget k' d.
Proof.
  unfold ddel. induction d as [|[k0 v0] d IH]; simpl.
  - by case_decide.
  - rewrite filter_cons. simpl.
    destruct (decide (k0 ≠ k)) as [Hne|Heq]; simpl.
    + rewrite IH. repeat case_decide; congruence.
    + apply dec_stable in Heq. subst. rewrite IH.
      repeat case_decide; congruence.
Qed.

Lemma keys_dset d k v k' : k' ∈ (dset k v d).*1 ↔ k' = k ∨ k' ∈ d.*1.
Proof.
  rewrite <- !dget_is_Some, dget_dset. case_decide; naive_solver.
Qed.

Lemma keys_ddel d k k' : k' ∈ (ddel k d).*1 ↔ k' ≠ k ∧ k' ∈ d.*1.
Proof.
  rewrite <- !dget_is_Some, dget_ddel. case_decide; [|naive_solver].
  split; [intros [? ?]; done | naive_solver].
Qed.

Lemma dset_not_nil d k v : dset k v d ≠ [].
Proof. destruct d as [|[??]?]; simpl; [done|]. by case_decide. Qed.

Lemma NoDup_dset d k v : NoDup d.*1 → NoDup (dset k v d).*1.
Proof.
  induction d as [|[k0 v0] d IH]; simpl; intros Hnd.
  - apply NoDup_singleton.
  - apply NoDup_cons in Hnd as [Hni Hnd].
    case_decide; subst; simpl; apply NoDup_cons; split; auto.
    rewrite keys_dset. naive_solver.
Qed.

Lemma NoDup_ddel d k : NoDup d.*1 → NoDup (ddel k d).*1.
Proof.
  unfold ddel. induction d as [|[k0 v0] d IH]; simpl; intros Hnd; [done|].
  apply NoDup_cons in Hnd as [Hni Hnd]. rewrite filter_cons. simpl.
  case_decide; simpl; auto. apply NoDup_cons. split; auto.
  intros Hin. apply Hni.
  apply list_elem_of_fmap in Hin as (kv & -> & Hin).
  apply list_elem_of_filter in Hin as [_ Hin].
  apply list_elem_of_fmap. eauto.
Qed.

Lemma keys_set_dset d k v :
  (list_to_set (dset k v d).*1 : gset string) = list_to_set d.*1 ∪ {[k]}.
Proof.
  apply set_eq. intros k'.
  rewrite elem_of_union, !elem_of_list_to_set, keys_dset. set_solver.
Qed.

Lemma keys_set_ddel d k :
  (list_to_set (ddel k d).*1 : gset string) = list_to_set d.*1 ∖ {[k]}.
Proof.
  apply set_eq. intros k'.
  rewrite elem_of_difference, !elem_of_list_to_set, keys_ddel. set_solver.
Qed.

(** With distinct keys, the entries under a present key are one. *)
Lemma filter_key_NoDup d k v :
  NoDup d.*1 → dget k d = Some v → (filter (λ kv, kv.1 = k) d).*2 = [v].
Proof.
  induction d as [|[k0 v0] d IH]; simpl; intros Hnd Hg; [done|].
  apply NoDup_cons in Hnd as [Hni Hnd]. rewrite filter_cons. simpl.
  destruct (decide (k = k0)) as [->|Hne].
  - simplify_eq. rewrite decide_True by done. simpl. f_equal.
    assert (filter (λ kv : string * V, kv.1 = k0) d = []) as ->; [|done].
    destruct (filter _ d) as [|[k1 v1] ?] eqn:Hf; [done|].
    assert ((k1, v1) ∈ filter (λ kv : string * V, kv.1 = k0) d) as Hin
      by (rewrite Hf; left).
    apply list_elem_of_filter in Hin as [Heq Hin]. simpl in Heq. subst.
    destruct Hni. apply list_elem_of_fmap. by exists (k0, v1).
  - rewrite decide_False by congruence. auto.
Qed.
Lemma elem_dget d k v : NoDup d.*1 → (k, v) ∈ d → dget k d = Some v.
Proof.
  induction d as [|[k0 v0] d IH]; simpl; intros Hnd Hin.
  - by apply elem_of_nil in Hin.
  - apply NoDup_cons in Hnd as [Hni Hnd].
    apply elem_of_cons in Hin as [[= -> ->]|Hin].
    + by rewrite decide_True.
    + rewrite decide_False; [auto|]. intros ->. apply Hni.
      apply list_elem_of_fmap. by exists (k0, v).
Qed.

Lemma keys_functional d k v1 v2 :
  NoDup d.*1 → (k, v1) ∈ d → (k, v2) ∈ d → v1 = v2.
Proof.
  intros Hnd H1%elem_dget H2%elem_dget; congruence.
Qed.
End pydict_facts.

(** ** The registry operations *)

Section registry_facts.
Implicit Types (self : ConnectionManager) (r : rkey) (u : string) (ws : conn).

Lemma wf_init : wf init_manager.
Proof.
  split; unfold init_manager, conn_of; simpl.
  - intros r d. by rewrite lookup_empty.
  - intros r. by rewrite !lookup_empty.
  - intros u r. rewrite !lookup_empty. simpl. split; [set_solver | by intros [? ?]].
  - intros u. by rewrite lookup_empty.
Qed.

Lemma connect_run ws r u self :
  wf self → connect ws r u self = (Ok tt, connected ws r u self).
Proof.
  intros Hwf. unfold connect, connected, getitem. st_unfold. simpl.
  pose proof (wf_users _ Hwf r) as Hu.
  destruct (connections self !! r) as [d|] eqn:Hc; simpl in *;
    rewrite ?Hc, ?lookup_insert_eq; simpl; rewrite ?Hu, ?lookup_insert_eq; simpl;
    destruct (user_rooms self !! u) as [rs|] eqn:Hr; simpl;
    rewrite ?Hr, ?lookup_insert_eq; simpl;
    unfold set_user_rooms, set_room_users, set_connections; simpl;
    by rewrite ?insert_insert_eq.
Qed.

Lemma disconnect_entry_run r u self :
  wf self → disconnect_entry r u self = (Ok tt, drop_entry r u self).
Proof.
  intros Hwf. unfold disconnect_entry, drop_entry. st_unfold. simpl.
  pose proof (wf_users _ Hwf r) as Hu.
  destruct (connections self !! r) as [d|] eqn:Hc; simpl in *; [|done].
  destruct (dmem u d); [|done]. simpl.
  unfold getitem. simpl. rewrite Hu. simpl.
  destruct (ddel u d) as [|kv d'] eqn:Hd; simpl; [|done].
  rewrite lookup_insert_eq. simpl.
  unfold set_user_rooms, set_room_users, set_connections; simpl.
  by rewrite !delete_insert_eq.
Qed.

Lemma disconnect_index_run r u self :
  disconnect_index r u self = (Ok tt, drop_index r u self).
Proof.
  unfold disconnect_index, drop_index. st_unfold. simpl.
  destruct (user_rooms self !! u) as [rs|]; [|done].
  by case_decide.
Qed.

Lemma disconnect_run r u self :
  wf self → disconnect r u self = (Ok tt, disconnected r u self).
Proof.
  intros Hwf. unfold disconnect, disconnected.
  unfold mbind, ST_bind. rewrite disconnect_entry_run by done.
  apply disconnect_index_run.
Qed.

Lemma conn_of_connected ws r u self r' u' :
  conn_of (connected ws r u self) r' u'
  = if decide (r' = r ∧ u' = u) then Some ws else conn_of self r' u'.
Proof.
  unfold conn_of, connected. simpl.
  destruct (decide (r' = r)) as [->|Hr].
  - rewrite lookup_insert_eq. simpl. rewrite dget_dset.
    destruct (connections self !! r); simpl; repeat case_decide; naive_solver.
  - rewrite lookup_insert_ne by done. case_decide; naive_solver.
Qed.

Lemma dmem_false (d : list (string * conn)) u : dmem u d = false → dget u d = None.
Proof.
  unfold dmem. rewrite bool_decide_eq_false. apply eq_None_not_Some.
Qed.

Lemma conn_of_drop_entry r u self r' u' :
  conn_of (drop_entry r u self) r' u'
  = if decide (r' = r ∧ u' = u) then None else conn_of self r' u'.
Proof.
  unfold conn_of, drop_entry.
  destruct (connections self !! r) as [d|] eqn:Hc.
  - destruct (dmem u d) eqn:Hm.
    + pose proof (dget_ddel d u u') as Hg.
      destruct (ddel u d) as [|kv d'] eqn:Hd; simpl in *.
      * destruct (decide (r' = r)) as [->|Hr].
        -- rewrite lookup_delete_eq, Hc. simpl.
           destruct (decide (u' = u)) as [->|Hu].
           ++ by rewrite decide_True.
           ++ by rewrite decide_False by naive_solver.
        -- rewrite lookup_delete_ne by done. by rewrite decide_False by naive_solver.
      * destruct (decide (r' = r)) as [->|Hr].
        -- rewrite lookup_insert_eq, Hc. simpl. rewrite Hg.
           destruct (decide (u' = u)) as [->|Hu].
           ++ by rewrite decide_True.
           ++ by rewrite decide_False by naive_solver.
        -- rewrite lookup_insert_ne by done. by rewrite decide_False by naive_solver.
    + case_decide as H; [|done]. destruct H as [-> ->].
      rewrite Hc. simpl. by rewrite dmem_false.
  - case_decide as H; [|done]. destruct H as [-> ->]. by rewrite Hc.
Qed.

Lemma conn_of_drop_index r u self r' u' :
  conn_of (drop_index r u self) r' u' = conn_of self r' u'.
Proof.
  unfold conn_of, drop_index.
  destruct (user_rooms self !! u); [case_decide|]; done.
Qed.

Lemma conn_of_disconnected r u self r' u' :
  conn_of (disconnected r u self) r' u'
  = if decide (r' = r ∧ u' = u) then None else conn_of self r' u'.
Proof.
  unfold disconnected. by rewrite conn_of_drop_index, conn_of_drop_entry.
Qed.

Lemma conn_of_is_Some self r u :
  is_Some (conn_of self r u) ↔ key_of_room self r u.
Proof.
  unfold conn_of, key_of_room. destruct (connections self !! r) as [d|]; simpl.
  - rewrite dget_is_Some. naive_solver.
  - split; [intros [? ?]; done | naive_solver].
Qed.

Lemma wf_connected ws r u self : wf self → wf (connected ws r u self).
Proof.
  intros Hwf. split.
  - intros r' d'. unfold connected; simpl.
    destruct (decide (r' = r)) as [->|Hr].
    + rewrite lookup_insert_eq. intros [= <-]. split; [|apply dset_not_nil].
      apply NoDup_dset. destruct (connections self !! r) as [d|] eqn:Hc; simpl.
      * by apply (wf_dict _ Hwf r).
      * apply NoDup_nil_2.
    + rewrite lookup_insert_ne by done. apply (wf_dict _ Hwf).
  - intros r'. unfold connected; simpl.
    destruct (decide (r' = r)) as [->|Hr].
    + rewrite !lookup_insert_eq. simpl. f_equal. rewrite keys_set_dset.
      rewrite (wf_users _ Hwf r). by destruct (connections self !! r).
    + rewrite !lookup_insert_ne by done. apply (wf_users _ Hwf).
  - intros u' r'. rewrite conn_of_connected.
    pose proof (wf_rooms _ Hwf u' r') as Hr.
    unfold connected; simpl.
    destruct (decide (u' = u)) as [->|Hu].
    + rewrite lookup_insert_eq. simpl. rewrite elem_of_union, elem_of_singleton.
      case_decide; [naive_solver|]. rewrite Hr. naive_solver.
    + rewrite lookup_insert_ne by done. rewrite decide_False by naive_solver. done.
  - intros u'. unfold connected; simpl.
    destruct (decide (u' = u)) as [->|Hu].
    + rewrite lookup_insert_eq. intros [= Heq]. set_solver.
    + rewrite lookup_insert_ne by done. apply (wf_rooms_ne _ Hwf).
Qed.

Lemma user_rooms_drop_entry r u self :
  user_rooms (drop_entry r u self) = user_rooms self.
Proof.
  unfold drop_entry. destruct (connections self !! r) as [d|]; [|done].
  destruct (dmem u d); [|done]. by destruct (ddel u d).
Qed.

Lemma connections_drop_index r u self :
  connections (drop_index r u self) = connections self.
Proof.
  unfold drop_index. destruct (user_rooms self !! u); [case_decide|]; done.
Qed.

Lemma room_users_drop_index r u self :
  room_users (drop_index r u self) = room_users self.
Proof.
  unfold drop_index. destruct (user_rooms self !! u); [case_decide|]; done.
Qed.

Lemma rooms_drop_index r u self u' :
  default ∅ (user_rooms (drop_index r u self) !! u')
  = if decide (u' = u) then default ∅ (user_rooms self !! u) ∖ {[r]}
    else default ∅ (user_rooms self !! u').
Proof.
  unfold drop_index. destruct (user_rooms self !! u) as [rs|] eqn:Hu.
  - destruct (decide (rs ∖ {[r]} = ∅)) as [He|He]; simpl;
      destruct (decide (u' = u)) as [->|Hne];
      rewrite ?lookup_delete_eq, ?lookup_delete_ne, ?lookup_insert_eq,
        ?lookup_insert_ne, ?Hu by done; simpl; done.
  - destruct (decide (u' = u)) as [->|Hne]; [|done].
    rewrite Hu. simpl. set_solver.
Qed.

Lemma wf_drop_entry_dict r u self r' d' :
  wf self →
  connections (drop_entry r u self) !! r' = Some d' →
  NoDup d'.*1 ∧ d' ≠ [] ∧
  room_users (drop_entry r u self) !! r' = Some (list_to_set d'.*1).
Proof.
  intros Hwf. unfold drop_entry.
  pose proof (wf_users _ Hwf r) as Hus.
  assert (∀ d, connections self !! r' = Some d →
            NoDup d.*1 ∧ d ≠ [] ∧ room_users self !! r' = Some (list_to_set d.*1))
    as Hold.
  { intros d Hd. destruct (wf_dict _ Hwf _ _ Hd). rewrite (wf_users _ Hwf), Hd. done. }
  destruct (connections self !! r) as [d|] eqn:Hc; [|by apply Hold].
  destruct (dmem u d) eqn:Hm; [|by apply Hold].
  destruct (wf_dict _ Hwf _ _ Hc) as [Hnd _].
  destruct (ddel u d) as [|kv d0] eqn:Hd; simpl.
  - destruct (decide (r' = r)) as [->|Hr].
    + by rewrite lookup_delete_eq.
    + rewrite !lookup_delete_ne by done. apply Hold.
  - destruct (decide (r' = r)) as [->|Hr].
    + rewrite !lookup_insert_eq. intros [= <-]. rewrite <- Hd.
      split; [by apply NoDup_ddel|]. split; [by rewrite Hd|].
      rewrite Hus. simpl. by rewrite keys_set_ddel.
    + rewrite !lookup_insert_ne by done. apply Hold.
Qed.

Lemma wf_drop_entry_users r u self r' :
  wf self →
  connections (drop_entry r u self) !! r' = None →
  room_users (drop_entry r u self) !! r' = None.
Proof.
  intros Hwf. unfold drop_entry.
  assert (connections self !! r' = None → room_users self !! r' = None) as Hold.
  { intros Hd. by rewrite (wf_users _ Hwf), Hd. }
  destruct (connections self !! r) as [d|] eqn:Hc; [|by apply Hold].
  destruct (dmem u d) eqn:Hm; [|by apply Hold].
  destruct (ddel u d) as [|kv d0] eqn:Hd; simpl.
  - destruct (decide (r' = r)) as [->|Hr].
    + by rewrite !lookup_delete_eq.
    + rewrite !lookup_delete_ne by done. apply Hold.
  - destruct (decide (r' = r)) as [->|Hr].
    + by rewrite !lookup_insert_eq.
    + rewrite !lookup_insert_ne by done. apply Hold.
Qed.

Lemma wf_disconnected r u self : wf self → wf (disconnected r u self).
Proof.
  intros Hwf. split.
  - intros r' d'. unfold disconnected. rewrite connections_drop_index.
    intros Hd. by destruct (wf_drop_entry_dict _ _ _ _ _ Hwf Hd) as (? & ? & _).
  - intros r'. unfold disconnected.
    rewrite connections_drop_index, room_users_drop_index.
    destruct (connections (drop_entry r u self) !! r') as [d'|] eqn:Hd; simpl.
    + by destruct (wf_drop_entry_dict _ _ _ _ _ Hwf Hd) as (? & ? & ?).
    + by apply wf_drop_entry_users.
  - intros u' r'. rewrite conn_of_disconnected.
    unfold disconnected. rewrite rooms_drop_index, user_rooms_drop_entry.
    pose proof (wf_rooms _ Hwf u' r') as Hr.
    destruct (decide (u' = u)) as [->|Hu].
    + rewrite elem_of_difference, elem_of_singleton, Hr.
      case_decide as Hd; [destruct Hd as [-> _]|].
      * split; [naive_solver | intros [? ?]; done].
      * naive_solver.
    + by rewrite decide_False by naive_solver.
  - intros u'. unfold disconnected, drop_index. rewrite user_rooms_drop_entry.
    destruct (user_rooms self !! u) as [rs|] eqn:Hu;
      [|rewrite user_rooms_drop_entry; apply (wf_rooms_ne _ Hwf)].
    destruct (decide (rs ∖ {[r]} = ∅)) as [He|He]; simpl;
      rewrite user_rooms_drop_entry;
      destruct (decide (u' = u)) as [->|Hne];
      rewrite ?lookup_delete_eq, ?lookup_delete_ne, ?lookup_insert_eq,
        ?lookup_insert_ne by done; try done; try apply (wf_rooms_ne _ Hwf).
    congruence.
Qed.
End registry_facts.

Section registry_claims.
Implicit Types (self : ConnectionManager) (r : rkey) (u : string) (ws : conn).

Lemma apply_op_wf op self :
  wf self → ∃ self', apply_op op self = (Ok tt, self') ∧ wf self'.
Proof.
  intros Hwf. destruct op as [ws r u|r u]; simpl.
  - rewrite connect_run by done. eauto using wf_connected.
  - rewrite disconnect_run by done. eauto using wf_disconnected.
Qed.

Lemma run_ops_wf ops self :
  wf self → ∃ self', run_ops ops self = (Ok tt, self') ∧ wf self'.
Proof.
  unfold run_ops. revert self. induction ops as [|op ops IH]; intros self Hwf; simpl.
  - eauto.
  - destruct (apply_op_wf op self Hwf) as (self1 & Hrun & Hwf1).
    unfold mbind, ST_bind. rewrite Hrun. auto.
Qed.

Lemma for_each_app {S A} (xs ys : list A) (body : A → ST S unit) s :
  for_each (xs ++ ys) body s
  = match for_each xs body s with
    | (Ok _, s') => for_each ys body s'
    | (Raise e, s') => (Raise e, s')
    end.
Proof.
  revert s. induction xs as [|x xs IH]; intros s; simpl; [done|].
  unfold mbind, ST_bind. destruct (body x s) as [[[]|e] s']; auto.
Qed.

Lemma wf_consistent self : wf self → consistent self.
Proof.
  intros Hwf r u.
  assert (in_user_rooms self u r ↔ key_of_room self r u) as H1.
  { rewrite <- conn_of_is_Some, <- (wf_rooms _ Hwf). unfold in_user_rooms.
    destruct (user_rooms self !! u) as [rs|]; simpl.
    - naive_solver.
    - split; [naive_solver | set_solver]. }
  split; [done|]. split.
  - unfold key_of_room, in_room_users. rewrite (wf_users _ Hwf).
    destruct (connections self !! r) as [d|]; simpl.
    + split.
      * intros (? & [= <-] & Hin). eexists. split; [done|].
        by apply elem_of_list_to_set.
      * intros (? & [= <-] & Hin). eexists. split; [done|].
        by apply elem_of_list_to_set in Hin.
    + naive_solver.
  - intros Hin. apply H1 in Hin as (d & Hd & Hin). unfold entries. rewrite Hd. simpl.
    apply dget_is_Some in Hin as [ws Hws]. exists ws.
    apply filter_key_NoDup; [|done]. by apply (wf_dict _ Hwf r).
Qed.

Lemma wf_no_empty self : wf self → no_empty self.
Proof.
  intros Hwf. split; [|split].
  - intros r d Hd. by apply (wf_dict _ Hwf r).
  - intros r us. rewrite (wf_users _ Hwf).
    destruct (connections self !! r) as [d|] eqn:Hd; simpl; [|done].
    intros [= <-]. destruct (wf_dict _ Hwf _ _ Hd) as [_ Hne].
    destruct d as [|[k v] d]; [done|]. simpl. set_solver.
  - intros u rs Hrs ->. by apply (wf_rooms_ne _ Hwf u).
Qed.
End registry_claims.

(** ** Broadcast *)

Section broadcast_facts.
Lemma emits_nil w : emits [] w = w.
Proof. destruct w. unfold emits. simpl. by rewrite app_nil_r. Qed.

Lemma emits_emits es1 es2 w : emits es2 (emits es1 w) = emits (es1 ++ es2) w.
Proof. unfold emits. simpl. by rewrite app_assoc. Qed.

Lemma emit_emits e w : emit e w = emits [e] w.
Proof. done. Qed.

Lemma broadcast_sweep_run items message exclude_user acc w :
  broadcast_sweep items message exclude_user acc w
  = (Ok (acc ++ sweep_failed items exclude_user (net w)),
     emits (sweep_sends items message exclude_user (net w)) w).
Proof.
  revert acc w. induction items as [|[u ws] items IH]; intros acc w.
  - simpl. by rewrite app_nil_r, emits_nil.
  - unfold sweep_failed, sweep_sends. rewrite !bind_cons. simpl.
    destruct (excluded exclude_user u) eqn:Hex; simpl; [apply IH|].
    unfold guarded_send, send_json, send_fails. st_unfold. simpl.
    destruct (client_connected (net w ws)) eqn:Hcc; simpl; [|apply IH].
    destruct (on_send (net w ws)) eqn:Hs; simpl; rewrite IH; simpl;
      rewrite emit_emits, emits_emits, <- ?app_assoc; done.
Qed.

Lemma evict_run room_id users w :
  wf (manager w) →
  for_each users (λ user_id, on_manager (disconnect room_id user_id)) w
  = (Ok tt, set_manager (evict room_id users) w).
Proof.
  revert w. induction users as [|u users IH]; intros w Hwf; simpl.
  - destruct w. done.
  - unfold mbind, ST_bind, on_manager. rewrite disconnect_run by done.
    rewrite IH by (simpl; by apply wf_disconnected).
    destruct w. done.
Qed.

Lemma wf_evict room_id users self : wf self → wf (evict room_id users self).
Proof.
  revert self. induction users as [|u users IH]; intros self Hwf; simpl; [done|].
  apply IH. by apply wf_disconnected.
Qed.

Lemma conn_of_evict room_id users self r u :
  conn_of (evict room_id users self) r u
  = if decide (r = room_id ∧ u ∈ users) then None else conn_of self r u.
Proof.
  revert self. induction users as [|v users IH]; intros self; simpl.
  - rewrite decide_False; [done|]. intros [_ ?%elem_of_nil]. done.
  - rewrite IH, conn_of_disconnected.
    destruct (decide (r = room_id ∧ u ∈ users)) as [[-> Hin]|Hn].
    + rewrite decide_True; [done|]. split; [done|]. by right.
    + destruct (decide (r = room_id ∧ u = v)) as [[-> ->]|Hn'].
      * rewrite decide_True; [done|]. split; [done|]. by left.
      * rewrite decide_False; [done|]. intros [-> [->|Hin]%elem_of_cons]; naive_solver.
Qed.

(** [broadcast] never raises on a registry that satisfies the invariant:
    the sweep over the snapshot only sends, the eviction comes after it. *)
Lemma broadcast_run room_id message exclude_user w :
  wf (manager w) →
  let d := default [] (connections (manager w) !! room_id) in
  broadcast room_id message exclude_user w
  = (Ok tt,
     set_manager (evict room_id (sweep_failed d exclude_user (net w)))
       (emits (sweep_sends d message exclude_user (net w)) w)).
Proof.
  intros Hwf d. unfold broadcast. st_unfold. simpl. subst d.
  destruct (connections (manager w) !! room_id) as [d|]; simpl.
  - rewrite broadcast_sweep_run. simpl. by apply evict_run.
  - simpl. rewrite emits_nil. by destruct w.
Qed.

Lemma sweep_sends_all (d : list (string * conn)) message net :
  (∀ u ws, (u, ws) ∈ d → client_connected (net ws) = true) →
  sweep_sends d message None net
  = map (λ '(u, ws), ESend ws message (on_send (net ws))) d.
Proof.
  induction d as [|[u ws] d IH]; intros Hall; [done|].
  unfold sweep_sends. rewrite bind_cons. simpl.
  rewrite (Hall u ws) by left. simpl. f_equal.
  apply IH. intros ???. apply (Hall u0). by right.
Qed.

Lemma sweep_failed_none (d : list (string * conn)) net :
  (∀ u ws, (u, ws) ∈ d → send_fails net ws = false) →
  sweep_failed d None net = [].
Proof.
  induction d as [|[u ws] d IH]; intros Hall; [done|].
  unfold sweep_failed. rewrite bind_cons. simpl.
  rewrite (Hall u ws) by left. simpl.
  apply IH. intros ???. apply (Hall u0). by right.
Qed.

Lemma sweep_failed_one (d : list (string * conn)) net bad ws_bad :
  NoDup d.*1 →
  dget bad d = Some ws_bad →
  send_fails net ws_bad = true →
  (∀ u ws, (u, ws) ∈ d → u ≠ bad → send_fails net ws = false) →
  sweep_failed d None net = [bad].
Proof.
  induction d as [|[u ws] d IH]; intros Hnd Hget Hbad Hall; [done|].
  apply NoDup_cons in Hnd as [Hni Hnd]. simpl in Hget.
  unfold sweep_failed. rewrite bind_cons. simpl.
  destruct (decide (bad = u)) as [->|Hne].
  - simplify_eq. rewrite Hbad. simpl. f_equal.
    apply sweep_failed_none. intros u' ws' Hin. apply (Hall u'); [by right|].
    intros ->. apply Hni. apply list_elem_of_fmap. by exists (u, ws').
  - rewrite (Hall u ws) by (by left || congruence). simpl.
    apply IH; try done. intros u' ws' Hin. apply Hall. by right.
Qed.

Lemma sweep_sends_elem (d : list (string * conn)) message exclude_user net e :
  e ∈ sweep_sends d message exclude_user net ↔
  ∃ u ws, (u, ws) ∈ d ∧ excluded exclude_user u = false ∧
          client_connected (net ws) = true ∧
          e = ESend ws message (on_send (net ws)).
Proof.
  unfold sweep_sends. rewrite list_elem_of_bind. split.
  - intros ([u ws] & He & Hin).
    destruct (excluded exclude_user u) eqn:Hex; [by apply elem_of_nil in He|].
    destruct (client_connected (net ws)) eqn:Hcc; [|by apply elem_of_nil in He].
    apply list_elem_of_singleton in He. naive_solver.
  - intros (u & ws & Hin & Hex & Hcc & ->). exists (u, ws). split; [|done].
    rewrite Hex, Hcc. by apply list_elem_of_singleton.
Qed.

Lemma conn_of_elem self r u ws :
  wf self →
  conn_of self r u = Some ws ↔
  ∃ d, connections self !! r = Some d ∧ (u, ws) ∈ d.
Proof.
  intros Hwf. unfold conn_of. destruct (connections self !! r) as [d|] eqn:Hd; simpl.
  - destruct (wf_dict _ Hwf _ _ Hd) as [Hnd _]. split.
    + intros ?%dget_Some_elem. eauto.
    + intros (? & [= <-] & Hin). by apply elem_dget.
  - naive_solver.
Qed.
End broadcast_facts.

(** ** The claims about the registry and the broadcast *)

(** C1. After every sequence of register and unregister operations on
    the registry of a fresh manager, and so after each operation of the
    sequence, the three views agree: a room is in [user_rooms[u]] exactly
    when [u] is a key of [connections[room]], exactly when [u] is in
    [room_users[room]], and then one connection is registered for the
    pair.  No operation raises. *)
Theorem registry_views_consistent (ops : list registry_op) (k : nat) :
  ∃ self, run_ops (take k ops) init_manager = (Ok tt, self) ∧ consistent self.
Proof.
  destruct (run_ops_wf (take k ops) init_manager wf_init) as (self & Hrun & Hwf).
  eauto using wf_consistent.
Qed.

(** C8. After a disconnect, whatever operations came before it, the
    registry holds no empty container: no room maps to an empty dictionary
    or an empty user set, no user maps to an empty room set, so the
    presence enumeration of a room that is a key of the registry is never
    empty. *)
Theorem disconnect_leaves_no_empty (ops : list registry_op) (room_id : rkey)
    (user_id : string) :
  ∃ self,
    run_ops (ops ++ [OpDisconnect room_id user_id]) init_manager = (Ok tt, self) ∧
    no_empty self ∧
    (∀ r, is_Some (room_users self !! r) → get_online_users r self ≠ []) ∧
    (∀ u, is_Some (user_rooms self !! u) →
          elements (default ∅ (user_rooms self !! u)) ≠ []).
Proof.
  destruct (run_ops_wf (ops ++ [OpDisconnect room_id user_id]) init_manager wf_init)
    as (self & Hrun & Hwf).
  exists self. split; [done|].
  pose proof (wf_no_empty _ Hwf) as Hne. split; [done|].
  destruct Hne as (_ & Hus & Hrs). split.
  - intros r [us Hr]. unfold get_online_users. rewrite Hr. simpl.
    intros He. apply elements_empty_inv in He. apply (Hus _ _ Hr). by apply leibniz_equiv.
  - intros u [rs Hr]. rewrite Hr. simpl.
    intros He. apply elements_empty_inv in He. apply (Hrs _ _ Hr). by apply leibniz_equiv.
Qed.

(** C2. In a room whose snapshot [d] holds one connection whose send
    raises (the entry of [bad]) while every other entry is connected and
    its send succeeds, [broadcast] sends the payload to every entry, does
    not raise, and evicts the entry of [bad] and no other, after the sweep
    over the snapshot has finished. *)
Theorem broadcast_isolates_failure (w : World) (room_id : rkey) (message : json)
    (d : list (string * conn)) (bad : string) (ws_bad : conn) :
  wf (manager w) →
  connections (manager w) !! room_id = Some d →
  dget bad d = Some ws_bad →
  client_connected (net w ws_bad) = true →
  (∃ e, on_send (net w ws_bad) = SendRaises e) →
  (∀ u ws, (u, ws) ∈ d → u ≠ bad →
     client_connected (net w ws) = true ∧ on_send (net w ws) = Sent) →
  isolates_failure w room_id message d bad.
Proof.
  intros Hwf Hd Hbad Hcc [e He] Hgood.
  destruct (wf_dict _ Hwf _ _ Hd) as [Hnd _].
  assert (send_fails (net w) ws_bad = true) as Hf.
  { unfold send_fails. by rewrite Hcc, He. }
  assert (sweep_failed d None (net w) = [bad]) as Hfailed.
  { eapply sweep_failed_one; try done. intros u ws Hin Hne.
    destruct (Hgood u ws Hin Hne) as [? Hs]. unfold send_fails. rewrite Hs.
    by rewrite andb_false_r. }
  assert (sweep_sends d message None (net w)
          = map (λ '(u, ws), ESend ws message (on_send (net w ws))) d) as Hsends.
  { apply sweep_sends_all. intros u ws Hin.
    destruct (decide (u = bad)) as [->|Hne].
    - apply dget_Some_elem in Hbad.
      by rewrite (keys_functional d bad ws ws_bad Hnd Hin Hbad).
    - by destruct (Hgood u ws Hin Hne). }
  eexists _, _. split; [rewrite broadcast_sweep_run, Hfailed; done|].
  split; [done|]. split; [simpl; by rewrite Hsends|].
  split.
  { intros u ws Hin Hne. unfold since. simpl. rewrite drop_app_length, Hsends.
    destruct (Hgood u ws Hin Hne) as [_ Hs]. rewrite <- Hs.
    apply (list_elem_of_fmap_2 (λ '(u, ws), ESend ws message (on_send (net w ws)))
             d (u, ws) Hin). }
  split; [rewrite broadcast_run by done; rewrite Hd; simpl; rewrite Hfailed; done|].
  simpl. split; [done|]. split; [done|]. split; [done|]. split.
  - intros r u. by rewrite conn_of_disconnected.
  - apply wf_consistent. by apply wf_disconnected.
Qed.

(** C3. Registering the pair (room, user) a second time with another
    connection leaves exactly one entry for the pair, the latest
    connection, and a broadcast to the room that follows sends to the new
    connection and not to the replaced one.  A connection belongs to one
    session, hence to one user: the replaced connection is not the entry
    of another user of the room. *)
Theorem reconnect_replaces (self : ConnectionManager) (room_id : rkey)
    (user_id : string) (ws1 ws2 : conn) :
  wf self →
  ws1 ≠ ws2 →
  (∀ v, v ≠ user_id → conn_of self room_id v ≠ Some ws1) →
  replaced_by self room_id user_id ws1 ws2.
Proof.
  intros Hwf Hne Hown.
  pose proof (wf_connected ws1 room_id user_id self Hwf) as Hwf1.
  pose proof (wf_connected ws2 room_id user_id _ Hwf1) as Hwf2.
  exists (connected ws2 room_id user_id (connected ws1 room_id user_id self)).
  assert (conn_of (connected ws2 room_id user_id (connected ws1 room_id user_id self))
            room_id user_id = Some ws2) as Hc2.
  { rewrite conn_of_connected. by rewrite decide_True. }
  split.
  { unfold mbind, ST_bind. rewrite connect_run by done. by rewrite connect_run. }
  split.
  { pose proof Hc2 as Hc. apply conn_of_elem in Hc as (d & Hd & Hin); [|done].
    unfold entries. rewrite Hd. simpl.
    destruct (wf_dict _ Hwf2 _ _ Hd) as [Hnd _].
    apply filter_key_NoDup; [done|]. by apply elem_dget. }
  split; [done|]. split; [by apply wf_consistent|].
  intros w message exclude_user Hw. eexists. split.
  { apply broadcast_run. by rewrite Hw. }
  unfold since. simpl. rewrite drop_app_length. split.
  - intros m o (u & ws & Hin & _ & _ & [= <- ? ?])%sweep_sends_elem.
    assert (conn_of (manager w) room_id u = Some ws1) as Hc.
    { apply conn_of_elem; [by rewrite Hw|].
      destruct (connections (manager w) !! room_id); simpl in *; [eauto|].
      by apply elem_of_nil in Hin. }
    rewrite Hw, !conn_of_connected in Hc.
    destruct (decide (u = user_id)) as [->|Hu].
    + rewrite decide_True in Hc by done. congruence.
    + rewrite !decide_False in Hc by naive_solver. by apply (Hown u).
  - intros Hcc Hex. apply sweep_sends_elem. exists user_id, ws2.
    split; [|done].
    rewrite <- Hw in Hc2. apply conn_of_elem in Hc2 as (d & Hd & Hin); [|by rewrite Hw].
    by rewrite Hd.
Qed.

(** ** One turn of a per-room session *)

Section turn_facts.
Variable rt : Runtime.
Implicit Types (s : Joined) (w : World) (data : json).

Lemma jeq_str_true v x : jeq_str v x = true → v = JStr x.
Proof.
  destruct v; simpl; try done. by intros ->%bool_decide_eq_true.
Qed.

Lemma lstrip_list_blank l :
  Forall (λ a, py_isspace a = true) l → lstrip_list l = [].
Proof. induction 1 as [|a l Ha _ IH]; simpl; [done|]. by rewrite Ha. Qed.

Lemma strip_whitespace_only c : whitespace_only c → strip c = "".
Proof.
  intros H. unfold strip. by rewrite (lstrip_list_blank _ H).
Qed.

Lemma since_emits es w : since w (emits es w) = es.
Proof. unfold since. simpl. apply drop_app_length. Qed.

Lemma send_json_run websocket message w :
  send_json websocket message w
  = (match on_send (net w websocket) with
     | Sent => Ok tt
     | SendRaises e => Raise e
     end,
     emits [ESend websocket message (on_send (net w websocket))] w).
Proof. done. Qed.

Lemma error_event_fields text : error_fields (error_event text) text.
Proof. by split. Qed.

Lemma presence_event_fields action user users :
  presence_fields rt (presence rt action user users) action user users.
Proof. do 3 (split; [done|]). by eexists. Qed.

Lemma ack_event_fields fields message :
  ack_fields rt (ack_event rt (default JNull (dget "client_msg_id" fields)) message)
    (JObj fields) message.
Proof. by repeat split. Qed.

Lemma message_copy_fields message db :
  copy_fields rt (message_copy rt message db) message.
Proof. split; [done|]. by eexists. Qed.

(** The [except] clauses only answer the client. *)
Lemma chat_except_spec s e w r w' :
  chat_except rt s e w = (r, w') →
  ∃ rest,
    w' = emits rest w ∧ Forall (error_reply (j_websocket s)) rest.
Proof.
  unfold chat_except, error_reply. st_unfold.
  destruct e; simpl; rewrite ?send_json_run;
    try (destruct (on_send (net w (j_websocket s))); simpl);
    intros [= <- <-];
    try (exists []; split; [by rewrite emits_nil | by constructor]);
    (eexists [_]; split; [done|]; repeat constructor; eauto).
Qed.

Lemma chat_turn_ok s data w w1 :
  chat_handle rt s data w = (Ok tt, w1) →
  chat_turn rt s (Recv data) w = (Ok Continue, w1).
Proof. intros Hh. unfold chat_turn. st_unfold. by rewrite Hh. Qed.

Lemma chat_turn_raise s data w e w1 :
  chat_handle rt s data w = (Raise e, w1) →
  chat_turn rt s (Recv data) w = chat_except rt s e w1.
Proof. intros Hh. unfold chat_turn. st_unfold. by rewrite Hh. Qed.

(** A turn whose handler only sends the error event [text]. *)
Lemma chat_turn_reject s data text w :
  chat_handle rt s data w = send_json (j_websocket s) (error_event text) w →
  answered_error_only rt s data text w.
Proof.
  unfold answered_error_only. rewrite send_json_run. intros Hh.
  destruct (on_send (net w (j_websocket s))) as [|e] eqn:Hs.
  - eexists _, _, []. rewrite (chat_turn_ok _ _ _ _ Hh).
    do 4 (split; [done|]). split; [apply error_event_fields|]. by simpl.
  - rewrite (chat_turn_raise _ _ _ _ _ Hh).
    destruct (chat_except rt s e _) as [r w'] eqn:He.
    apply chat_except_spec in He as (rest & -> & Hrest).
    eexists r, _, rest. rewrite emits_emits.
    do 4 (split; [done|]). split; [apply error_event_fields|]. by simpl.
Qed.

Lemma chat_handle_message s data w :
  message_event data →
  chat_handle rt s data w
  = (if negb (j_can_send s) then
       send_json (j_websocket s) (error_event "VIEWERs cannot send messages")
     else
       raw ← lift (jget "content" (JStr "") data);
       text ← lift (match raw with
                    | JStr c => Ok (strip c)
                    | _ => Raise AttributeError
                    end);
       if bool_decide (text = "") then
         send_json (j_websocket s) (error_event "Message content cannot be empty")
       else chat_accept_message rt s data text) w.
Proof.
  intros (t & Ht & ->%jeq_str_true). unfold chat_handle. st_unfold.
  rewrite Ht. simpl. done.
Qed.

Lemma chat_handle_viewer s data w :
  message_event data → j_can_send s = false →
  chat_handle rt s data w
  = send_json (j_websocket s) (error_event "VIEWERs cannot send messages") w.
Proof. intros Hm Hc. rewrite chat_handle_message by done. by rewrite Hc. Qed.

Lemma chat_handle_blank s data c w :
  message_event data → j_can_send s = true →
  jget "content" (JStr "") data = Ok (JStr c) → whitespace_only c →
  chat_handle rt s data w
  = send_json (j_websocket s) (error_event "Message content cannot be empty") w.
Proof.
  intros Hm Hc Hg Hb. rewrite chat_handle_message by done. rewrite Hc. simpl.
  st_unfold. rewrite Hg. simpl. by rewrite strip_whitespace_only.
Qed.

(** C5, on the per-room endpoint. For a session whose membership role is
    VIEWER, every inbound message event is answered with an error event
    to that session and has no other effect: the registry and the
    message store are unchanged and nothing is sent to anyone else. *)
Theorem viewer_message_rejected (s : Joined) (membership : ChatRoomMember)
    (data : json) (w : World) :
  role membership = RoomRole.VIEWER →
  j_can_send s = can_send_of membership →
  message_event data →
  answered_error_only rt s data "VIEWERs cannot send messages" w.
Proof.
  intros Hrole Hcan Hm.
  assert (j_can_send s = false) as Hc.
  { rewrite Hcan. unfold can_send_of. by rewrite Hrole. }
  apply chat_turn_reject. by apply chat_handle_viewer.
Qed.

(** C6. On the per-room endpoint a message event whose content is empty
    or only whitespace is answered with an error event and reaches
    neither the message store nor any other connection.  On the generic
    endpoint a message event whose content is the empty string has no
    effect at all. *)
Theorem blank_message_rejected :
  (∀ (s : Joined) (data : json) (c : string) (w : World),
     message_event data →
     jget "content" (JStr "") data = Ok (JStr c) →
     whitespace_only c →
     ∃ text, answered_error_only rt s data text w) ∧
  (∀ (websocket : conn) (user : ChatUser) (data payload : json) (w : World),
     jget "type" JNull data = Ok (JStr "message") →
     jget "payload" (JObj []) data = Ok payload →
     jget "content" JNull payload = Ok (JStr "") →
     main_handle rt websocket user data w = (Ok tt, w)).
Proof.
  split.
  - intros s data c w Hm Hg Hb. destruct (j_can_send s) eqn:Hc.
    + exists "Message content cannot be empty".
      apply chat_turn_reject. by eapply chat_handle_blank.
    + exists "VIEWERs cannot send messages".
      apply chat_turn_reject. by eapply chat_handle_viewer.
  - intros websocket user data payload w Ht Hp Hc.
    unfold main_handle. st_unfold. rewrite Ht. simpl. rewrite Hp. simpl.
    destruct payload; try done. simpl in *. injection Hc as ->. simpl.
    by rewrite andb_false_r.
Qed.

(** An accepted message: stored, acknowledged, then broadcast. *)
Lemma chat_accept_message_run s fields text ref w :
  wf (manager w) →
  resolve_reply rt (default JNull (dget "reply_to_id" fields)) = Ok ref →
  let ws := j_websocket s in
  let stored :=
    create_chat_message (store w) (j_room_uuid s) (cu_id (j_user s)) (JStr text)
      (cu_type (j_user s)) ref in
  let ack := ack_event rt (default JNull (dget "client_msg_id" fields)) stored.1 in
  let copy := message_copy rt stored.1 stored.2 in
  let d := default [] (connections (manager w) !! KStr (j_room_id s)) in
  chat_accept_message rt s (JObj fields) text w
  = match on_send (net w ws) with
    | Sent =>
        (Ok tt,
         set_manager (evict (KStr (j_room_id s)) (sweep_failed d None (net w)))
           (emits (ESend ws ack Sent :: sweep_sends d copy None (net w))
              (set_store (λ _, stored.2) w)))
    | SendRaises e =>
        (Raise e, emits [ESend ws ack (SendRaises e)] (set_store (λ _, stored.2) w))
    end.
Proof.
  intros Hwf Href. simpl. unfold chat_accept_message. st_unfold. simpl.
  rewrite Href. simpl. unfold send_json. simpl.
  destruct (on_send (net w (j_websocket s))) as [|e] eqn:Hs; simpl; [|done].
  rewrite broadcast_run by done. simpl. by rewrite emit_emits, emits_emits.
Qed.

Lemma json_type_differs (a b : string) (xs ys : list (string * json)) :
  a ≠ b → JObj (("type", JStr a) :: xs) ≠ JObj (("type", JStr b) :: ys).
Proof. congruence. Qed.

(** C7. For an accepted message event (a sender who may send, a content
    that is not blank, a reply reference that resolves), among the events
    the turn sends, the broadcast copy of the stored message goes to the
    sender's connection only after the ack, which echoes the client's
    [client_msg_id] and carries the id the store assigned, was delivered
    to it. *)
Theorem ack_precedes_broadcast (s : Joined) (fields : list (string * json))
    (c : string) (ref : reply_ref) (w : World) :
  wf (manager w) →
  j_can_send s = true →
  dget "type" fields = Some (JStr "message") →
  dget "content" fields = Some (JStr c) →
  strip c ≠ "" →
  resolve_reply rt (default JNull (dget "reply_to_id" fields)) = Ok ref →
  ack_first rt s fields (strip c) ref w.
Proof.
  intros Hwf Hcan Htype Hcontent Hstrip Href. unfold ack_first.
  set (ws := j_websocket s).
  set (stored := create_chat_message _ _ _ _ _ _).
  set (ack := ack_event _ _ _).
  set (copy := message_copy _ _ _).
  assert (message_event (JObj fields)) as Hm.
  { exists (JStr "message"). simpl. by rewrite Htype. }
  assert (chat_handle rt s (JObj fields) w
          = chat_accept_message rt s (JObj fields) (strip c) w) as Hh.
  { rewrite chat_handle_message by done. rewrite Hcan. simpl. st_unfold. simpl.
    rewrite Hcontent. simpl. by rewrite bool_decide_eq_false_2. }
  rewrite (chat_accept_message_run s fields (strip c) ref w Hwf Href) in Hh.
  fold ws stored ack copy in Hh.
  assert (ack ≠ copy) as Hac by (by apply json_type_differs).
  destruct (on_send (net w ws)) as [|e] eqn:Hs.
  - eexists _, _. rewrite (chat_turn_ok _ _ _ _ Hh).
    split; [done|]. split; [done|]. split; [done|]. split; [done|].
    split; [apply ack_event_fields|]. split; [apply message_copy_fields|].
    unfold since. simpl. rewrite drop_app_length. split.
    + intros [|i] o Hi; simpl in *; [congruence|]. split; [done|lia].
    + intros _ Hcc Hreg. split; [done|].
      assert (ESend ws copy Sent ∈
                sweep_sends (default [] (connections (manager w) !! KStr (j_room_id s)))
                  copy None (net w)) as Hin.
      { apply sweep_sends_elem. exists (user_key rt (j_user s)), ws.
        apply conn_of_elem in Hreg as (d & Hd & Hin); [|done].
        rewrite Hd. simpl. by rewrite Hs. }
      apply list_elem_of_lookup in Hin as [i Hi]. exists (S i). split; [lia|done].
  - rewrite (chat_turn_raise _ _ _ _ _ Hh).
    destruct (chat_except rt s e _) as [r w'] eqn:He.
    apply chat_except_spec in He as (rest & -> & Hrest).
    eexists _, _. split; [done|]. split; [done|]. split; [done|]. split; [done|].
    split; [apply ack_event_fields|]. split; [apply message_copy_fields|].
    rewrite emits_emits. unfold since. simpl. rewrite drop_app_length. split; [|done].
    intros [|i] o Hi; simpl in *; [congruence|].
    apply list_elem_of_lookup_2 in Hi.
    rewrite Forall_forall in Hrest. by destruct (Hrest _ Hi) as (text & o' & [=]).
Qed.

(** C10, at an event whose [reply_to_id] is a number: [UUID(123)] raises
    [AttributeError], which [except ValueError] does not catch, so the
    turn answers with an error event and stores nothing. *)
Theorem numeric_reply_rejected (s : Joined) (w : World) :
  j_can_send s = true →
  on_send (net w (j_websocket s)) = Sent →
  chat_turn rt s
    (Recv (JObj [("type", JStr "message"); ("content", JStr "hi");
                 ("reply_to_id", JInt 123)])) w
  = (Ok Continue,
     emits [ESend (j_websocket s) (error_event (exn_str rt AttributeError)) Sent] w).
Proof.
  intros Hcan Hs. unfold chat_turn, chat_handle, chat_accept_message. st_unfold. simpl.
  rewrite Hcan. simpl. st_unfold. rewrite send_json_run, Hs. done.
Qed.

(** The case the [except ValueError] does cover: an unparseable string. *)
Lemma unparseable_reply_string (x : string) :
  x ≠ "" → uuid_of_str rt x = None →
  resolve_reply rt (JStr x) = Ok (ReplyRaw JNull).
Proof.
  intros Hx Hp. unfold resolve_reply. simpl.
  rewrite bool_decide_eq_false_2 by done. simpl. by rewrite Hp.
Qed.
End turn_facts.

(** ** Token validation *)

Section token_facts.
Variable rt : Runtime.

Lemma active_Some o u : active o = Some u → o = Some u ∧ is_active u = true.
Proof.
  destruct o as [u'|]; simpl; [|done].
  destruct (is_active u') eqn:Ha; [|done]. by intros [= <-].
Qed.

Lemma head_filter_Some {A} (P : A → Prop) `{∀ x, Decision (P x)} (l : list A) x :
  head (filter P l) = Some x → x ∈ l ∧ P x.
Proof.
  intros Hh. assert (x ∈ filter P l) as Hin.
  { destruct (filter P l); simplify_eq/=. left. }
  apply list_elem_of_filter in Hin. naive_solver.
Qed.

Lemma scalar_one_or_none_Some {A} (P : A → Prop) `{∀ x, Decision (P x)}
    (l : list A) x :
  scalar_one_or_none (filter P l) = Ok (Some x) → x ∈ l ∧ P x.
Proof.
  intros Hh. assert (x ∈ filter P l) as Hin.
  { destruct (filter P l) as [|a [|b l']]; simplify_eq/=. left. }
  apply list_elem_of_filter in Hin. naive_solver.
Qed.

Lemma token_lookup_active token db u :
  token_lookup rt token db = Ok (Some u) → is_active u = true.
Proof.
  unfold token_lookup. destruct (decode_token rt token) as [payload|]; [|done].
  destruct (jget "sub" JNull payload) as [user_id|]; simpl; [|done].
  destruct (truthy user_id); simpl; [|done].
  destruct (UUID_of rt user_id) as [user_uuid|e] eqn:Hu; simpl.
  - destruct (active (get_chat_user_by_id db user_uuid)) as [u'|] eqn:Ha.
    + intros [= <-]. by apply active_Some in Ha as [_ ?].
    + destruct user_id; try done.
      destruct (get_chat_user_by_username db s) as [o|]; simpl; [|done].
      destruct (active o) as [u'|] eqn:Ha'.
      * intros [= <-]. by apply active_Some in Ha' as [_ ?].
      * destruct (get_chat_user_by_slug db s) as [o'|]; simpl; [|done].
        intros [= Ha'']. by apply active_Some in Ha'' as [_ ?].
  - destruct e; simpl; try done.
    destruct user_id; try done.
    destruct (get_chat_user_by_username db s) as [o|]; simpl; [|done].
    destruct (active o) as [u'|] eqn:Ha'.
    + intros [= <-]. by apply active_Some in Ha' as [_ ?].
    + destruct (get_chat_user_by_slug db s) as [o'|]; simpl; [|done].
      intros [= Ha'']. by apply active_Some in Ha'' as [_ ?].
Qed.

Lemma validated_user_active token db u :
  get_current_chat_user_from_token rt token db = Some u → is_active u = true.
Proof.
  unfold get_current_chat_user_from_token.
  destruct (token_lookup rt token db) as [o|] eqn:Hl; [|done].
  intros ->. by eapply token_lookup_active.
Qed.

Lemma inactive_not_active o :
  (∀ u, o = Some u → is_active u = false) → active o = None.
Proof.
  intros Hin. destruct o as [u|]; simpl; [|done]. by rewrite (Hin u).
Qed.

Lemma all_inactive_rejected token payload sub db :
  jwt_decode rt token = Some payload →
  jget "sub" JNull payload = Ok (JStr sub) →
  (∀ u, resolves_to rt sub db u → is_active u = false) →
  get_current_chat_user_from_token rt token db = None.
Proof.
  intros Hdec Hsub Hin.
  unfold get_current_chat_user_from_token, token_lookup, decode_token.
  rewrite Hdec, Hsub. simpl.
  destruct (bool_decide (sub = "")); simpl; [done|].
  assert (∀ o, get_chat_user_by_username db sub = Ok o → active o = None) as Hname.
  { intros o Ho. apply inactive_not_active. intros u ->.
    apply scalar_one_or_none_Some in Ho as [? ?]. apply Hin. split; auto. }
  assert (∀ o, get_chat_user_by_slug db sub = Ok o → active o = None) as Hslug.
  { intros o Ho. apply inactive_not_active. intros u ->.
    apply scalar_one_or_none_Some in Ho as [? ?]. apply Hin. split; auto. }
  assert (match get_chat_user_by_username db sub ≫= (λ user,
            match active user with
            | Some user => Ok (Some user)
            | None => user ← get_chat_user_by_slug db sub; Ok (active user)
            end) with
          | Ok user => user
          | Raise _ => None
          end = None) as Hrest.
  { destruct (get_chat_user_by_username db sub) as [o|] eqn:Ho; simpl; [|done].
    rewrite (Hname o) by done.
    destruct (get_chat_user_by_slug db sub) as [o'|] eqn:Ho'; simpl; [|done].
    by apply Hslug. }
  destruct (uuid_of_str rt sub) as [user_uuid|] eqn:Hu; simpl; [|done].
  rewrite inactive_not_active; [done|].
  intros u Hg. apply head_filter_Some in Hg as [? ?]. apply Hin. split; auto.
  left. congruence.
Qed.

Lemma unique_row {A} (P : A → Prop) `{∀ x, Decision (P x)} (l : list A) :
  (length (filter P l) ≤ 1)%nat →
  ∃ o, scalar_one_or_none (filter P l) = Ok o ∧
       head (filter P l) = o ∧
       ∀ x, x ∈ l → P x → o = Some x.
Proof.
  intros Hlen.
  assert (∀ x, x ∈ l → P x → x ∈ filter P l) as Hin.
  { intros x ? ?. by apply list_elem_of_filter. }
  destruct (filter P l) as [|y [|z rest]]; simpl in Hlen; [| |lia].
  - exists None. split; [done|]. split; [done|].
    intros x Hx HP. exfalso. by apply (elem_of_nil x), Hin.
  - exists (Some y). split; [done|]. split; [done|].
    intros x Hx HP. f_equal. symmetry. by apply list_elem_of_singleton, Hin.
Qed.

Lemma active_of_active u : is_active u = true → active (Some u) = Some u.
Proof. simpl. by intros ->. Qed.

(** With the uniqueness of the schema no lookup raises, so a subject that
    resolves to some active record is validated. *)
Lemma active_resolves_validated token payload sub db u :
  unique_users db →
  jwt_decode rt token = Some payload →
  jget "sub" JNull payload = Ok (JStr sub) →
  sub ≠ "" →
  resolves_to rt sub db u →
  is_active u = true →
  ∃ u', get_current_chat_user_from_token rt token db = Some u' ∧
        is_active u' = true.
Proof.
  intros (Hid & Hname & Hslug) Hdec Hsub Hne [Hin Hres] Hact.
  destruct (unique_row _ _ (Hname sub)) as (on & Hn & _ & Hnu).
  destruct (unique_row _ _ (Hslug sub)) as (os & Hs & _ & Hsu).
  assert (username u = sub ∨ bot_slug u = Some sub →
          ∃ u',
            match
              user ← get_chat_user_by_username db sub;
              match active user with
              | Some user => Ok (Some user)
              | None => user ← get_chat_user_by_slug db sub; Ok (active user)
              end
            with
            | Ok user => user
            | Raise _ => None
            end = Some u' ∧ is_active u' = true) as Hrest.
  { intros Hwhich. unfold get_chat_user_by_username, get_chat_user_by_slug.
    rewrite Hn. simpl. destruct (active on) as [user|] eqn:Ha.
    - apply active_Some in Ha as [_ ?]. eauto.
    - rewrite Hs. simpl. destruct Hwhich as [Hu|Hu].
      + rewrite (Hnu u Hin Hu), (active_of_active _ Hact) in Ha. done.
      + rewrite (Hsu u Hin Hu), (active_of_active _ Hact). eauto. }
  unfold get_current_chat_user_from_token, token_lookup, decode_token.
  rewrite Hdec, Hsub. simpl. rewrite bool_decide_eq_false_2 by done. simpl.
  destruct (uuid_of_str rt sub) as [user_uuid|] eqn:Hu; simpl.
  - destruct (unique_row _ _ (Hid user_uuid)) as (oi & _ & Hhead & Hiu).
    unfold get_chat_user_by_id. rewrite Hhead.
    destruct (active oi) as [user|] eqn:Ha.
    + apply active_Some in Ha as [_ ?]. eauto.
    + apply Hrest.
      destruct Hres as [Hi|[?|?]]; [|by left|by right].
      injection Hi as Hi. rewrite (Hiu u Hin (eq_sym Hi)), (active_of_active _ Hact) in Ha.
      done.
  - apply Hrest.
    destruct Hres as [?|[?|?]]; [done|by left|by right].
Qed.

Lemma unvalidated_chat_rejected websocket room_id token script w :
  get_current_chat_user_from_token rt token (store w) = None →
  ∃ code reason,
    websocket_chat rt websocket room_id token script w
    = (Ok Rejected, emits [EClose websocket code reason] w).
Proof.
  intros Hnone. unfold websocket_chat.
  destruct (uuid_of_str rt room_id) as [room_uuid|]; [|by eexists _, _].
  st_unfold. simpl.
  destruct (get_chat_room_by_id (store w) room_uuid); [|by eexists _, _].
  rewrite Hnone. by eexists _, _.
Qed.

Lemma unvalidated_main_rejected websocket token script w :
  get_current_chat_user_from_token rt token (store w) = None →
  websocket_main rt websocket token script w
  = (Ok Rejected, emits [EClose websocket 4001 "Invalid or expired token"] w).
Proof.
  intros Hnone. unfold websocket_main. st_unfold. simpl. by rewrite Hnone.
Qed.

Lemma accepted_chat_validated websocket room_id token script w r w' :
  websocket_chat rt websocket room_id token script w = (r, w') →
  EAccept websocket ∈ since w w' →
  ∃ user, get_current_chat_user_from_token rt token (store w) = Some user.
Proof.
  destruct (get_current_chat_user_from_token rt token (store w)) as [user|] eqn:Hu;
    [eauto|].
  destruct (unvalidated_chat_rejected websocket room_id token script w Hu)
    as (code & reason & ->).
  intros [= <- <-]. rewrite since_emits.
  intros [=]%list_elem_of_singleton.
Qed.

(** C9. Token validation never returns an inactive user; when every
    record the subject resolves to, by id, by username or by slug, is
    inactive, it returns no user; when some record it resolves to is
    active, the subject being a string that is not empty and ids,
    usernames and bot slugs being unique as the schema declares, it
    returns an active user; and without a user either endpoint closes the
    connection without accepting it or touching the registry, so a
    session is accepted only for an active user. *)
Theorem inactive_user_never_joins :
  (∀ token db u,
     get_current_chat_user_from_token rt token db = Some u → is_active u = true) ∧
  (∀ token payload sub db,
     jwt_decode rt token = Some payload →
     jget "sub" JNull payload = Ok (JStr sub) →
     (∀ u, resolves_to rt sub db u → is_active u = false) →
     get_current_chat_user_from_token rt token db = None) ∧
  (∀ token payload sub db u,
     unique_users db →
     jwt_decode rt token = Some payload →
     jget "sub" JNull payload = Ok (JStr sub) →
     sub ≠ "" →
     resolves_to rt sub db u →
     is_active u = true →
     ∃ u', get_current_chat_user_from_token rt token db = Some u' ∧
           is_active u' = true) ∧
  (∀ websocket room_id token script w,
     get_current_chat_user_from_token rt token (store w) = None →
     ∃ code reason,
       websocket_chat rt websocket room_id token script w
       = (Ok Rejected, emits [EClose websocket code reason] w)) ∧
  (∀ websocket token script w,
     get_current_chat_user_from_token rt token (store w) = None →
     websocket_main rt websocket token script w
     = (Ok Rejected, emits [EClose websocket 4001 "Invalid or expired token"] w)) ∧
  (∀ websocket room_id token script w r w',
     websocket_chat rt websocket room_id token script w = (r, w') →
     EAccept websocket ∈ since w w' →
     ∃ user, get_current_chat_user_from_token rt token (store w) = Some user ∧
             is_active user = true).
Proof.
  split; [apply validated_user_active|].
  split; [apply all_inactive_rejected|].
  split; [apply active_resolves_validated|].
  split; [apply unvalidated_chat_rejected|].
  split; [apply unvalidated_main_rejected|].
  intros websocket room_id token script w r w' Hrun Hacc.
  destruct (accepted_chat_validated _ _ _ _ _ _ _ Hrun Hacc) as [user Hu].
  eauto using validated_user_active.
Qed.
End token_facts.

(** ** Sessions keep the registry invariant *)

#[global] Instance shrinks_preorder : PreOrder shrinks.
Proof. split; unfold shrinks; [intros ?; auto | intros ? ? ? H1 H2; auto]. Qed.

#[global] Instance anyhow_preorder : PreOrder anyhow.
Proof. by split. Qed.

Section keeps_facts.
Context (R : relation ConnectionManager) `{!PreOrder R}.

Lemma keeps_ret {A} (a : A) : keeps R (mret a).
Proof. intros w r w' Hwf [= <- <-]. done. Qed.

Lemma keeps_lift {A} (x : res A) : keeps R (lift x).
Proof. intros w r w' Hwf [= <- <-]. done. Qed.

Lemma keeps_raise {A} e : keeps R (raise e : ST World A).
Proof. intros w r w' Hwf [= <- <-]. done. Qed.

Lemma keeps_get : keeps R get.
Proof. intros w r w' Hwf [= <- <-]. done. Qed.

Lemma keeps_gets {A} (f : World → A) : keeps R (gets f).
Proof. intros w r w' Hwf [= <- <-]. done. Qed.

Lemma keeps_modify (f : World → World) :
  (∀ w, manager (f w) = manager w) → keeps R (modify f).
Proof. intros Hf w r w' Hwf [= <- <-]. rewrite Hf. done. Qed.

Lemma keeps_send_json websocket message : keeps R (send_json websocket message).
Proof. intros w r w' Hwf [= <- <-]. done. Qed.

Lemma keeps_bind {A B} (m : ST World A) (f : A → ST World B) :
  keeps R m → (∀ a, keeps R (f a)) → keeps R (m ≫= f).
Proof.
  intros Hm Hf w r w' Hwf. unfold mbind, ST_bind.
  destruct (m w) as [[a|e] w1] eqn:Hmw.
  - destruct (Hm _ _ _ Hwf Hmw) as [Hwf1 HR1]. intros Hfw.
    destruct (Hf a _ _ _ Hwf1 Hfw) as [Hwf2 HR2]. split; [done|].
    by etrans.
  - intros [= <- <-]. by apply (Hm _ _ _ Hwf Hmw).
Qed.

Lemma keeps_try {A} (m : ST World A) : keeps R m → keeps R (try_ m).
Proof.
  intros Hm w r w' Hwf. unfold try_. destruct (m w) as [r1 w1] eqn:Hmw.
  intros [= <- <-]. by apply (Hm _ _ _ Hwf Hmw).
Qed.

Lemma keeps_for_each {A} (xs : list A) (body : A → ST World unit) :
  (∀ x, keeps R (body x)) → keeps R (for_each xs body).
Proof.
  intros Hb. induction xs as [|x xs IH]; simpl.
  - apply keeps_ret.
  - apply keeps_bind; auto.
Qed.
End keeps_facts.

Lemma keeps_weaken {A} (c : ST World A) : keeps shrinks c → keeps anyhow c.
Proof. intros Hc w r w' Hwf Hrun. by destruct (Hc _ _ _ Hwf Hrun). Qed.

Lemma shrinks_disconnected r u self : shrinks self (disconnected r u self).
Proof.
  intros r' u' ws. rewrite conn_of_disconnected. by case_decide.
Qed.

Lemma shrinks_evict r users self : shrinks self (evict r users self).
Proof.
  intros r' u' ws. rewrite conn_of_evict. by case_decide.
Qed.

Lemma keeps_disconnect r u : keeps shrinks (on_manager (disconnect r u)).
Proof.
  intros w res w' Hwf. unfold on_manager. rewrite disconnect_run by done.
  intros [= <- <-]. simpl. split; [by apply wf_disconnected | apply shrinks_disconnected].
Qed.

Lemma keeps_connect ws r u : keeps anyhow (on_manager (connect ws r u)).
Proof.
  intros w res w' Hwf. unfold on_manager. rewrite connect_run by done.
  intros [= <- <-]. simpl. split; [by apply wf_connected | done].
Qed.

Lemma keeps_broadcast r message exclude_user :
  keeps shrinks (broadcast r message exclude_user).
Proof.
  intros w res w' Hwf. rewrite broadcast_run by done.
  intros [= <- <-]. simpl. split; [by apply wf_evict | apply shrinks_evict].
Qed.

Ltac keeps_step :=
  lazymatch goal with
  | |- PreOrder _ => apply _
  | |- keeps _ (mret _) => apply keeps_ret
  | |- keeps _ (lift _) => apply keeps_lift
  | |- keeps _ (raise _) => apply keeps_raise
  | |- keeps _ get => apply keeps_get
  | |- keeps _ (gets _) => apply keeps_gets
  | |- keeps _ (send_json _ _) => apply keeps_send_json
  | |- keeps _ (modify _) => apply keeps_modify; [..|done]
  | |- keeps _ (try_ _) => apply keeps_try
  | |- keeps _ (for_each _ _) => apply keeps_for_each; [..|intros ?]
  | |- keeps shrinks (broadcast _ _ _) => apply keeps_broadcast
  | |- keeps anyhow (broadcast _ _ _) => apply keeps_weaken, keeps_broadcast
  | |- keeps shrinks (on_manager (disconnect _ _)) => apply keeps_disconnect
  | |- keeps anyhow (on_manager (disconnect _ _)) => apply keeps_weaken, keeps_disconnect
  | |- keeps anyhow (on_manager (connect _ _ _)) => apply keeps_connect
  | |- keeps _ (_ ≫= _) => apply keeps_bind; [..|intros ?]
  | |- keeps _ (match ?x with _ => _ end) => destruct x
  | |- keeps _ (let '(_, _) := ?x in _) => destruct x
  end.

Section session_facts.
Variable rt : Runtime.

Lemma keeps_online_users room_id : keeps shrinks (online_users rt room_id).
Proof. unfold online_users. repeat keeps_step. Qed.

Lemma keeps_chat_handle s data : keeps shrinks (chat_handle rt s data).
Proof. unfold chat_handle, chat_accept_message. repeat keeps_step. Qed.

Lemma keeps_chat_turn s r : keeps shrinks (chat_turn rt s r).
Proof.
  unfold chat_turn, chat_except. repeat keeps_step.
  all: try apply keeps_chat_handle.
Qed.

Lemma keeps_chat_loop s script : keeps shrinks (chat_loop rt s script).
Proof.
  induction script as [|[r|c st] script IH]; simpl; repeat keeps_step; try done.
  apply keeps_chat_turn.
Qed.

Lemma keeps_chat_greet s : keeps shrinks (chat_greet rt s).
Proof.
  unfold chat_greet. repeat keeps_step. apply keeps_online_users.
Qed.

Lemma keeps_main_handle websocket user data :
  keeps anyhow (main_handle rt websocket user data).
Proof.
  unfold main_handle, join_room, leave_room, send_message, send_typing.
  repeat keeps_step.
Qed.

Lemma keeps_main_loop websocket user script :
  keeps anyhow (main_loop rt websocket user script).
Proof.
  induction script as [|[[data|e]|c st] script IH]; simpl; repeat keeps_step; try done.
  apply keeps_main_handle.
Qed.

Lemma keeps_main_body websocket user script :
  keeps anyhow (main_body rt websocket user script).
Proof.
  unfold main_body. repeat keeps_step. apply keeps_main_loop.
Qed.

Lemma users_parse_shrinks self self' :
  shrinks self self' → users_parse rt self → users_parse rt self'.
Proof.
  intros Hs Hp r u [ws Hc]. apply (Hp r). rewrite (Hs _ _ _ Hc). eauto.
Qed.

Lemma online_users_of_run uids db acc :
  (∀ uid, uid ∈ uids → is_Some (uuid_of_str rt uid)) →
  online_users_of rt uids db acc = Ok (acc ++ online_list rt db uids).
Proof.
  revert acc. induction uids as [|uid uids IH]; intros acc Hall; simpl.
  - by rewrite app_nil_r.
  - destruct (Hall uid) as [user_uuid Hu]; [left|].
    unfold online_list. simpl. rewrite Hu. simpl.
    destruct (get_chat_user_by_id db user_uuid) as [u|]; simpl.
    + rewrite IH by (intros; apply Hall; by right). by rewrite <- app_assoc.
    + apply IH. intros; apply Hall; by right.
Qed.

Lemma online_ids_registered self r uid :
  wf self → uid ∈ get_online_users r self → is_Some (conn_of self r uid).
Proof.
  intros Hwf. unfold get_online_users. rewrite elem_of_elements.
  intros Hin. apply conn_of_is_Some.
  destruct (wf_consistent _ Hwf r uid) as (_ & Hiff & _). apply Hiff.
  unfold in_room_users. destruct (room_users self !! r) as [us|]; simpl in *.
  - eauto.
  - set_solver.
Qed.

Lemma try_finally_exit body fin w r w' :
  try_finally body fin w = (r, w') →
  r ≠ Ok Open →
  ∃ rb w1 rf,
    body w = (rb, w1) ∧ rb ≠ Ok Pending ∧ fin w1 = (rf, w') ∧
    (rf = Ok tt → r = ended rb).
Proof.
  unfold try_finally. destruct (body w) as [[[]|e] w1] eqn:Hb.
  - destruct (fin w1) as [[[]|e] w2] eqn:Hf; intros [= <- <-] _;
      eexists _, _, _; (split; [done|]); (split; [done|]); (split; [done|]); done.
  - by intros [= <- <-].
  - destruct (fin w1) as [[[]|e'] w2] eqn:Hf; intros [= <- <-] _;
      eexists _, _, _; (split; [done|]); (split; [done|]); (split; [done|]); done.
Qed.

Lemma chat_finally_run s w1 :
  wf (manager w1) →
  users_parse rt (manager w1) →
  let room := KStr (j_room_id s) in
  let self1 := disconnected room (user_key rt (j_user s)) (manager w1) in
  let users := online_list rt (store w1) (get_online_users room self1) in
  let d1 := default [] (connections self1 !! room) in
  let event := presence rt "left" (j_user s) users in
  chat_finally rt s w1
  = (Ok tt,
     set_manager (λ _, evict room (sweep_failed d1 None (net w1)) self1)
       (emits (sweep_sends d1 event None (net w1) ++ [EDbClose]) w1)).
Proof.
  intros Hwf Hp room self1 users d1 event.
  assert (wf self1) as Hwf1 by (by apply wf_disconnected).
  unfold chat_finally, online_users. st_unfold.
  rewrite disconnect_run by done. simpl. fold room self1.
  rewrite online_users_of_run.
  2:{ intros uid Hin. apply (online_ids_registered _ _ _ Hwf1) in Hin.
      eapply users_parse_shrinks; [apply shrinks_disconnected | done | done]. }
  simpl. fold users event.
  rewrite broadcast_run by done. simpl. fold d1.
  unfold set_manager, emit, emits. simpl. by rewrite <- app_assoc.
Qed.

Lemma leave_all_run rooms user_id w :
  wf (manager w) →
  for_each rooms (λ room_id, on_manager (disconnect room_id user_id)) w
  = (Ok tt, set_manager (leave_all rooms user_id) w).
Proof.
  revert w. induction rooms as [|r rooms IH]; intros w Hwf; simpl.
  - by destruct w.
  - unfold mbind, ST_bind, on_manager. rewrite disconnect_run by done.
    rewrite IH by (simpl; by apply wf_disconnected). by destruct w.
Qed.

Lemma wf_leave_all rooms user_id self : wf self → wf (leave_all rooms user_id self).
Proof.
  revert self. induction rooms as [|r rooms IH]; intros self Hwf; simpl; [done|].
  apply IH. by apply wf_disconnected.
Qed.

Lemma conn_of_leave_all rooms user_id self r u :
  conn_of (leave_all rooms user_id self) r u
  = if decide (u = user_id ∧ r ∈ rooms) then None else conn_of self r u.
Proof.
  revert self. induction rooms as [|r0 rooms IH]; intros self; simpl.
  - rewrite decide_False; [done|]. intros [_ ?%elem_of_nil]. done.
  - rewrite IH, conn_of_disconnected.
    destruct (decide (u = user_id ∧ r ∈ rooms)) as [[-> Hin]|Hn].
    + rewrite decide_True; [done|]. split; [done|]. by right.
    + destruct (decide (r = r0 ∧ u = user_id)) as [[-> ->]|Hn'].
      * rewrite decide_True; [done|]. split; [done|]. by left.
      * rewrite decide_False; [done|]. intros [-> [->|Hin]%elem_of_cons]; naive_solver.
Qed.

Lemma main_finally_run websocket user w1 :
  wf (manager w1) →
  main_finally rt websocket user w1
  = (Ok tt,
     set_manager
       (leave_all
          (elements (default ∅ (user_rooms (manager w1) !! user_key rt user)))
          (user_key rt user))
       w1).
Proof.
  intros Hwf. unfold main_finally, leave_room. st_unfold. simpl.
  by apply leave_all_run.
Qed.

Lemma unregistered_everywhere self u :
  wf self → (∀ r, conn_of self r u = None) → user_rooms self !! u = None.
Proof.
  intros Hwf Hnone. destruct (user_rooms self !! u) as [rs|] eqn:Hrs; [|done].
  destruct (wf_rooms_ne _ Hwf u). rewrite Hrs. f_equal.
  apply set_eq. intros r. split; [|set_solver].
  intros Hin. pose proof (wf_rooms _ Hwf u r) as Hiff. rewrite Hrs in Hiff.
  apply Hiff in Hin. rewrite Hnone in Hin. by destruct Hin.
Qed.

Lemma not_in_user_rooms self u r :
  wf self → conn_of self r u = None → ¬ in_user_rooms self u r.
Proof.
  intros Hwf Hnone Hin.
  destruct (wf_consistent _ Hwf r u) as (Hiff & _ & _).
  apply Hiff, conn_of_is_Some in Hin. rewrite Hnone in Hin. by destruct Hin.
Qed.

(** Teardown of a per-room session. *)
Lemma chat_session_teardown s script w r w' :
  wf (manager w) →
  users_parse rt (manager w) →
  chat_session rt s script w = (r, w') →
  r ≠ Ok Open →
  chat_torn_down rt s script w r w'.
Proof.
  intros Hwf Hp Hrun Hopen. unfold chat_session in Hrun.
  apply try_finally_exit in Hrun as (rb & w1 & rf & Hbody & Hrb & Hfin & Hr); [|done].
  assert (keeps shrinks (chat_body rt s script)) as Hk.
  { unfold chat_body. repeat keeps_step; [apply keeps_chat_greet | apply keeps_chat_loop]. }
  destruct (Hk _ _ _ Hwf Hbody) as [Hwf1 Hs1].
  pose proof (users_parse_shrinks _ _ Hs1 Hp) as Hp1.
  rewrite chat_finally_run in Hfin by done. injection Hfin as <- <-.
  exists rb, w1. split; [done|]. split; [done|]. split; [by apply Hr|].
  intros room ukey self1 users event. simpl.
  assert (wf self1) as Hwfs by (by apply wf_disconnected).
  assert (conn_of self1 room ukey = None) as Hgone.
  { unfold self1. rewrite conn_of_disconnected. by rewrite decide_True. }
  set (failed := sweep_failed _ None (net w1)).
  assert (wf (evict room failed self1)) as Hwf' by (by apply wf_evict).
  assert (conn_of (evict room failed self1) room ukey = None) as Hnone.
  { rewrite conn_of_evict. by case_decide. }
  split; [done|]. split; [by apply not_in_user_rooms|]. split.
  { intros r' Hr'. rewrite conn_of_evict. rewrite decide_False by naive_solver.
    unfold self1. rewrite conn_of_disconnected. by rewrite decide_False by naive_solver. }
  split.
  { intros Hin. apply (online_ids_registered _ _ _ Hwfs) in Hin.
    rewrite Hgone in Hin. by destruct Hin. }
  split; [apply presence_event_fields|].
  unfold since. simpl. rewrite drop_app_length. split; [done|]. split.
  - intros v ws Hv Hcc. apply elem_of_app. left. apply sweep_sends_elem.
    exists v, ws. apply conn_of_elem in Hv as (d & Hd & Hin); [|done].
    unfold self1, room, ukey in *. by rewrite Hd.
  - by apply wf_consistent.
Qed.

(** Teardown of a session of the generic endpoint. *)
Lemma main_session_teardown websocket user script w r w' :
  wf (manager w) →
  main_session rt websocket user script w = (r, w') →
  r ≠ Ok Open →
  main_torn_down rt websocket user script w r w'.
Proof.
  intros Hwf Hrun Hopen. unfold main_session in Hrun.
  apply try_finally_exit in Hrun as (rb & w1 & rf & Hbody & Hrb & Hfin & Hr); [|done].
  destruct (keeps_main_body _ _ _ _ _ _ Hwf Hbody) as [Hwf1 _].
  rewrite main_finally_run in Hfin by done. injection Hfin as <- <-.
  exists rb, w1. split; [done|]. split; [done|]. split; [by apply Hr|].
  intros ukey. simpl.
  set (rooms := elements _).
  assert (wf (leave_all rooms ukey (manager w1))) as Hwf' by (by apply wf_leave_all).
  assert (∀ r', conn_of (leave_all rooms ukey (manager w1)) r' ukey = None) as Hnone.
  { intros r'. rewrite conn_of_leave_all. case_decide as Hd; [done|].
    destruct (conn_of (manager w1) r' ukey) as [ws|] eqn:Hc; [|done].
    destruct Hd. split; [done|]. unfold rooms. apply elem_of_elements.
    apply (wf_rooms _ Hwf1). unfold ukey in Hc. rewrite Hc. eauto. }
  split; [done|]. split; [by apply unregistered_everywhere|]. split.
  { intros r' v Hv. rewrite conn_of_leave_all. by rewrite decide_False by naive_solver. }
  split; [done|]. split; [done|]. by apply wf_consistent.
Qed.

(** C4. A session that reached the joined state and ends, on whatever
    path, runs its teardown.  On the per-room endpoint the pair (room,
    user) of the session is unregistered, the user's entries in other
    rooms are left alone, and a presence event with action "left" and
    the online-users list read after the removal is sent to every
    connection still registered in the room whose socket is in the
    connected state.  On the generic endpoint the
    user is unregistered from every room, nobody else's entry changes,
    and no event is sent. *)
Theorem teardown_always_runs :
  (∀ s script w r w',
     wf (manager w) →
     users_parse rt (manager w) →
     chat_session rt s script w = (r, w') →
     r ≠ Ok Open →
     chat_torn_down rt s script w r w') ∧
  (∀ websocket user script w r w',
     wf (manager w) →
     main_session rt websocket user script w = (r, w') →
     r ≠ Ok Open →
     main_torn_down rt websocket user script w r w').
Proof.
  split; [apply chat_session_teardown | apply main_session_teardown].
Qed.
End session_facts.

(** * The theorems at concrete inputs *)

Lemma wf_both_online : wf (manager Demo.both_online).
Proof. simpl. repeat apply wf_connected. apply wf_init. Qed.

Lemma wf_one_dead : wf (manager Demo.one_dead).
Proof. simpl. repeat apply wf_connected. apply wf_init. Qed.

Lemma users_parse_both_online : users_parse Demo.rt (manager Demo.both_online).
Proof.
  intros r u. simpl. rewrite !conn_of_connected.
  repeat case_decide; try (destruct_and!; subst; intros _; vm_compute; by eexists).
  unfold conn_of, init_manager. simpl. rewrite lookup_empty. by intros [? ?].
Qed.

(** Alice, Bob and Vera are in the room, Vera's socket raises: the ping
    reaches Alice and Bob, and Vera alone is evicted. *)
Lemma broadcast_isolates_failure_witness :
  isolates_failure Demo.one_dead Demo.room (JObj [("type", JStr "pong")])
    [(Demo.key Demo.alice, 1); (Demo.key Demo.bob, 2); (Demo.key Demo.vera, 3)]
    (Demo.key Demo.vera).
Proof.
  apply (broadcast_isolates_failure Demo.one_dead Demo.room _ _ _ 3).
  - apply wf_one_dead.
  - vm_compute. reflexivity.
  - vm_compute. reflexivity.
  - reflexivity.
  - exists RuntimeError. reflexivity.
  - intros u ws Hin Hne.
    repeat (apply elem_of_cons in Hin as [Hin|Hin]); try (by apply elem_of_nil in Hin);
      injection Hin as -> ->; try done; by vm_compute.
Defined.

(** Alice registers connection 1, then connection 7, in an empty registry. *)
Lemma reconnect_replaces_witness :
  replaced_by init_manager Demo.room (Demo.key Demo.alice) 1 7.
Proof.
  apply reconnect_replaces.
  - apply wf_init.
  - lia.
  - intros v _. unfold conn_of, init_manager. simpl. by rewrite lookup_empty.
Defined.

(** Alice's per-room session ends on a client disconnect while Bob is
    online; Alice's generic session joins the room and then disconnects. *)
Lemma teardown_always_runs_witness :
  (∃ r w',
     chat_session Demo.rt (Demo.session 1 Demo.alice true)
       [EnvRecv (RecvRaises WebSocketDisconnect)] Demo.both_online = (r, w') ∧
     chat_torn_down Demo.rt (Demo.session 1 Demo.alice true)
       [EnvRecv (RecvRaises WebSocketDisconnect)] Demo.both_online r w') ∧
  (∃ r w',
     main_session Demo.rt 1 Demo.alice
       [EnvRecv (Recv Demo.join); EnvRecv (RecvRaises WebSocketDisconnect)]
       Demo.bob_online = (r, w') ∧
     main_torn_down Demo.rt 1 Demo.alice
       [EnvRecv (Recv Demo.join); EnvRecv (RecvRaises WebSocketDisconnect)]
       Demo.bob_online r w').
Proof.
  split.
  - eexists _, _. split; [vm_compute; reflexivity|].
    apply (proj1 (teardown_always_runs Demo.rt)).
    + apply wf_both_online.
    + apply users_parse_both_online.
    + vm_compute. reflexivity.
    + discriminate.
  - eexists _, _. split; [vm_compute; reflexivity|].
    apply (proj2 (teardown_always_runs Demo.rt)).
    + simpl. apply wf_connected, wf_init.
    + vm_compute. reflexivity.
    + discriminate.
Defined.

(** Vera, a VIEWER of the room, sends a message on the per-room endpoint. *)
Lemma viewer_message_rejected_witness :
  answered_error_only Demo.rt (Demo.session 3 Demo.vera false)
    (JObj [("type", JStr "message"); ("content", JStr "hi")])
    "VIEWERs cannot send messages" Demo.both_online.
Proof.
  apply (viewer_message_rejected Demo.rt _ (Demo.member Demo.vera RoomRole.VIEWER)).
  - reflexivity.
  - reflexivity.
  - exists (JStr "message"). split; reflexivity.
Defined.

(** Alice sends three spaces on the per-room endpoint, and an empty
    content on the generic one. *)
Lemma blank_message_rejected_witness :
  (∃ text,
     answered_error_only Demo.rt (Demo.session 1 Demo.alice true)
       (JObj [("type", JStr "message"); ("content", JStr "   ")])
       text Demo.both_online) ∧
  main_handle Demo.rt 1 Demo.alice (Demo.message_to_room (JStr "")) Demo.both_online
  = (Ok tt, Demo.both_online).
Proof.
  split.
  - apply (proj1 (blank_message_rejected Demo.rt) _ _ "   ").
    + exists (JStr "message"). split; reflexivity.
    + reflexivity.
    + repeat constructor.
  - apply (proj2 (blank_message_rejected Demo.rt) 1 Demo.alice _
             (JObj [("room_id", JStr Demo.room_id); ("content", JStr "")])).
    + reflexivity.
    + reflexivity.
    + reflexivity.
Defined.

(** Alice sends "hi" with the correlation id "c1" while Bob is online. *)
Lemma ack_precedes_broadcast_witness :
  ack_first Demo.rt (Demo.session 1 Demo.alice true)
    [("type", JStr "message"); ("content", JStr "hi"); ("client_msg_id", JStr "c1")]
    "hi" (ReplyRaw JNull) Demo.both_online.
Proof.
  apply (ack_precedes_broadcast Demo.rt (Demo.session 1 Demo.alice true) _ "hi").
  - apply wf_both_online.
  - reflexivity.
  - reflexivity.
  - reflexivity.
  - vm_compute. discriminate.
  - reflexivity.
Defined.

Lemma unique_users_demo : unique_users Demo.db.
Proof.
  split; [|split]; intros x; simpl; rewrite !filter_cons, filter_nil; simpl;
    repeat case_decide; simpl; try lia; congruence.
Qed.

(** The token of the deactivated account, whose id resolves to it alone;
    and Bob's token, whose subject is his id. *)
Lemma inactive_user_never_joins_witness :
  get_current_chat_user_from_token Demo.rt (Demo.key Demo.old_helper) Demo.db = None ∧
  (∃ code reason,
     websocket_chat Demo.rt 9 Demo.room_id (Demo.key Demo.old_helper) [] Demo.both_online
     = (Ok Rejected, emits [EClose 9 code reason] Demo.both_online)) ∧
  (∃ u', get_current_chat_user_from_token Demo.rt (Demo.key Demo.bob) Demo.db = Some u' ∧
         is_active u' = true).
Proof.
  assert (∃ u', get_current_chat_user_from_token Demo.rt (Demo.key Demo.bob) Demo.db
                = Some u' ∧ is_active u' = true) as Hbob.
  { destruct (inactive_user_never_joins Demo.rt) as (_ & _ & Hsome & _).
    apply (Hsome _ (JObj [("sub", JStr (Demo.key Demo.bob))]) (Demo.key Demo.bob)
             Demo.db Demo.bob).
    - apply unique_users_demo.
    - reflexivity.
    - reflexivity.
    - vm_compute. discriminate.
    - split; [simpl; set_solver|]. left. vm_compute. reflexivity.
    - reflexivity. }
  cut (get_current_chat_user_from_token Demo.rt (Demo.key Demo.old_helper) Demo.db = None ∧
       (∃ code reason,
          websocket_chat Demo.rt 9 Demo.room_id (Demo.key Demo.old_helper) []
            Demo.both_online
          = (Ok Rejected, emits [EClose 9 code reason] Demo.both_online))).
  { intros [H1 H2]. split; [exact H1|]. split; [exact H2 | exact Hbob]. }
  assert (get_current_chat_user_from_token Demo.rt (Demo.key Demo.old_helper) Demo.db
          = None) as Hnone.
  { destruct (inactive_user_never_joins Demo.rt) as (_ & Hall & _).
    apply (Hall _ (JObj [("sub", JStr (Demo.key Demo.old_helper))])
             (Demo.key Demo.old_helper)).
    - reflexivity.
    - reflexivity.
    - intros u [Hin Hres]. simpl in Hin.
      repeat (apply elem_of_cons in Hin as [->|Hin]); try (by apply elem_of_nil in Hin);
        try reflexivity; vm_compute in Hres; destruct Hres as [?|[?|?]]; discriminate. }
  split; [done|].
  destruct (inactive_user_never_joins Demo.rt) as (_ & _ & _ & Hchat & _).
  by apply Hchat.
Defined.

(** Alice sends a message whose [reply_to_id] is the number 123. *)
Lemma numeric_reply_rejected_witness :
  chat_turn Demo.rt (Demo.session 1 Demo.alice true)
    (Recv (JObj [("type", JStr "message"); ("content", JStr "hi");
                 ("reply_to_id", JInt 123)])) Demo.both_online
  = (Ok Continue,
     emits [ESend 1 (error_event "AttributeError") Sent] Demo.both_online).
Proof.
  apply (numeric_reply_rejected Demo.rt (Demo.session 1 Demo.alice true)).
  - reflexivity.
  - reflexivity.
Defined.

(** * Where the claims as stated fail *)

(** C4 on the generic endpoint: Alice joined the room in which Bob is
    online and her session ends; she is unregistered, Bob is still
    registered, and his connection was sent nothing: the whole trace of
    the session is the [accept]. *)
Lemma generic_teardown_no_presence :
  ∃ w1 w',
    main_body Demo.rt 1 Demo.alice
      [EnvRecv (Recv Demo.join); EnvRecv (RecvRaises WebSocketDisconnect)]
      (emits [EAccept 1] Demo.bob_online) = (Ok Broke, w1) ∧
    conn_of (manager w1) Demo.room (Demo.key Demo.alice) = Some 1 ∧
    websocket_main Demo.rt 1 (Demo.key Demo.alice)
      [EnvRecv (Recv Demo.join); EnvRecv (RecvRaises WebSocketDisconnect)]
      Demo.bob_online = (Ok Closed, w') ∧
    conn_of (manager w') Demo.room (Demo.key Demo.alice) = None ∧
    conn_of (manager w') Demo.room (Demo.key Demo.bob) = Some 2 ∧
    client_connected (net w' 2) = true ∧
    trace w' = [EAccept 1].
Proof.
  eexists _, _. split; [vm_compute; reflexivity|].
  split; [vm_compute; reflexivity|].
  split; [vm_compute; reflexivity|].
  repeat split; vm_compute; reflexivity.
Qed.

(** C5 on the generic endpoint: Vera is a VIEWER of the room, yet her
    message is stored and broadcast to Bob, and no error event is sent. *)
Lemma generic_viewer_message_stored :
  get_chat_room_member Demo.db 16 (cu_id Demo.vera)
  = Ok (Some (Demo.member Demo.vera RoomRole.VIEWER)) ∧
  ∃ w',
    main_handle Demo.rt 3 Demo.vera (Demo.message_to_room (JStr "hi")) Demo.bob_online
    = (Ok tt, w') ∧
    chat_messages (store w')
    = [{| cm_id := 32; cm_room_id := 16; sender_id := 3;
          sender_type := UserType.HUMAN; content := JStr "hi";
          reply_to_id := ReplyRaw JNull |}] ∧
    trace w'
    = [ESend 2
         (JObj [("type", JStr "message");
                ("message",
                  JObj [("id", JStr (Demo.uuid_text 32));
                        ("room_id", JStr Demo.room_id);
                        ("sender_id", JStr (Demo.key Demo.vera));
                        ("content", JStr "hi")])])
         Sent].
Proof.
  split; [vm_compute; reflexivity|].
  eexists. split; [vm_compute; reflexivity|].
  split; vm_compute; reflexivity.
Qed.

(** C6 on the generic endpoint: a content of one space is stored and
    broadcast, and an empty content gets no error reply. *)
Lemma generic_blank_message_stored :
  whitespace_only " " ∧
  (∃ w',
     main_handle Demo.rt 1 Demo.alice (Demo.message_to_room (JStr " ")) Demo.bob_online
     = (Ok tt, w') ∧
     chat_messages (store w')
     = [{| cm_id := 32; cm_room_id := 16; sender_id := 1;
           sender_type := UserType.HUMAN; content := JStr " ";
           reply_to_id := ReplyRaw JNull |}] ∧
     length (trace w') = 1) ∧
  (∃ w',
     main_handle Demo.rt 1 Demo.alice (Demo.message_to_room (JStr "")) Demo.bob_online
     = (Ok tt, w') ∧
     trace w' = []).
Proof.
  split; [repeat constructor|].
  split.
  - eexists. split; [vm_compute; reflexivity|].
    split; vm_compute; reflexivity.
  - eexists. split; [vm_compute; reflexivity|]. reflexivity.
Qed.

(** C9: the subject "helper" resolves by username to a deactivated
    account, yet validation returns a user, the bot with that slug, and
    the session is accepted. *)
Lemma inactive_name_active_slug :
  get_chat_user_by_username Demo.db "helper" = Ok (Some Demo.old_helper) ∧
  is_active Demo.old_helper = false ∧
  get_current_chat_user_from_token Demo.rt "helper" Demo.db = Some Demo.helper_bot ∧
  ∃ w',
    websocket_main Demo.rt 9 "helper" [] Demo.bob_online = (Ok Open, w') ∧
    trace w' = [EAccept 9].
Proof.
  split; [vm_compute; reflexivity|].
  split; [reflexivity|].
  split; [vm_compute; reflexivity|].
  eexists. split; vm_compute; reflexivity.
Qed.

(** * Further properties of the code *)

(** ** The registry: retries, round trips and the frame *)

Section registry_more.
Implicit Types (self : ConnectionManager) (r : rkey) (u : string) (ws : conn).

Lemma manager_eq self self' :
  connections self = connections self' →
  room_users self = room_users self' →
  user_rooms self = user_rooms self' →
  self = self'.
Proof. destruct self, self'. simpl. by intros -> -> ->. Qed.

Lemma dset_dset (d : list (string * conn)) u ws ws' :
  dset u ws (dset u ws' d) = dset u ws d.
Proof.
  induction d as [|[k v] d IH]; simpl.
  - by rewrite decide_True.
  - destruct (decide (u = k)) as [->|Hne]; simpl.
    + by rewrite decide_True.
    + rewrite decide_False by done. by rewrite IH.
Qed.

Lemma ddel_dset (d : list (string * conn)) u ws :
  dget u d = None → ddel u (dset u ws d) = d.
Proof.
  unfold ddel. induction d as [|[k v] d IH]; simpl.
  - intros _. rewrite filter_cons_False by (simpl; naive_solver). done.
  - destruct (decide (u = k)) as [->|Hne]; [done|]. intros Hg.
    rewrite filter_cons_True by (simpl; congruence). f_equal. auto.
Qed.

Lemma connected_connected ws ws' r u self :
  connected ws r u (connected ws' r u self) = connected ws r u self.
Proof.
  apply manager_eq; unfold connected; simpl.
  - rewrite lookup_insert_eq. simpl. by rewrite insert_insert_eq, dset_dset.
  - rewrite lookup_insert_eq. simpl. rewrite insert_insert_eq. f_equal. set_solver.
  - rewrite lookup_insert_eq. simpl. rewrite insert_insert_eq. f_equal. set_solver.
Qed.

Lemma disconnected_absent r u self :
  wf self → conn_of self r u = None → disconnected r u self = self.
Proof.
  intros Hwf Hnone. unfold disconnected.
  assert (drop_entry r u self = self) as ->.
  { unfold drop_entry. unfold conn_of in Hnone.
    destruct (connections self !! r) as [d|]; simpl in *; [|done].
    unfold dmem. rewrite Hnone. rewrite bool_decide_eq_false_2; [done|].
    by intros [? ?]. }
  unfold drop_index. destruct (user_rooms self !! u) as [rs|] eqn:Hrs; [|done].
  assert (r ∉ rs) as Hr.
  { intros Hin. pose proof (wf_rooms _ Hwf u r) as Hiff. rewrite Hrs in Hiff.
    apply Hiff in Hin. rewrite Hnone in Hin. by destruct Hin. }
  assert (rs ∖ {[r]} = rs) as -> by set_solver.
  rewrite decide_False by (intros ->; by apply (wf_rooms_ne _ Hwf u)).
  apply manager_eq; simpl; try done. by apply insert_id.
Qed.

Lemma disconnected_connected ws r u self :
  wf self → conn_of self r u = None →
  disconnected r u (connected ws r u self) = self.
Proof.
  intros Hwf Hnone.
  pose proof (wf_users _ Hwf r) as Hus.
  pose proof (wf_rooms _ Hwf u r) as Hrooms.
  pose proof (wf_rooms_ne _ Hwf u) as Hne.
  assert (dget u (default [] (connections self !! r)) = None) as Hg.
  { unfold conn_of in Hnone. by destruct (connections self !! r). }
  assert (r ∉ default ∅ (user_rooms self !! u)) as Hr.
  { intros Hin. apply Hrooms in Hin. rewrite Hnone in Hin. by destruct Hin. }
  unfold disconnected, drop_entry, drop_index, connected. simpl.
  rewrite !lookup_insert_eq. unfold dmem. rewrite dget_dset, decide_True by done.
  rewrite bool_decide_eq_true_2 by eauto. rewrite (ddel_dset _ _ _ Hg).
  destruct (connections self !! r) as [d|] eqn:Hc; simpl in *.
  - destruct (wf_dict _ Hwf _ _ Hc) as [_ Hd]. destruct d as [|kv d']; [done|].
    simpl. rewrite lookup_insert_eq. rewrite Hus. simpl in *.
    assert (u ∉ (list_to_set (kv.1 :: d'.*1) : gset string)) as Hu.
    { rewrite elem_of_list_to_set. change (u ∉ (kv :: d').*1). by apply dget_None. }
    destruct (user_rooms self !! u) as [rs|] eqn:Hrs; simpl in *.
    + assert ((rs ∪ {[r]}) ∖ {[r]} = rs) as -> by set_solver.
      rewrite decide_False by congruence.
      apply manager_eq; simpl.
      * rewrite insert_insert_eq. by apply insert_id.
      * rewrite insert_insert_eq. apply insert_id. rewrite Hus. f_equal. set_solver.
      * rewrite insert_insert_eq. by apply insert_id.
    + assert ((∅ ∪ {[r]}) ∖ {[r]} = (∅ : gset rkey)) as -> by set_solver.
      rewrite decide_True by done.
      apply manager_eq; simpl.
      * rewrite insert_insert_eq. by apply insert_id.
      * rewrite insert_insert_eq. apply insert_id. rewrite Hus. f_equal. set_solver.
      * rewrite delete_insert_eq. by apply delete_id.
  - simpl. destruct (user_rooms self !! u) as [rs|] eqn:Hrs; simpl in *;
      rewrite ?lookup_insert_eq.
    + assert ((rs ∪ {[r]}) ∖ {[r]} = rs) as -> by set_solver.
      rewrite decide_False by congruence.
      apply manager_eq; simpl.
      * rewrite delete_insert_eq. by apply delete_id.
      * rewrite delete_insert_eq. apply delete_id. by rewrite Hus.
      * rewrite insert_insert_eq. by apply insert_id.
    + assert ((∅ ∪ {[r]}) ∖ {[r]} = (∅ : gset rkey)) as -> by set_solver.
      rewrite decide_True by done.
      apply manager_eq; simpl.
      * rewrite delete_insert_eq. by apply delete_id.
      * rewrite delete_insert_eq. apply delete_id. by rewrite Hus.
      * rewrite delete_insert_eq. by apply delete_id.
Qed.

Lemma online_connected_other ws r u self r' :
  r' ≠ r → get_online_users r' (connected ws r u self) = get_online_users r' self.
Proof.
  intros Hne. unfold get_online_users, connected. simpl.
  by rewrite lookup_insert_ne.
Qed.

Lemma online_disconnected_other r u self r' :
  r' ≠ r → get_online_users r' (disconnected r u self) = get_online_users r' self.
Proof.
  intros Hne. unfold get_online_users, disconnected.
  rewrite room_users_drop_index. unfold drop_entry.
  destruct (connections self !! r) as [d|]; [|done].
  destruct (dmem u d); [|done].
  destruct (ddel u d); simpl; by rewrite ?lookup_delete_ne, ?lookup_insert_ne.
Qed.

Lemma online_iff_registered self r u :
  wf self → u ∈ get_online_users r self ↔ is_Some (conn_of self r u).
Proof.
  intros Hwf. unfold get_online_users. rewrite elem_of_elements.
  rewrite conn_of_is_Some.
  destruct (wf_consistent _ Hwf r u) as (_ & Hiff & _). rewrite Hiff.
  unfold in_room_users. destruct (room_users self !! r) as [us|]; simpl.
  - naive_solver.
  - split; [set_solver | by intros (? & ? & ?)].
Qed.
End registry_more.

(** X1. Registering the same connection for the same pair twice, as a
    client that retries [join_room] does, leaves the registry exactly as
    registering it once. *)
Theorem connect_retry_idempotent (websocket : conn) (room_id : rkey)
    (user_id : string) (self : ConnectionManager) :
  wf self →
  (connect websocket room_id user_id;; connect websocket room_id user_id) self
  = connect websocket room_id user_id self.
Proof.
  intros Hwf. unfold mbind, ST_bind. rewrite connect_run by done.
  rewrite connect_run by (by apply wf_connected). by rewrite connected_connected.
Qed.

(** X2. Unregistering a pair that is not registered changes nothing and
    does not raise, so a second [disconnect] of a pair, as the [finally]
    of a session does after a broadcast has already evicted it, is a
    no-operation. *)
Theorem disconnect_absent_noop (room_id : rkey) (user_id : string)
    (self : ConnectionManager) :
  wf self →
  (conn_of self room_id user_id = None →
   disconnect room_id user_id self = (Ok tt, self)) ∧
  (disconnect room_id user_id;; disconnect room_id user_id) self
  = disconnect room_id user_id self.
Proof.
  intros Hwf. split.
  - intros Hnone. rewrite disconnect_run by done. by rewrite disconnected_absent.
  - unfold mbind, ST_bind. rewrite disconnect_run by done.
    rewrite disconnect_run by (by apply wf_disconnected).
    rewrite (disconnected_absent _ _ (disconnected room_id user_id self)); [done| |].
    + by apply wf_disconnected.
    + rewrite conn_of_disconnected. by rewrite decide_True.
Qed.

(** X3. Registering a pair that was not registered and unregistering it
    again restores the registry as it was: all three dictionaries, with no
    key left behind. *)
Theorem connect_disconnect_restores (websocket : conn) (room_id : rkey)
    (user_id : string) (self : ConnectionManager) :
  wf self →
  conn_of self room_id user_id = None →
  (connect websocket room_id user_id;; disconnect room_id user_id) self = (Ok tt, self).
Proof.
  intros Hwf Hnone. unfold mbind, ST_bind. rewrite connect_run by done.
  rewrite disconnect_run by (by apply wf_connected).
  by rewrite disconnected_connected.
Qed.

(** X4. After any sequence of register and unregister operations on a
    fresh manager, [get_online_users] of a room lists, without repeats,
    exactly the users that have a connection registered in that room. *)
Theorem online_users_are_registered (ops : list registry_op) (room_id : rkey) :
  ∃ self,
    run_ops ops init_manager = (Ok tt, self) ∧
    NoDup (get_online_users room_id self) ∧
    ∀ user_id,
      user_id ∈ get_online_users room_id self ↔
      is_Some (conn_of self room_id user_id).
Proof.
  destruct (run_ops_wf ops init_manager wf_init) as (self & Hrun & Hwf).
  exists self. split; [done|]. split; [apply NoDup_elements|].
  intros u. by apply online_iff_registered.
Qed.

(** X5. [connect] and [disconnect] touch their own pair only: the pair
    becomes registered with the given connection, respectively
    unregistered, while the connection of every other pair and the online
    list of every other room stay as they were. *)
Theorem registry_ops_touch_only_their_pair (websocket : conn) (room_id : rkey)
    (user_id : string) (self : ConnectionManager) :
  wf self →
  touches_only (connect websocket room_id user_id) room_id user_id (Some websocket)
    self ∧
  touches_only (disconnect room_id user_id) room_id user_id None self.
Proof.
  intros Hwf. split.
  - exists (connected websocket room_id user_id self).
    split; [by apply connect_run|]. split; [|split].
    + rewrite conn_of_connected. by rewrite decide_True.
    + intros r u Hne. rewrite conn_of_connected. rewrite decide_False; [done|].
      intros [-> ->]. done.
    + intros r Hne. by apply online_connected_other.
  - exists (disconnected room_id user_id self).
    split; [by apply disconnect_run|]. split; [|split].
    + rewrite conn_of_disconnected. by rewrite decide_True.
    + intros r u Hne. rewrite conn_of_disconnected. rewrite decide_False; [done|].
      intros [-> ->]. done.
    + intros r Hne. by apply online_disconnected_other.
Qed.

Lemma wf_bob_online : wf (manager Demo.bob_online).
Proof. simpl. apply wf_connected, wf_init. Qed.

(** Alice's client sends [join_room] twice while Bob is online. *)
Lemma connect_retry_idempotent_witness :
  (connect 1 Demo.room (Demo.key Demo.alice);;
   connect 1 Demo.room (Demo.key Demo.alice)) (manager Demo.bob_online)
  = connect 1 Demo.room (Demo.key Demo.alice) (manager Demo.bob_online).
Proof. apply connect_retry_idempotent, wf_bob_online. Defined.

(** Alice is not in the room in which Bob is online. *)
Lemma disconnect_absent_noop_witness :
  disconnect Demo.room (Demo.key Demo.alice) (manager Demo.bob_online)
  = (Ok tt, manager Demo.bob_online) ∧
  (disconnect Demo.room (Demo.key Demo.bob);;
   disconnect Demo.room (Demo.key Demo.bob)) (manager Demo.bob_online)
  = disconnect Demo.room (Demo.key Demo.bob) (manager Demo.bob_online).
Proof.
  split.
  - apply (proj1 (disconnect_absent_noop Demo.room (Demo.key Demo.alice) _
                    wf_bob_online)).
    vm_compute. reflexivity.
  - apply (proj2 (disconnect_absent_noop Demo.room (Demo.key Demo.bob) _
                    wf_bob_online)).
Defined.

(** Alice joins the room in which Bob is online and leaves it again. *)
Lemma connect_disconnect_restores_witness :
  (connect 1 Demo.room (Demo.key Demo.alice);;
   disconnect Demo.room (Demo.key Demo.alice)) (manager Demo.bob_online)
  = (Ok tt, manager Demo.bob_online).
Proof.
  apply connect_disconnect_restores.
  - apply wf_bob_online.
  - vm_compute. reflexivity.
Defined.

(** Vera joins, or Bob leaves, the room in which Alice and Bob are online. *)
Lemma registry_ops_touch_only_their_pair_witness :
  touches_only (connect 3 Demo.room (Demo.key Demo.vera)) Demo.room
    (Demo.key Demo.vera) (Some 3) (manager Demo.both_online) ∧
  touches_only (disconnect Demo.room (Demo.key Demo.bob)) Demo.room
    (Demo.key Demo.bob) None (manager Demo.both_online).
Proof.
  split.
  - apply (proj1 (registry_ops_touch_only_their_pair 3 Demo.room (Demo.key Demo.vera)
                    _ wf_both_online)).
  - apply (proj2 (registry_ops_touch_only_their_pair 2 Demo.room (Demo.key Demo.bob)
                    _ wf_both_online)).
Defined.

(** ** The broadcast: what it sends and whom it evicts *)

Section broadcast_more.

Lemma sweep_failed_elem (d : list (string * conn)) exclude_user net u :
  u ∈ sweep_failed d exclude_user net ↔
  ∃ ws, (u, ws) ∈ d ∧ excluded exclude_user u = false ∧ send_fails net ws = true.
Proof.
  unfold sweep_failed. rewrite list_elem_of_bind. split.
  - intros ([u' ws] & He & Hin).
    destruct (excluded exclude_user u') eqn:Hex; [by apply elem_of_nil in He|].
    destruct (send_fails net ws) eqn:Hf; [|by apply elem_of_nil in He].
    apply list_elem_of_singleton in He as ->. eauto.
  - intros (ws & Hin & Hex & Hf). exists (u, ws). split; [|done].
    rewrite Hex, Hf. by apply list_elem_of_singleton.
Qed.

Lemma broadcast_excluded_ext (d : list (string * conn)) message ex ex' acc w :
  (∀ u, excluded ex u = excluded ex' u) →
  broadcast_sweep d message ex acc w = broadcast_sweep d message ex' acc w.
Proof.
  intros Hex. revert acc w. induction d as [|[u ws] d IH]; intros acc w; simpl; [done|].
  rewrite Hex. destruct (excluded ex' u); [apply IH|].
  unfold mbind, ST_bind. destruct (try_ _ w) as [[[[]|e]|e] w1]; auto.
Qed.

Lemma snapshot_elem self room_id u ws :
  wf self →
  (u, ws) ∈ default [] (connections self !! room_id) ↔
  conn_of self room_id u = Some ws.
Proof.
  intros Hwf. rewrite conn_of_elem by done.
  destruct (connections self !! room_id) as [d|]; simpl.
  - naive_solver.
  - split; [intros ?%elem_of_nil; done | naive_solver].
Qed.

(** The sends of a broadcast: one to each connected entry that is not
    excluded. *)
Lemma broadcast_sends room_id message exclude_user w e :
  wf (manager w) →
  e ∈ sweep_sends (default [] (connections (manager w) !! room_id)) message
        exclude_user (net w) ↔
  ∃ u ws, conn_of (manager w) room_id u = Some ws ∧
          excluded exclude_user u = false ∧
          client_connected (net w ws) = true ∧
          e = ESend ws message (on_send (net w ws)).
Proof.
  intros Hwf. rewrite sweep_sends_elem.
  split; intros (u & ws & H1 & H2); exists u, ws;
    [rewrite <- snapshot_elem | rewrite snapshot_elem]; done.
Qed.

(** The registry after the eviction that ends a broadcast. *)
Lemma broadcast_evicts room_id exclude_user net self r u ws :
  wf self →
  conn_of (evict room_id
             (sweep_failed (default [] (connections self !! room_id)) exclude_user net)
             self) r u = Some ws ↔
  conn_of self r u = Some ws ∧
  ¬ (r = room_id ∧ excluded exclude_user u = false ∧ send_fails net ws = true).
Proof.
  intros Hwf. rewrite conn_of_evict.
  destruct (decide (r = room_id ∧ _)) as [[-> Hin]|Hn].
  - split; [done|]. intros [Hc Hnot]. destruct Hnot.
    apply sweep_failed_elem in Hin as (ws' & Hin & Hex & Hf).
    apply snapshot_elem in Hin; [|done]. by simplify_eq.
  - split; [|naive_solver]. intros Hc. split; [done|].
    intros (-> & Hex & Hf). apply Hn. split; [done|].
    apply sweep_failed_elem. exists ws. by rewrite snapshot_elem.
Qed.
End broadcast_more.

(** X6. On a registry that satisfies its invariant, a broadcast to a room
    does not raise and touches neither the store nor the sockets' state;
    it sends the payload once to each entry of the room that is in the
    connected state and not excluded, and to nobody else; afterwards a
    pair is registered exactly when it was registered before and is not
    an entry of that room whose send raised. *)
Theorem broadcast_evicts_exactly_failed (w : World) (room_id : rkey) (message : json)
    (exclude_user : option string) :
  wf (manager w) →
  evicts_exactly_failed w room_id message exclude_user.
Proof.
  intros Hwf. eexists. split; [by apply broadcast_run|]. simpl.
  split; [done|]. split; [done|]. split; [by apply wf_evict|]. split.
  - intros e. unfold since. simpl. rewrite drop_app_length.
    by apply broadcast_sends.
  - intros r u ws. by apply broadcast_evicts.
Qed.

(** X7. An entry whose socket is no longer in the connected state is
    skipped by a broadcast: nothing is sent to it, and, since only a send
    that raises marks an entry, it stays registered. *)
Theorem broadcast_keeps_stale_entry (w : World) (room_id : rkey) (message : json)
    (exclude_user : option string) (user_id : string) (websocket : conn) :
  wf (manager w) →
  conn_of (manager w) room_id user_id = Some websocket →
  client_connected (net w websocket) = false →
  passes_over w room_id message exclude_user user_id websocket.
Proof.
  intros Hwf Hc Hcc. eexists. split; [by apply broadcast_run|]. simpl. split.
  - apply broadcast_evicts; [done|]. split; [done|]. intros (_ & _ & Hf).
    unfold send_fails in Hf. by rewrite Hcc in Hf.
  - intros m o. unfold since. simpl. rewrite drop_app_length.
    intros (u & ws & _ & _ & Hcc' & [= <- _ _])%broadcast_sends; [|done].
    congruence.
Qed.

(** X8. [exclude_user]: an empty string excludes nobody, as [None] does;
    a user id that is not empty is passed over, it gets nothing and is
    not evicted even when its socket is dead, provided its connection is
    not also the entry of another user of the room. *)
Theorem broadcast_exclude_user :
  (∀ (w : World) (room_id : rkey) (message : json),
     broadcast room_id message (Some "") w = broadcast room_id message None w) ∧
  (∀ (w : World) (room_id : rkey) (message : json) (user_id : string)
     (websocket : conn),
     wf (manager w) →
     user_id ≠ "" →
     conn_of (manager w) room_id user_id = Some websocket →
     (∀ v, v ≠ user_id → conn_of (manager w) room_id v ≠ Some websocket) →
     passes_over w room_id message (Some user_id) user_id websocket).
Proof.
  split.
  - intros w room_id message. unfold broadcast. st_unfold. simpl.
    destruct (connections (manager w) !! room_id) as [d|]; [|done].
    by rewrite (broadcast_excluded_ext d message (Some "") None).
  - intros w room_id message user_id websocket Hwf Hne Hc Hown.
    assert (excluded (Some user_id) user_id = true) as Hex.
    { simpl. rewrite bool_decide_eq_false_2 by done.
      by rewrite bool_decide_eq_true_2. }
    eexists. split; [by apply broadcast_run|]. simpl. split.
    + apply broadcast_evicts; [done|]. split; [done|].
      intros (_ & Hex' & _). congruence.
    + intros m o. unfold since. simpl. rewrite drop_app_length.
      intros (u & ws & Hu & Hex' & _ & [= <- _ _])%broadcast_sends; [|done].
      destruct (decide (u = user_id)) as [->|Hu']; [congruence|].
      by apply (Hown u).
Qed.

Lemma conn_of_both_online r u :
  conn_of (manager Demo.both_online) r u
  = if decide (r = Demo.room ∧ u = Demo.key Demo.bob) then Some 2
    else if decide (r = Demo.room ∧ u = Demo.key Demo.alice) then Some 1
    else None.
Proof.
  simpl. rewrite !conn_of_connected. repeat case_decide; try done.
Qed.

(** A ping is broadcast to the room of Alice, Bob and Vera, whose socket
    raises. *)
Lemma broadcast_evicts_exactly_failed_witness :
  evicts_exactly_failed Demo.one_dead Demo.room (JObj [("type", JStr "ping")]) None.
Proof. apply broadcast_evicts_exactly_failed, wf_one_dead. Defined.

(** Bob's socket has left the connected state. *)
Lemma broadcast_keeps_stale_entry_witness :
  passes_over bob_stale Demo.room (JObj [("type", JStr "ping")]) None
    (Demo.key Demo.bob) 2.
Proof.
  apply broadcast_keeps_stale_entry.
  - apply wf_both_online.
  - vm_compute. reflexivity.
  - reflexivity.
Defined.

(** A broadcast to the room of Alice and Bob that excludes Alice, whose
    socket raises. *)
Lemma broadcast_exclude_user_witness :
  broadcast Demo.room (JObj [("type", JStr "ping")]) (Some "") alice_broken
  = broadcast Demo.room (JObj [("type", JStr "ping")]) None alice_broken ∧
  passes_over alice_broken Demo.room (JObj [("type", JStr "ping")])
    (Some (Demo.key Demo.alice)) (Demo.key Demo.alice) 1.
Proof.
  split.
  - apply (proj1 broadcast_exclude_user).
  - apply (proj2 broadcast_exclude_user).
    + apply wf_both_online.
    + vm_compute. discriminate.
    + vm_compute. reflexivity.
    + intros v Hv. change (manager alice_broken) with (manager Demo.both_online).
      rewrite conn_of_both_online. repeat case_decide; naive_solver.
Defined.

(** ** The per-room session *)

Section raises_facts.
Variable websocket : conn.
Variable Q : exn → Prop.

Lemma raises_ret {A} (a : A) : raises_only websocket Q (mret a).
Proof. intros w r w' Hh [= <- <-]. split; [done|]. intros e [=]. Qed.

Lemma raises_gets {A} (f : World → A) : raises_only websocket Q (gets f).
Proof. intros w r w' Hh [= <- <-]. split; [done|]. intros e [=]. Qed.

Lemma raises_lift {A} (x : res A) :
  (∀ e, x = Raise e → Q e) → raises_only websocket Q (lift x).
Proof. intros Hx w r w' Hh [= <- <-]. split; [done|]. apply Hx. Qed.

Lemma raises_modify (f : World → World) :
  (∀ w, manager (f w) = manager w ∧ net (f w) = net w) →
  raises_only websocket Q (modify f).
Proof.
  intros Hf w r w' [Hwf Hs] [= <- <-]. destruct (Hf w) as [Hm Hn].
  split; [|intros e [=]]. split; [by rewrite Hm | by rewrite Hn].
Qed.

Lemma raises_send_own message : raises_only websocket Q (send_json websocket message).
Proof.
  intros w r w' [Hwf Hs]. rewrite send_json_run, Hs. intros [= <- <-].
  split; [done|]. intros e [=].
Qed.

Lemma raises_broadcast room_id message exclude_user :
  raises_only websocket Q (broadcast room_id message exclude_user).
Proof.
  intros w r w' [Hwf Hs]. rewrite broadcast_run by done. intros [= <- <-].
  split; [|intros e [=]]. split; [by apply wf_evict | done].
Qed.

Lemma raises_bind {A B} (m : ST World A) (f : A → ST World B) :
  raises_only websocket Q m → (∀ a, raises_only websocket Q (f a)) →
  raises_only websocket Q (m ≫= f).
Proof.
  intros Hm Hf w r w' Hh. unfold mbind, ST_bind.
  destruct (m w) as [[a|e] w1] eqn:Hmw.
  - destruct (Hm _ _ _ Hh Hmw) as [Hh1 _]. intros Hfw. by apply (Hf a _ _ _ Hh1).
  - intros [= <- <-]. destruct (Hm _ _ _ Hh Hmw) as [Hh1 He]. split; [done|].
    intros e' [= <-]. by apply He.
Qed.
End raises_facts.

Ltac raises_step :=
  lazymatch goal with
  | |- raises_only _ _ (mret _) => apply raises_ret
  | |- raises_only _ _ (gets _) => apply raises_gets
  | |- raises_only _ _ (modify _) => apply raises_modify; done
  | |- raises_only ?ws _ (send_json ?ws _) => apply raises_send_own
  | |- raises_only _ _ (broadcast _ _ _) => apply raises_broadcast
  | |- raises_only _ _ (_ ≫= _) => apply raises_bind; [|intros ?]
  | |- raises_only _ _ (if ?b then _ else _) => destruct b
  | |- raises_only _ _ (let '(_, _) := ?x in _) => destruct x
  end.

Section handler_facts.
Variable rt : Runtime.
Implicit Types (s : Joined) (w : World) (data : json).

Lemma jget_raise k dflt v e : jget k dflt v = Raise e → e = AttributeError.
Proof. destruct v; simpl; congruence. Qed.

Lemma resolve_reply_raise v e : resolve_reply rt v = Raise e → e = AttributeError.
Proof.
  unfold resolve_reply. destruct (truthy v) eqn:Ht; [|done].
  destruct v as [| | |x| |]; simpl in *; try done; try congruence.
  destruct (uuid_of_str rt x); congruence.
Qed.

Lemma raises_chat_accept_message s data text :
  raises_only (j_websocket s) handler_exn (chat_accept_message rt s data text).
Proof.
  unfold chat_accept_message. repeat raises_step;
    try (apply raises_lift; intros e He);
    try (by apply jget_raise in He); try (by apply resolve_reply_raise in He).
Qed.

Lemma raises_chat_handle s data :
  raises_only (j_websocket s) handler_exn (chat_handle rt s data).
Proof.
  unfold chat_handle. repeat raises_step;
    try apply raises_chat_accept_message;
    try (apply raises_lift; intros e He);
    try (by apply jget_raise in He).
  destruct a0; congruence.
Qed.

Lemma chat_except_healthy s e w :
  on_send (net w (j_websocket s)) = Sent →
  e ≠ WebSocketDisconnect →
  chat_except rt s e w
  = (Ok Continue,
     emits [ESend (j_websocket s)
              (error_event (if decide (e = JSONDecodeError) then "Invalid JSON"
                            else exn_str rt e)) Sent] w).
Proof.
  intros Hs He. unfold chat_except.
  destruct e; try done; st_unfold; rewrite send_json_run, Hs; done.
Qed.

Lemma chat_turn_healthy s r w res w' :
  healthy_for (j_websocket s) w →
  chat_turn rt s r w = (res, w') →
  r ≠ RecvRaises WebSocketDisconnect →
  res = Ok Continue ∧ healthy_for (j_websocket s) w'.
Proof.
  intros Hh Hrun Hr. unfold chat_turn in Hrun. st_unfold.
  destruct r as [data|e].
  - destruct (chat_handle rt s data w) as [[[]|e] w1] eqn:Hhandle.
    + injection Hrun as <- <-. split; [done|].
      by destruct (raises_chat_handle s data _ _ _ Hh Hhandle).
    + destruct (raises_chat_handle s data _ _ _ Hh Hhandle) as [[Hwf1 Hs1] He].
      rewrite (He e eq_refl) in Hrun.
      rewrite chat_except_healthy in Hrun by done. by injection Hrun as <- <-.
  - destruct Hh as [Hwf Hs]. simpl in Hrun.
    rewrite chat_except_healthy in Hrun by congruence. by injection Hrun as <- <-.
Qed.

(** X9. As long as the session's own socket takes what is sent to it,
    nothing the client sends ends the receive loop of [websocket_chat]:
    whatever the events are, well formed or not, the loop is still waiting
    after them and the registry still satisfies its invariant.  The loop
    ends at the first client disconnect, and what would follow is not
    read. *)
Theorem healthy_session_ends_on_disconnect (s : Joined) (inputs : list RecvResult)
    (w : World) :
  healthy_for (j_websocket s) w →
  Forall (λ r, r ≠ RecvRaises WebSocketDisconnect) inputs →
  ends_on_disconnect rt s inputs w.
Proof.
  intros Hh Hall. unfold ends_on_disconnect. revert w Hh.
  induction Hall as [|r inputs Hr _ IH]; intros w Hh; simpl.
  - exists w. split; [done|]. split; [done|]. intros rest.
    unfold mbind, ST_bind, chat_turn. st_unfold. done.
  - unfold mbind at 1, ST_bind at 1.
    destruct (chat_turn rt s r w) as [res w1] eqn:Hturn.
    destruct (chat_turn_healthy _ _ _ _ _ Hh Hturn Hr) as [-> Hh1].
    destruct (IH w1 Hh1) as (w' & Hloop & Hh' & Hrest).
    exists w'. split; [done|]. split; [done|]. intros rest.
    unfold mbind at 1, ST_bind at 1. rewrite Hturn. apply Hrest.
Qed.

Lemma recoverable_turn s r ev w :
  recoverable rt s r ev →
  on_send (net w (j_websocket s)) = Sent →
  chat_turn rt s r w = (Ok Continue, emits [ESend (j_websocket s) ev Sent] w).
Proof.
  intros Hrec Hs. unfold chat_turn.
  assert (∀ data, chat_handle rt s data w = send_json (j_websocket s) ev w →
            (try_ (chat_handle rt s data) ≫= λ out,
               match out with
               | Ok _ => mret Continue
               | Raise e => chat_except rt s e
               end) w = (Ok Continue, emits [ESend (j_websocket s) ev Sent] w))
    as Hsend.
  { intros data Hh. st_unfold. rewrite Hh, send_json_run, Hs. done. }
  assert (∀ data, chat_handle rt s data w = (Raise AttributeError, w) →
            ev = error_event (exn_str rt AttributeError) →
            (try_ (chat_handle rt s data) ≫= λ out,
               match out with
               | Ok _ => mret Continue
               | Raise e => chat_except rt s e
               end) w = (Ok Continue, emits [ESend (j_websocket s) ev Sent] w))
    as Hraise.
  { intros data Hh ->. st_unfold. rewrite Hh. simpl. st_unfold.
    rewrite send_json_run, Hs. done. }
  destruct Hrec as [data t Ht Hp|data t Ht Hp Hm|data e Ht|data Hm Hc|data c Hm Hc Hg Hb
                   |data v Hm Hc Hg Hv|data c v e Hm Hc Hg Hstrip Hr He| |e He1 He2].
  - apply Hsend. unfold chat_handle. st_unfold. rewrite Ht. simpl. by rewrite Hp.
  - apply Hsend. unfold chat_handle. st_unfold. rewrite Ht. simpl. by rewrite Hp, Hm.
  - apply Hraise; [|done]. unfold chat_handle. st_unfold. rewrite Ht. simpl.
    by rewrite (jget_raise _ _ _ _ Ht).
  - apply Hsend. by apply chat_handle_viewer.
  - apply Hsend. by eapply chat_handle_blank.
  - apply Hraise; [|done]. rewrite chat_handle_message by done. rewrite Hc. simpl.
    st_unfold. rewrite Hg. simpl. destruct v; try done. by destruct (Hv s0).
  - apply Hraise; [|done]. rewrite chat_handle_message by done. rewrite Hc. simpl.
    st_unfold. rewrite Hg. simpl. rewrite bool_decide_eq_false_2 by done.
    unfold chat_accept_message. st_unfold.
    destruct data; try done. simpl in *. injection Hr as ->.
    rewrite He. simpl. by rewrite (resolve_reply_raise _ _ He).
  - st_unfold. simpl. st_unfold. rewrite send_json_run, Hs. done.
  - st_unfold. simpl. rewrite chat_except_healthy by done.
    by rewrite decide_False.
Qed.

(** X10. Events that the per-room session only answers: a ping, an
    unknown type, an event that is not a JSON object, a message of a
    viewer, a blank message, a content that is not a string, a reply
    reference that is not a string, invalid JSON, or another exception of
    the receive.  For any sequence of them, on a socket that takes the
    replies, the session sends exactly one event per input to its own
    connection, in order, the pong or the error event of that input, and
    does nothing else: registry and store are untouched, nothing is
    broadcast, and the loop goes on.  Every reply is the pong or an error
    event, and an error event has the type [error] and its text as the
    message. *)
Theorem recoverable_inputs_only_answered (s : Joined) (inputs : list RecvResult)
    (replies : list json) (w : World) :
  Forall2 (recoverable rt s) inputs replies →
  on_send (net w (j_websocket s)) = Sent →
  chat_loop rt s (EnvRecv <$> inputs) w
  = (Ok Pending, emits ((λ ev, ESend (j_websocket s) ev Sent) <$> replies) w) ∧
  Forall (λ ev, ev = JObj [("type", JStr "pong")] ∨ ∃ text, ev = error_event text)
    replies ∧
  ∀ text, error_fields (error_event text) text.
Proof.
  intros Hall Hs. split; [|split].
  - revert w Hs.
    induction Hall as [|r ev inputs replies Hr _ IH]; intros w Hs; simpl.
    + by rewrite emits_nil.
    + unfold mbind at 1, ST_bind at 1. rewrite (recoverable_turn _ _ _ _ Hr Hs).
      rewrite IH by done. by rewrite emits_emits.
  - induction Hall as [|r ev inputs replies Hr _ IH]; constructor; [|done].
    destruct Hr; eauto.
  - apply error_event_fields.
Qed.

Lemma chat_except_failing s e e' w r w' :
  on_send (net w (j_websocket s)) = SendRaises e' →
  chat_except rt s e w = (r, w') →
  ∃ rest,
    w' = emits rest w ∧
    ∀ ef, ef ∈ rest → ∃ m, ef = ESend (j_websocket s) m (SendRaises e').
Proof.
  intros Hs. unfold chat_except. st_unfold.
  destruct e; rewrite ?send_json_run, ?Hs; intros [= <- <-];
    try (exists []; split; [by rewrite emits_nil | by intros ef ?%elem_of_nil]);
    (eexists [_]; split; [done|]; intros ef ->%list_elem_of_singleton; eauto).
Qed.

(** X11. When the ack of an accepted message cannot be delivered, the
    message has already been stored: the turn leaves it in the store, the
    broadcast is skipped, so no member of the room is sent the copy, the
    registry is unchanged, and every send of the turn went to the
    sender's own connection and raised. *)
Theorem failed_ack_skips_broadcast (s : Joined) (fields : list (string * json))
    (c : string) (ref : reply_ref) (e : exn) (w : World) :
  j_can_send s = true →
  dget "type" fields = Some (JStr "message") →
  dget "content" fields = Some (JStr c) →
  strip c ≠ "" →
  resolve_reply rt (default JNull (dget "reply_to_id" fields)) = Ok ref →
  on_send (net w (j_websocket s)) = SendRaises e →
  stored_unannounced rt s fields (strip c) e w.
Proof.
  intros Hcan Htype Hcontent Hstrip Href Hs. unfold stored_unannounced.
  assert (message_event (JObj fields)) as Hm.
  { exists (JStr "message"). simpl. by rewrite Htype. }
  assert (chat_handle rt s (JObj fields) w
          = chat_accept_message rt s (JObj fields) (strip c) w) as Hh.
  { rewrite chat_handle_message by done. rewrite Hcan. simpl. st_unfold. simpl.
    rewrite Hcontent. simpl. by rewrite bool_decide_eq_false_2. }
  unfold chat_accept_message in Hh. st_unfold. simpl in Hh.
  rewrite Href in Hh. simpl in Hh. unfold send_json in Hh. simpl in Hh.
  rewrite Hs in Hh. rewrite emit_emits in Hh.
  rewrite (chat_turn_raise _ _ _ _ _ _ Hh).
  set (message := {| cm_id := next_uuid (store w) |}).
  set (w1 := emits _ _).
  destruct (chat_except rt s e w1) as [r w'] eqn:Hex.
  exists r, w', message.
  apply (chat_except_failing _ _ e) in Hex as (rest & -> & Hrest); [|done].
  split; [done|]. split; [done|]. split; [done|]. split; [done|].
  subst w1. rewrite emits_emits. unfold since. simpl. rewrite drop_app_length.
  intros ef [->|Hin]%elem_of_cons; eauto.
Qed.

(** X12. After the registration [websocket_chat] greets the client: the
    first thing on the wire is the [connected] event to the new
    connection, carrying the latest 50 messages of the room, their total
    and the online list; when it is delivered, a presence event "joined"
    with that same list goes to every connected entry of the room, the
    newcomer included; when it raises, the greeting raises with it and
    nothing else is sent. *)
Theorem greeting_then_presence (s : Joined) (w : World) :
  wf (manager w) →
  users_parse rt (manager w) →
  greeted rt s w.
Proof.
  intros Hwf Hp. unfold greeted.
  set (room := KStr (j_room_id s)). set (ws := j_websocket s).
  set (page := get_chat_messages _ _ _). set (users := online_list _ _ _).
  set (joined := presence _ _ _ _).
  unfold chat_greet, online_users. st_unfold. fold page.
  destruct page as [[messages total] more] eqn:Hpage. simpl.
  rewrite online_users_of_run.
  2:{ intros uid Hin. eapply Hp, online_ids_registered; eauto. }
  simpl. fold room users joined. unfold send_json. simpl. fold ws.
  destruct (on_send (net w ws)) as [|e] eqn:Hs; simpl; rewrite emit_emits.
  - rewrite broadcast_run by done. simpl.
    eexists _, _, _. split; [done|]. unfold since. simpl.
    rewrite <- app_assoc, drop_app_length. simpl.
    split; [done|]. do 5 (split; [done|]).
    split; [apply presence_event_fields|]. split; [done|].
    intros u ws2 Hreg Hcc. right. apply sweep_sends_elem. exists u, ws2.
    apply conn_of_elem in Hreg as (d & Hd & Hin); [|done].
    fold room. rewrite Hd. done.
  - eexists _, _, _. split; [done|]. rewrite since_emits. simpl.
    split; [done|]. do 5 (split; [done|]).
    split; [apply presence_event_fields|]. done.
Qed.
End handler_facts.

Lemma healthy_both_online : healthy_for 1 Demo.both_online.
Proof. split; [apply wf_both_online | reflexivity]. Qed.

(** Alice's client sends a ping, broken JSON, a JSON list, an unknown
    event and a message. *)
Lemma healthy_session_ends_on_disconnect_witness :
  ends_on_disconnect Demo.rt (Demo.session 1 Demo.alice true)
    [Recv (JObj [("type", JStr "ping")]);
     RecvRaises JSONDecodeError;
     Recv (JArr [JInt 1]);
     Recv (JObj [("type", JStr "dance")]);
     Recv (JObj [("type", JStr "message"); ("content", JStr "hi")])]
    Demo.both_online.
Proof.
  apply healthy_session_ends_on_disconnect.
  - apply healthy_both_online.
  - repeat constructor; discriminate.
Defined.

(** Vera, a viewer, sends a ping, broken JSON, a message, and an unknown
    event. *)
Lemma recoverable_inputs_only_answered_witness :
  chat_loop Demo.rt (Demo.session 3 Demo.vera false)
    (EnvRecv <$> [Recv (JObj [("type", JStr "ping")]);
                  RecvRaises JSONDecodeError;
                  Recv (JObj [("type", JStr "message"); ("content", JStr "hi")]);
                  Recv (JObj [("type", JStr "dance")])])
    Demo.both_online
  = (Ok Pending,
     emits ((λ ev, ESend 3 ev Sent) <$>
              [JObj [("type", JStr "pong")];
               error_event "Invalid JSON";
               error_event "VIEWERs cannot send messages";
               error_event "Unknown message type: dance"])
       Demo.both_online) ∧
  error_fields (error_event "VIEWERs cannot send messages")
    "VIEWERs cannot send messages".
Proof.
  assert (Forall2 (recoverable Demo.rt (Demo.session 3 Demo.vera false))
            [Recv (JObj [("type", JStr "ping")]);
             RecvRaises JSONDecodeError;
             Recv (JObj [("type", JStr "message"); ("content", JStr "hi")]);
             Recv (JObj [("type", JStr "dance")])]
            [JObj [("type", JStr "pong")];
             error_event "Invalid JSON";
             error_event "VIEWERs cannot send messages";
             error_event "Unknown message type: dance"]) as Hrec.
  { constructor; [|constructor; [|constructor; [|constructor; [|constructor]]]].
    - apply (rec_ping _ _ _ (JStr "ping")); reflexivity.
    - apply rec_invalid_json.
    - apply rec_viewer; [|reflexivity].
      exists (JStr "message"). split; reflexivity.
    - apply (rec_unknown Demo.rt _ _ (JStr "dance")); reflexivity. }
  destruct (recoverable_inputs_only_answered Demo.rt (Demo.session 3 Demo.vera false)
              _ _ Demo.both_online Hrec eq_refl) as (Hrun & _ & Hfields).
  split; [exact Hrun | apply Hfields].
Defined.

(** Alice sends "hi" on a socket that raises. *)
Lemma failed_ack_skips_broadcast_witness :
  stored_unannounced Demo.rt (Demo.session 1 Demo.alice true)
    [("type", JStr "message"); ("content", JStr " hi ")] "hi" RuntimeError
    alice_broken.
Proof.
  apply (failed_ack_skips_broadcast Demo.rt (Demo.session 1 Demo.alice true) _ " hi "
           (ReplyRaw JNull)).
  - reflexivity.
  - reflexivity.
  - reflexivity.
  - vm_compute. discriminate.
  - reflexivity.
  - reflexivity.
Defined.

(** Alice's session greets her while Bob is online. *)
Lemma greeting_then_presence_witness :
  greeted Demo.rt (Demo.session 1 Demo.alice true) Demo.both_online.
Proof.
  apply greeting_then_presence.
  - apply wf_both_online.
  - apply users_parse_both_online.
Defined.

(** ** Admission to a room and the token *)

Section admission_facts.
Variable rt : Runtime.

Lemma since_same w : since w w = [].
Proof. unfold since. apply drop_all. Qed.

(** X13. [websocket_chat] accepts a connection only after four checks:
    unless the room id parses as a UUID, the room exists, the token names
    an active user and that user has a membership row for the room, the
    connection is turned away: it is closed with 4000, 4004, 4001 or 4003
    without having been accepted (or the membership lookup raises), and
    nothing is registered, stored or sent. *)
Theorem chat_admits_only_members (websocket : conn) (room_id token : string)
    (script : list Env) (w : World) (r : res SessionEnd) (w' : World) :
  websocket_chat rt websocket room_id token script w = (r, w') →
  (∃ room user membership, admitted rt room_id token (store w) room user membership) ∨
  turned_away websocket w r w'.
Proof.
  unfold websocket_chat, admitted, turned_away.
  destruct (uuid_of_str rt room_id) as [room_uuid|] eqn:Hid.
  - st_unfold. simpl.
    destruct (get_chat_room_by_id (store w) room_uuid) as [room|] eqn:Hroom.
    + destruct (get_current_chat_user_from_token rt token (store w)) as [user|] eqn:Hu.
      * destruct (get_chat_room_member (store w) room_uuid (cu_id user))
          as [[membership|]|e] eqn:Hm; simpl.
        -- intros _. left. eauto 10.
        -- intros [= <- <-]. right. split; [done|]. split; [done|]. right.
           split; [done|]. eexists _, _. rewrite emit_emits, since_emits.
           split; [done|]. set_solver.
        -- intros [= <- <-]. right. split; [done|]. split; [done|]. left.
           rewrite since_same. split; [|done].
           unfold get_chat_room_member, scalar_one_or_none in Hm.
           destruct (filter _ _) as [|? [|? ?]]; congruence.
      * intros [= <- <-]. right. split; [done|]. split; [done|]. right.
        split; [done|]. eexists _, _. rewrite emit_emits, since_emits.
        split; [done|]. set_solver.
    + intros [= <- <-]. right. split; [done|]. split; [done|]. right.
      split; [done|]. eexists _, _. rewrite emit_emits, since_emits.
      split; [done|]. set_solver.
  - st_unfold. simpl. intros [= <- <-]. right. split; [done|]. split; [done|]. right.
    split; [done|]. eexists _, _. rewrite emit_emits, since_emits.
    split; [done|]. set_solver.
Qed.

Lemma by_name_or_slug db sub u :
  (user ← get_chat_user_by_username db sub;
   match active user with
   | Some user => Ok (Some user)
   | None => user ← get_chat_user_by_slug db sub; Ok (active user)
   end) = Ok (Some u) →
  u ∈ chat_users db ∧ (username u = sub ∨ bot_slug u = Some sub).
Proof.
  destruct (get_chat_user_by_username db sub) as [o|] eqn:Hn; simpl; [|done].
  destruct (active o) as [u'|] eqn:Ha.
  - intros [= <-]. apply active_Some in Ha as [-> _].
    apply scalar_one_or_none_Some in Hn. naive_solver.
  - destruct (get_chat_user_by_slug db sub) as [o'|] eqn:Hsl; simpl; [|done].
    intros [= Ha']. apply active_Some in Ha' as [-> _].
    apply scalar_one_or_none_Some in Hsl. naive_solver.
Qed.

(** X14. A user returned by the token validation is the token's subject:
    the token decodes, its [sub] is a string that is not empty, and the
    user is a record of the users table whose id, username or bot slug is
    that subject. *)
Theorem validated_user_is_subject (token : string) (db : Db) (u : ChatUser) :
  get_current_chat_user_from_token rt token db = Some u →
  ∃ payload sub,
    jwt_decode rt token = Some payload ∧
    jget "sub" JNull payload = Ok (JStr sub) ∧
    sub ≠ "" ∧
    resolves_to rt sub db u.
Proof.
  unfold get_current_chat_user_from_token.
  destruct (token_lookup rt token db) as [o|] eqn:Hl; [|done]. intros ->.
  revert Hl. unfold token_lookup, decode_token, resolves_to.
  destruct (jwt_decode rt token) as [payload|]; [|done].
  destruct (jget "sub" JNull payload) as [user_id|] eqn:Hsub; simpl; [|done].
  destruct (truthy user_id) eqn:Ht; simpl; [|done].
  destruct user_id as [| | |sub| |]; try done.
  simpl in Ht. apply negb_true_iff, bool_decide_eq_false in Ht.
  intros Hl. exists payload, sub. split; [done|]. split; [done|]. split; [done|].
  revert Hl. simpl.
  destruct (uuid_of_str rt sub) as [user_uuid|] eqn:Hu; simpl.
  - destruct (active (get_chat_user_by_id db user_uuid)) as [u'|] eqn:Ha.
    + intros [= <-]. apply active_Some in Ha as [Hg _].
      apply head_filter_Some in Hg as [? <-]. auto.
    + intros [? ?]%by_name_or_slug. naive_solver.
  - intros [? ?]%by_name_or_slug. naive_solver.
Qed.

(** X15. The three lookups of the token validation, in their order: an
    active user whose id is the subject is returned whatever the other
    lookups would find; when the id lookup gives no active user, the
    active user with that username is returned; and when that lookup too
    gives no active user, the active bot with that slug is. *)
Theorem token_lookup_order (token : string) (payload : json) (sub : string)
    (db : Db) (u : ChatUser) :
  jwt_decode rt token = Some payload →
  jget "sub" JNull payload = Ok (JStr sub) →
  sub ≠ "" →
  is_active u = true →
  let by_id := uuid_of_str rt sub ≫= get_chat_user_by_id db in
  (by_id = Some u → get_current_chat_user_from_token rt token db = Some u) ∧
  (active by_id = None →
   get_chat_user_by_username db sub = Ok (Some u) →
   get_current_chat_user_from_token rt token db = Some u) ∧
  (active by_id = None →
   (∃ o, get_chat_user_by_username db sub = Ok o ∧ active o = None) →
   get_chat_user_by_slug db sub = Ok (Some u) →
   get_current_chat_user_from_token rt token db = Some u).
Proof.
  intros Hdec Hsub Hne Hact by_id.
  unfold get_current_chat_user_from_token, token_lookup, decode_token.
  rewrite Hdec, Hsub. simpl. rewrite bool_decide_eq_false_2 by done. simpl.
  subst by_id. destruct (uuid_of_str rt sub) as [user_uuid|]; simpl.
  - split; [|split].
    + intros ->. simpl. by rewrite Hact.
    + intros -> ->. simpl. by rewrite Hact.
    + intros -> (o & -> & Ho) ->. simpl. by rewrite Ho, Hact.
  - split; [done|]. split.
    + intros _ ->. simpl. by rewrite Hact.
    + intros _ (o & -> & Ho) ->. simpl. by rewrite Ho, Hact.
Qed.
End admission_facts.

(** The token "helper" names the helper bot, which is not a member of the
    room. *)
Lemma chat_admits_only_members_witness :
  turned_away 9 Demo.both_online (Ok Rejected)
    (emits [EClose 9 4003 "Not a member of this room"] Demo.both_online).
Proof.
  destruct (chat_admits_only_members Demo.rt 9 Demo.room_id "helper" []
              Demo.both_online (Ok Rejected)
              (emits [EClose 9 4003 "Not a member of this room"] Demo.both_online))
    as [(room & user & membership & room_uuid & Hid & _ & Huser & Hm)|Hout].
  - vm_compute. reflexivity.
  - exfalso. vm_compute in Hid. injection Hid as <-.
    vm_compute in Huser. injection Huser as <-.
    vm_compute in Hm. discriminate.
  - exact Hout.
Defined.

(** Alice's token carries her id. *)
Lemma validated_user_is_subject_witness :
  ∃ payload sub,
    jwt_decode Demo.rt (Demo.key Demo.alice) = Some payload ∧
    jget "sub" JNull payload = Ok (JStr sub) ∧
    sub ≠ "" ∧
    resolves_to Demo.rt sub Demo.db Demo.alice.
Proof.
  apply (validated_user_is_subject Demo.rt (Demo.key Demo.alice) Demo.db Demo.alice).
  vm_compute. reflexivity.
Defined.

(** A token with Alice's id, one with Bob's username, and one with the
    slug of the helper bot, which is also the username of a deactivated
    account. *)
Lemma token_lookup_order_witness :
  get_current_chat_user_from_token Demo.rt (Demo.key Demo.alice) Demo.db
  = Some Demo.alice ∧
  get_current_chat_user_from_token Demo.rt "bob" Demo.db = Some Demo.bob ∧
  get_current_chat_user_from_token Demo.rt "helper" Demo.db = Some Demo.helper_bot.
Proof.
  split; [|split].
  - apply (proj1 (token_lookup_order Demo.rt (Demo.key Demo.alice)
                    (JObj [("sub", JStr (Demo.key Demo.alice))])
                    (Demo.key Demo.alice) Demo.db Demo.alice
                    eq_refl eq_refl ltac:(vm_compute; discriminate) eq_refl)).
    vm_compute. reflexivity.
  - apply (proj1 (proj2 (token_lookup_order Demo.rt "bob" (JObj [("sub", JStr "bob")])
                           "bob" Demo.db Demo.bob
                           eq_refl eq_refl ltac:(discriminate) eq_refl))).
    + vm_compute. reflexivity.
    + vm_compute. reflexivity.
  - apply (proj2 (proj2 (token_lookup_order Demo.rt "helper"
                           (JObj [("sub", JStr "helper")])
                           "helper" Demo.db Demo.helper_bot
                           eq_refl eq_refl ltac:(discriminate) eq_refl))).
    + vm_compute. reflexivity.
    + exists (Some Demo.old_helper). split; vm_compute; reflexivity.
    + vm_compute. reflexivity.
Defined.

(** ** The store: pages of messages and membership rows *)

Section crud_facts.

Lemma rev_take_rev {A} (l : list A) n :
  rev (take n (rev l)) = drop (length l - n) l.
Proof. rewrite firstn_rev. apply rev_involutive. Qed.

Lemma get_chat_messages_eq db room limit :
  let all := filter (λ m, cm_room_id m = room) (chat_messages db) in
  get_chat_messages db room limit
  = (drop (length all - limit) all, length all, bool_decide (limit < length all)).
Proof.
  intros all. unfold get_chat_messages. fold all.
  rewrite take_take, Nat.min_l by lia. rewrite rev_take_rev.
  f_equal. apply bool_decide_ext.
  rewrite length_take, length_rev. lia.
Qed.

Lemma member_filter_other room_id user_id r u (rows : list ChatRoomMember) :
  (r, u) ≠ (room_id, user_id) →
  filter (λ m, crm_room_id m = r ∧ crm_user_id m = u)
    (filter (λ m, ¬ (crm_room_id m = room_id ∧ crm_user_id m = user_id)) rows)
  = filter (λ m, crm_room_id m = r ∧ crm_user_id m = u) rows.
Proof.
  intros Hne. induction rows as [|m rows IH]; [done|].
  rewrite !filter_cons.
  destruct (decide (¬ (crm_room_id m = room_id ∧ crm_user_id m = user_id)))
    as [Hk|Hk].
  - rewrite filter_cons. by rewrite IH.
  - rewrite IH. rewrite decide_False; [done|].
    intros [<- <-]. apply Hk. intros [Hr Hu]. apply Hne. by rewrite Hr, Hu.
Qed.

Lemma member_filter_removed room_id user_id (rows : list ChatRoomMember) :
  filter (λ m, crm_room_id m = room_id ∧ crm_user_id m = user_id)
    (filter (λ m, ¬ (crm_room_id m = room_id ∧ crm_user_id m = user_id)) rows)
  = [].
Proof.
  induction rows as [|m rows IH]; [done|].
  rewrite filter_cons.
  destruct (decide (¬ (crm_room_id m = room_id ∧ crm_user_id m = user_id)))
    as [Hk|Hk]; [|done].
  rewrite filter_cons. by rewrite decide_False.
Qed.

Lemma member_filter_absent room_id user_id (rows : list ChatRoomMember) :
  filter (λ m, crm_room_id m = room_id ∧ crm_user_id m = user_id) rows = [] →
  filter (λ m, ¬ (crm_room_id m = room_id ∧ crm_user_id m = user_id)) rows = rows.
Proof.
  induction rows as [|m rows IH]; [done|].
  rewrite !filter_cons.
  destruct (decide (crm_room_id m = room_id ∧ crm_user_id m = user_id)) as [Hk|Hk];
    [done|].
  intros Hf. rewrite decide_True by done. f_equal. by apply IH.
Qed.

(** The two outcomes of [add_chat_room_member] that return a row. *)
Lemma add_member_cases room_id user_id role db member db' :
  add_chat_room_member room_id user_id role db = (Ok member, db') →
  (get_chat_room_member db room_id user_id = Ok (Some member) ∧ db' = db) ∨
  (get_chat_room_member db room_id user_id = Ok None ∧
   crm_room_id member = room_id ∧ crm_user_id member = user_id ∧
   db' = set_chat_room_members (λ rows, rows ++ [member]) db).
Proof.
  unfold add_chat_room_member. st_unfold. simpl.
  destruct (get_chat_room_member db room_id user_id) as [[existing|]|e]; simpl;
    [| |done].
  - intros [= <- <-]. by left.
  - destruct (RoomRole_of role) as [r|e]; simpl; [|done].
    intros [= <- <-]. by right.
Qed.

Lemma add_member_found room_id user_id role db member db' :
  add_chat_room_member room_id user_id role db = (Ok member, db') →
  get_chat_room_member db' room_id user_id = Ok (Some member).
Proof.
  intros [[Hg ->]|(Hg & Hr & Hu & ->)]%add_member_cases; [done|].
  unfold get_chat_room_member in *. simpl.
  rewrite filter_app, filter_cons_True, filter_nil by done.
  unfold scalar_one_or_none in Hg.
  destruct (filter _ (chat_room_members db)) as [|? [|? ?]]; done.
Qed.

Lemma remove_member_absent room_id user_id db removed db' :
  remove_chat_room_member room_id user_id db = (Ok removed, db') →
  get_chat_room_member db' room_id user_id = Ok None.
Proof.
  unfold remove_chat_room_member, get_chat_room_member. st_unfold. simpl.
  destruct (scalar_one_or_none _) as [[member|]|e] eqn:Hg; simpl; [| |done];
    intros [= <- <-]; [|done].
  simpl. by rewrite member_filter_removed.
Qed.

Lemma add_member_tables room_id user_id role db r db' :
  add_chat_room_member room_id user_id role db = (r, db') →
  chat_users db' = chat_users db ∧ chat_rooms db' = chat_rooms db.
Proof.
  unfold add_chat_room_member. st_unfold. simpl.
  destruct (get_chat_room_member db room_id user_id) as [[existing|]|e]; simpl;
    [by intros [= <- <-]| |by intros [= <- <-]].
  destruct (RoomRole_of role); simpl; by intros [= <- <-].
Qed.

Lemma remove_member_tables room_id user_id db r db' :
  remove_chat_room_member room_id user_id db = (r, db') →
  chat_users db' = chat_users db ∧ chat_rooms db' = chat_rooms db.
Proof.
  unfold remove_chat_room_member. st_unfold. simpl.
  destruct (scalar_one_or_none _) as [[existing|]|e]; simpl;
    by intros [= <- <-].
Qed.
End crud_facts.

(** X16. [get_chat_messages] returns the latest [limit] messages of the
    room, oldest first: the page is the room's messages without all but
    the last [limit], it has [limit] entries or all of them if there are
    fewer, the total counts all messages of the room, and [has_more] says
    exactly that some were left out. *)
Theorem message_page_is_latest (db : Db) (room : UUID) (limit : nat) :
  let all := filter (λ m, cm_room_id m = room) (chat_messages db) in
  let '(page, total, has_more) := get_chat_messages db room limit in
  page = drop (length all - limit) all ∧
  length page = limit `min` length all ∧
  total = length all ∧
  (has_more = true ↔ limit < length all).
Proof.
  intros all. rewrite get_chat_messages_eq. fold all.
  split; [done|]. split; [rewrite length_drop; lia|]. split; [done|].
  apply bool_decide_eq_true.
Qed.

(** X17. A message created in a room is the last entry of the room's
    next page: the page of [limit + 1] messages read after
    [create_chat_message] is the page of [limit] read before it followed
    by the new message, the total grows by one, [has_more] is as before,
    and the pages of every other room are unchanged. *)
Theorem new_message_ends_page (db : Db) (room sender : UUID) (text : json)
    (kind : UserType.t) (reply : reply_ref) (limit : nat) :
  let stored := create_chat_message db room sender text kind reply in
  let before := get_chat_messages db room limit in
  let after := get_chat_messages stored.2 room (S limit) in
  after.1.1 = before.1.1 ++ [stored.1] ∧
  after.1.2 = S before.1.2 ∧
  after.2 = before.2 ∧
  ∀ other n, other ≠ room →
    get_chat_messages stored.2 other n = get_chat_messages db other n.
Proof.
  intros stored before after. subst before after.
  rewrite !get_chat_messages_eq. simpl.
  rewrite filter_app, filter_cons_True, filter_nil by done.
  rewrite length_app. simpl. split; [|split; [|split]].
  - replace (_ + 1 - S limit) with
      (length (filter (λ m, cm_room_id m = room) (chat_messages db)) - limit) by lia.
    rewrite drop_app_le by lia. done.
  - lia.
  - apply bool_decide_ext. lia.
  - intros other n Hne. rewrite !get_chat_messages_eq. simpl.
    rewrite filter_app, filter_cons_False, filter_nil, app_nil_r; [done|].
    simpl. congruence.
Qed.

(** X18. When [add_chat_room_member] returns a row, that row is the
    membership of the pair from then on: looking the pair up finds it,
    adding the pair again, with whatever role, returns it and changes
    nothing, a row that existed before is returned as it was, role
    included, and the membership of every other pair is unchanged. *)
Theorem add_member_keeps_existing (room_id user_id : UUID) (role : string)
    (db : Db) (member : ChatRoomMember) (db' : Db) :
  add_chat_room_member room_id user_id role db = (Ok member, db') →
  get_chat_room_member db' room_id user_id = Ok (Some member) ∧
  (∀ role', add_chat_room_member room_id user_id role' db' = (Ok member, db')) ∧
  (∀ existing, get_chat_room_member db room_id user_id = Ok (Some existing) →
               member = existing ∧ db' = db) ∧
  (∀ r u, (r, u) ≠ (room_id, user_id) →
          get_chat_room_member db' r u = get_chat_room_member db r u).
Proof.
  intros Hadd. pose proof (add_member_found _ _ _ _ _ _ Hadd) as Hfound.
  split; [done|]. split.
  { intros role'. unfold add_chat_room_member. st_unfold. simpl.
    by rewrite Hfound. }
  apply add_member_cases in Hadd as [[Hg ->]|(Hg & Hr & Hu & ->)].
  - split; [|done]. intros existing He. rewrite Hg in He. by injection He as <-.
  - split; [intros existing He; congruence|].
    intros r u Hne. unfold get_chat_room_member. simpl.
    rewrite filter_app, filter_cons_False, filter_nil, app_nil_r; [done|].
    intros [? ?]. congruence.
Qed.

(** X19. After [remove_chat_room_member] the pair has no membership; the
    result is [True] exactly when it had one, a [False] means the store
    is as it was, and the membership of every other pair is unchanged. *)
Theorem remove_member_clears_pair (room_id user_id : UUID) (db : Db)
    (removed : bool) (db' : Db) :
  remove_chat_room_member room_id user_id db = (Ok removed, db') →
  get_chat_room_member db' room_id user_id = Ok None ∧
  (removed = true ↔ ∃ member, get_chat_room_member db room_id user_id = Ok (Some member)) ∧
  (removed = false → db' = db) ∧
  (∀ r u, (r, u) ≠ (room_id, user_id) →
          get_chat_room_member db' r u = get_chat_room_member db r u).
Proof.
  intros Hrem. split; [by eapply remove_member_absent|].
  revert Hrem. unfold remove_chat_room_member, get_chat_room_member.
  st_unfold. simpl.
  destruct (scalar_one_or_none _) as [[member|]|e] eqn:Hg; simpl; [| |done];
    intros [= <- <-].
  - split; [naive_solver|]. split; [done|].
    intros r u Hne. simpl. by rewrite member_filter_other.
  - split; [|done]. split; [done|]. by intros [? ?].
Qed.

(** X20. Adding a pair that had no membership, with a valid role, and
    removing it again restores the store as it was. *)
Theorem add_then_remove_restores (room_id user_id : UUID) (role : string)
    (r : RoomRole.t) (db : Db) :
  get_chat_room_member db room_id user_id = Ok None →
  RoomRole_of role = Ok r →
  (add_chat_room_member room_id user_id role;;
   remove_chat_room_member room_id user_id) db = (Ok true, db).
Proof.
  intros Hg Hrole.
  unfold add_chat_room_member, remove_chat_room_member. st_unfold. simpl.
  rewrite Hg. simpl. rewrite Hrole. simpl.
  unfold get_chat_room_member in *. simpl.
  rewrite filter_app, filter_cons_True, filter_nil by done.
  unfold scalar_one_or_none in Hg.
  destruct (filter _ (chat_room_members db)) as [|? [|? ?]] eqn:Hf; try done.
  simpl. f_equal. destruct db. unfold set_chat_room_members. simpl. f_equal.
  rewrite filter_app, filter_cons, filter_nil. simpl.
  rewrite decide_False by tauto. rewrite app_nil_r.
  by apply member_filter_absent.
Qed.

Section membership_admission.
Variable rt : Runtime.

Lemma token_same_users token db db' :
  chat_users db' = chat_users db →
  get_current_chat_user_from_token rt token db'
  = get_current_chat_user_from_token rt token db.
Proof.
  intros Hu.
  unfold get_current_chat_user_from_token, token_lookup, get_chat_user_by_id,
    get_chat_user_by_username, get_chat_user_by_slug.
  by rewrite Hu.
Qed.

(** X21. The membership rows decide the admission to a room: for a room
    that exists and a token that names a user, once
    [add_chat_room_member] has returned a row for the pair all checks of
    [websocket_chat] pass with that row, and once
    [remove_chat_room_member] has returned, the endpoint closes the
    user's connection with 4003 before accepting it. *)
Theorem membership_governs_admission (websocket : conn) (room_id token : string)
    (script : list Env) (room_uuid : UUID) (room : ChatRoom) (user : ChatUser)
    (w : World) :
  uuid_of_str rt room_id = Some room_uuid →
  get_chat_room_by_id (store w) room_uuid = Some room →
  get_current_chat_user_from_token rt token (store w) = Some user →
  (∀ role member db',
     add_chat_room_member room_uuid (cu_id user) role (store w) = (Ok member, db') →
     admitted rt room_id token db' room user member) ∧
  (∀ removed db',
     remove_chat_room_member room_uuid (cu_id user) (store w) = (Ok removed, db') →
     websocket_chat rt websocket room_id token script (set_store (λ _, db') w)
     = (Ok Rejected,
        emits [EClose websocket 4003 "Not a member of this room"]
          (set_store (λ _, db') w))).
Proof.
  intros Hid Hroom Huser. split.
  - intros role member db' Hadd.
    destruct (add_member_tables _ _ _ _ _ _ Hadd) as (Hu & Hr).
    pose proof (add_member_found _ _ _ _ _ _ Hadd) as Hg.
    exists room_uuid. split; [done|]. split.
    { unfold get_chat_room_by_id in *. by rewrite Hr. }
    split; [|done]. by rewrite (token_same_users _ _ _ Hu).
  - intros removed db' Hrem.
    destruct (remove_member_tables _ _ _ _ _ Hrem) as (Hu & Hr).
    pose proof (remove_member_absent _ _ _ _ _ Hrem) as Hg.
    unfold websocket_chat. rewrite Hid. st_unfold. simpl.
    unfold get_chat_room_by_id in *. rewrite Hr, Hroom.
    rewrite (token_same_users _ _ _ Hu), Huser, Hg. done.
Qed.
End membership_admission.

(** Bob is added to the room again, as a viewer: he stays a member. *)
Lemma add_member_keeps_existing_witness :
  get_chat_room_member Demo.db 16 2 = Ok (Some (Demo.member Demo.bob RoomRole.MEMBER)) ∧
  (∀ role', add_chat_room_member 16 2 role' Demo.db
            = (Ok (Demo.member Demo.bob RoomRole.MEMBER), Demo.db)).
Proof.
  destruct (add_member_keeps_existing 16 2 "VIEWER" Demo.db
              (Demo.member Demo.bob RoomRole.MEMBER) Demo.db)
    as (Hfound & Hagain & _).
  - vm_compute. reflexivity.
  - split; [exact Hfound | exact Hagain].
Defined.

(** Vera is removed from the room. *)
Lemma remove_member_clears_pair_witness :
  get_chat_room_member
    (set_chat_room_members
       (filter (λ m, ¬ (crm_room_id m = 16%N ∧ crm_user_id m = 3%N))) Demo.db) 16 3
  = Ok None ∧
  get_chat_room_member
    (set_chat_room_members
       (filter (λ m, ¬ (crm_room_id m = 16%N ∧ crm_user_id m = 3%N))) Demo.db) 16 2
  = get_chat_room_member Demo.db 16 2.
Proof.
  destruct (remove_member_clears_pair 16 3 Demo.db true
              (set_chat_room_members
                 (filter (λ m, ¬ (crm_room_id m = 16%N ∧ crm_user_id m = 3%N)))
                 Demo.db))
    as (Hgone & _ & _ & Hother).
  - vm_compute. reflexivity.
  - split; [exact Hgone|]. apply Hother. discriminate.
Defined.

(** The helper bot is added to the room and removed again. *)
Lemma add_then_remove_restores_witness :
  (add_chat_room_member 16 5 "BOT";; remove_chat_room_member 16 5) Demo.db
  = (Ok true, Demo.db).
Proof.
  apply (add_then_remove_restores 16 5 "BOT" RoomRole.BOT Demo.db).
  - vm_compute. reflexivity.
  - vm_compute. reflexivity.
Defined.

(** Vera's membership of the room is removed; the helper bot's is added. *)
Lemma membership_governs_admission_witness :
  (∀ removed db',
     remove_chat_room_member 16 3 Demo.db = (Ok removed, db') →
     websocket_chat Demo.rt 9 Demo.room_id (Demo.key Demo.vera) []
       (set_store (λ _, db') Demo.both_online)
     = (Ok Rejected,
        emits [EClose 9 4003 "Not a member of this room"]
          (set_store (λ _, db') Demo.both_online))) ∧
  (∀ role member db',
     add_chat_room_member 16 5 role Demo.db = (Ok member, db') →
     admitted Demo.rt Demo.room_id "helper" db' Demo.general Demo.helper_bot member).
Proof.
  split.
  - apply (proj2 (membership_governs_admission Demo.rt 9 Demo.room_id
                    (Demo.key Demo.vera) [] 16 Demo.general Demo.vera Demo.both_online
                    ltac:(vm_compute; reflexivity) ltac:(vm_compute; reflexivity)
                    ltac:(vm_compute; reflexivity))).
  - apply (proj1 (membership_governs_admission Demo.rt 9 Demo.room_id
                    "helper" [] 16 Demo.general Demo.helper_bot Demo.both_online
                    ltac:(vm_compute; reflexivity) ltac:(vm_compute; reflexivity)
                    ltac:(vm_compute; reflexivity))).
Defined.

(** ** The generic endpoint *)

Section generic_facts.
Variable rt : Runtime.

Lemma jget_Ok_object k dflt v x :
  jget k dflt v = Ok x → ∀ k' dflt', ∃ y, jget k' dflt' v = Ok y.
Proof. destruct v; try done. intros _ k' dflt'. simpl. eauto. Qed.

Lemma send_message_run room_id room_uuid user_id sender text kind w :
  wf (manager w) →
  uuid_of_str rt room_id = Some room_uuid →
  uuid_of_str rt user_id = Some sender →
  let stored := create_chat_message (store w) room_uuid sender text kind (ReplyRaw JNull) in
  let event :=
    JObj [("type", JStr "message");
          ("message", JObj [("id", JStr (uuid_str rt (cm_id stored.1)));
                            ("room_id", JStr room_id);
                            ("sender_id", JStr user_id);
                            ("content", text)])] in
  let d := default [] (connections (manager w) !! KStr room_id) in
  send_message rt (JStr room_id) user_id text kind w
  = (Ok stored.1,
     set_manager (evict (KStr room_id) (sweep_failed d None (net w)))
       (emits (sweep_sends d event None (net w)) (set_store (λ _, stored.2) w))).
Proof.
  intros Hwf Hr Hu. simpl. unfold send_message. st_unfold. simpl.
  rewrite Hr, Hu. simpl. rewrite broadcast_run by done. done.
Qed.

Lemma sweep_reaches (w : World) (key : rkey) (event : json) u ws :
  wf (manager w) →
  conn_of (manager w) key u = Some ws →
  client_connected (net w ws) = true →
  ESend ws event (on_send (net w ws))
  ∈ sweep_sends (default [] (connections (manager w) !! key)) event None (net w).
Proof.
  intros Hwf Hreg Hcc. apply sweep_sends_elem. exists u, ws.
  apply conn_of_elem in Hreg as (d & Hd & Hin); [|done]. rewrite Hd. done.
Qed.

(** X22. A message event of the generic endpoint whose room id is a UUID
    string and whose content is a string that is not empty is stored,
    under that room and the sender's id with the content as it came, and
    then sent as a [message] event to every connected entry registered
    under the room id, without any check of the sender's membership. *)
Theorem generic_message_reaches_room (websocket : conn) (user : ChatUser)
    (data payload : json) (room_id text : string) (room_uuid sender : UUID)
    (w : World) :
  wf (manager w) →
  room_event "message" (JStr room_id) payload data →
  jget "content" JNull payload = Ok (JStr text) →
  room_id ≠ "" →
  text ≠ "" →
  uuid_of_str rt room_id = Some room_uuid →
  uuid_of_str rt (user_key rt user) = Some sender →
  ∃ w' message event,
    reaches_room rt websocket user data (KStr room_id) w w' event ∧
    jget "type" JNull event = Ok (JStr "message") ∧
    chat_messages (store w') = chat_messages (store w) ++ [message] ∧
    cm_room_id message = room_uuid ∧
    sender_id message = sender ∧
    content message = JStr text.
Proof.
  intros Hwf (Ht & Hp & Hrid) Hc Hne Htext Hr Hu. unfold reaches_room.
  unfold main_handle. st_unfold. rewrite Ht. simpl. rewrite Hp. simpl.
  rewrite Hrid. simpl. rewrite Hc. simpl.
  rewrite !bool_decide_eq_false_2 by done. simpl.
  rewrite (send_message_run _ room_uuid _ sender) by done.
  simpl. set (event := JObj _).
  eexists _, _, event. split.
  - split; [done|]. simpl. split; [by apply wf_evict|].
    intros u ws Hreg Hcc. unfold since. simpl. rewrite drop_app_length.
    by apply (sweep_reaches w _ _ u).
  - simpl. split; [done|]. split; [reflexivity|]. done.
Qed.

(** X23. A message event of the generic endpoint whose room id is not a
    UUID string raises before anything is stored or sent; nothing in the
    loop handles it, so the session ends there with that exception, the
    events that would follow are not read, and the teardown unregisters
    the user from all rooms. *)
Theorem generic_bad_room_ends_session (websocket : conn) (user : ChatUser)
    (data payload room_id text : json) (e : exn) (rest : list Env) (w : World) :
  wf (manager w) →
  room_event "message" room_id payload data →
  jget "content" JNull payload = Ok text →
  truthy room_id = true →
  truthy text = true →
  UUID_of rt room_id = Raise e →
  main_handle rt websocket user data w = (Raise e, w) ∧
  main_session rt websocket user (EnvRecv (Recv data) :: rest) w
  = (Raise e,
     set_manager
       (leave_all (elements (default ∅ (user_rooms (manager w) !! user_key rt user)))
          (user_key rt user)) w).
Proof.
  intros Hwf (Ht & Hp & Hrid) Hc Hroom Htext He.
  assert (main_handle rt websocket user data w = (Raise e, w)) as Hh.
  { unfold main_handle, send_message. st_unfold. rewrite Ht. simpl. rewrite Hp. simpl.
    rewrite Hrid. simpl. rewrite Hc. simpl. rewrite Hroom, Htext. simpl.
    by rewrite He. }
  split; [done|].
  assert (e ≠ WebSocketDisconnect) as Hne.
  { intros ->. unfold UUID_of in He. destruct room_id; try done.
    by destruct (uuid_of_str rt s). }
  unfold main_session, try_finally, main_body. simpl. st_unfold. rewrite Hh.
  destruct e; try done; simpl; by rewrite main_finally_run.
Qed.

(** X24. A typing event of the generic endpoint with a room id stores
    nothing and sends a [typing] event, with the user's id and name and
    the flag of the event, to every connected entry of the room, the
    sender's own included.  For a user whose username is empty the
    handler raises [AttributeError] instead, from the fallback to an
    attribute the user record does not have. *)
Theorem typing_reaches_room (websocket : conn) (user : ChatUser)
    (data payload room_id is_typing : json) (key : rkey) (w : World) :
  wf (manager w) →
  room_event "typing" room_id payload data →
  jget "is_typing" (JBool false) payload = Ok is_typing →
  truthy room_id = true →
  as_key room_id = Ok key →
  if bool_decide (username user = "") then
    main_handle rt websocket user data w = (Raise AttributeError, w)
  else
    ∃ w' event,
      reaches_room rt websocket user data key w w' event ∧
      store w' = store w ∧
      jget "type" JNull event = Ok (JStr "typing") ∧
      ∃ p, jget "payload" JNull event = Ok p ∧
           jget "user_id" JNull p = Ok (JStr (user_key rt user)) ∧
           jget "username" JNull p = Ok (JStr (username user)) ∧
           jget "is_typing" JNull p = Ok is_typing.
Proof.
  intros Hwf (Ht & Hp & Hrid) Hty Hroom Hkey. unfold reaches_room.
  unfold main_handle, send_typing. st_unfold. rewrite Ht. simpl. rewrite Hp. simpl.
  rewrite Hrid. simpl. rewrite Hty. simpl. rewrite Hroom.
  destruct (bool_decide (username user = "")) eqn:Hname; simpl; [done|].
  rewrite Hkey. simpl. rewrite broadcast_run by done.
  set (event := JObj _).
  eexists _, event. split.
  - split; [done|]. simpl. split; [by apply wf_evict|].
    intros u ws Hreg Hcc. unfold since. simpl. rewrite drop_app_length.
    by apply (sweep_reaches w _ _ u).
  - simpl. split; [done|]. split; [done|]. eexists. by simpl.
Qed.

(** X25. The generic endpoint ignores what it cannot use: an event whose
    type is none of the five it knows, and a room event whose payload has
    no room id (or an empty one), are dropped without a reply; registry,
    store and wire are as before. *)
Theorem generic_ignores_incomplete_events (websocket : conn) (user : ChatUser)
    (data t : json) (w : World) :
  jget "type" JNull data = Ok t →
  jeq_str t "ping" = false →
  (jeq_str t "join_room" = false ∧ jeq_str t "leave_room" = false ∧
   jeq_str t "message" = false ∧ jeq_str t "typing" = false) ∨
  (∃ payload room_id,
     jget "payload" (JObj []) data = Ok payload ∧
     jget "room_id" JNull payload = Ok room_id ∧
     truthy room_id = false) →
  main_handle rt websocket user data w = (Ok tt, w).
Proof.
  intros Ht Hping [(Hj & Hl & Hm & Hty)|(payload & room_id & Hp & Hrid & Hroom)];
    unfold main_handle; st_unfold; rewrite Ht; simpl.
  - by rewrite Hj, Hl, Hm, Hty, Hping.
  - destruct (jget_Ok_object _ _ _ _ Hrid "content" JNull) as [c Hc].
    destruct (jget_Ok_object _ _ _ _ Hrid "is_typing" (JBool false)) as [i Hi].
    rewrite Hp, Hping. simpl. rewrite Hrid. simpl. rewrite Hc, Hi, Hroom. simpl.
    by repeat case_match.
Qed.
End generic_facts.

(** Alice, who never joined the room, sends "hi" to it while Bob is
    online. *)
Lemma generic_message_reaches_room_witness :
  ∃ w' message event,
    reaches_room Demo.rt 1 Demo.alice (Demo.message_to_room (JStr "hi")) Demo.room
      Demo.bob_online w' event ∧
    jget "type" JNull event = Ok (JStr "message") ∧
    chat_messages (store w') = chat_messages (store Demo.bob_online) ++ [message] ∧
    cm_room_id message = 16%N ∧
    sender_id message = 1%N ∧
    content message = JStr "hi".
Proof.
  apply (generic_message_reaches_room Demo.rt 1 Demo.alice
           (Demo.message_to_room (JStr "hi"))
           (JObj [("room_id", JStr Demo.room_id); ("content", JStr "hi")])
           Demo.room_id "hi" 16 1 Demo.bob_online).
  - apply wf_bob_online.
  - repeat split; reflexivity.
  - reflexivity.
  - vm_compute. discriminate.
  - discriminate.
  - vm_compute. reflexivity.
  - vm_compute. reflexivity.
Defined.

(** Alice sends a message to the room "lobby" and then a ping. *)
Lemma generic_bad_room_ends_session_witness :
  main_session Demo.rt 1 Demo.alice
    [EnvRecv (Recv (JObj [("type", JStr "message");
                          ("payload", JObj [("room_id", JStr "lobby");
                                            ("content", JStr "hi")])]));
     EnvRecv (Recv (JObj [("type", JStr "ping")]))]
    Demo.both_online
  = (Raise ValueError,
     set_manager
       (leave_all
          (elements (default ∅ (user_rooms (manager Demo.both_online)
                                  !! user_key Demo.rt Demo.alice)))
          (user_key Demo.rt Demo.alice))
       Demo.both_online).
Proof.
  apply (proj2 (generic_bad_room_ends_session Demo.rt 1 Demo.alice
                  (JObj [("type", JStr "message");
                         ("payload", JObj [("room_id", JStr "lobby");
                                           ("content", JStr "hi")])])
                  (JObj [("room_id", JStr "lobby"); ("content", JStr "hi")])
                  (JStr "lobby") (JStr "hi") ValueError
                  [EnvRecv (Recv (JObj [("type", JStr "ping")]))] Demo.both_online
                  wf_both_online
                  ltac:(repeat split; reflexivity) eq_refl eq_refl eq_refl
                  ltac:(vm_compute; reflexivity))).
Defined.

(** Alice starts typing in the room in which she and Bob are online. *)
Lemma typing_reaches_room_witness :
  ∃ w' event,
    reaches_room Demo.rt 1 Demo.alice
      (JObj [("type", JStr "typing");
             ("payload", JObj [("room_id", JStr Demo.room_id);
                               ("is_typing", JBool true)])])
      Demo.room Demo.both_online w' event ∧
    store w' = store Demo.both_online ∧
    jget "type" JNull event = Ok (JStr "typing") ∧
    ∃ p, jget "payload" JNull event = Ok p ∧
         jget "user_id" JNull p = Ok (JStr (user_key Demo.rt Demo.alice)) ∧
         jget "username" JNull p = Ok (JStr "alice") ∧
         jget "is_typing" JNull p = Ok (JBool true).
Proof.
  exact (typing_reaches_room Demo.rt 1 Demo.alice
           (JObj [("type", JStr "typing");
                  ("payload", JObj [("room_id", JStr Demo.room_id);
                                    ("is_typing", JBool true)])])
           (JObj [("room_id", JStr Demo.room_id); ("is_typing", JBool true)])
           (JStr Demo.room_id) (JBool true) Demo.room Demo.both_online
           wf_both_online
           ltac:(repeat split; reflexivity) eq_refl
           ltac:(vm_compute; reflexivity) eq_refl).
Defined.

(** Alice sends an event of an unknown type, and a [join_room] without a
    room id. *)
Lemma generic_ignores_incomplete_events_witness :
  main_handle Demo.rt 1 Demo.alice (JObj [("type", JStr "dance")]) Demo.both_online
  = (Ok tt, Demo.both_online) ∧
  main_handle Demo.rt 1 Demo.alice
    (JObj [("type", JStr "join_room"); ("payload", JObj [])]) Demo.both_online
  = (Ok tt, Demo.both_online).
Proof.
  split.
  - apply (generic_ignores_incomplete_events Demo.rt 1 Demo.alice _ (JStr "dance")).
    + reflexivity.
    + reflexivity.
    + left. repeat split; reflexivity.
  - apply (generic_ignores_incomplete_events Demo.rt 1 Demo.alice _ (JStr "join_room")).
    + reflexivity.
    + reflexivity.
    + right. exists (JObj []), JNull. repeat split; reflexivity.
Defined.
